(** * cli-currency-converter: a shallow embedding of [main.go]

    The program fetches exchange rates, converts an amount into one or
    more target currencies, prints each result as text, JSON or CSV and
    appends it to [history.json].

    Go values are embedded as follows.
    - [string] is a byte string: Rocq's [string] (a list of bytes); the
      Cyrillic literals of the source are their UTF-8 bytes.
    - [float64] is the kernel's binary64 [float]; [int] and [int64] are [Z],
      with the wrap-around written out where a sum can leave the range
      ([time.Unix]) and the saturation where the code has it ([time.Sub]).
    - [error] is [option string]: [None] is [nil], [Some msg] an error whose
      [Error()] text is [msg].
    - [map[string]float64] is [gmap string float].
    - The process environment (arguments, files, standard input, clock,
      network) is an explicit [World]; [os.Exit] ends a computation of the
      monad [M]. *)

From Stdlib Require Import ZArith Floats DecimalString Ascii.
From stdpp Require Import gmap strings list.

Open Scope Z_scope.

(** ** Go runtime: strings *)

Module strings.

Definition is_ascii (b : ascii) : bool := (nat_of_ascii b <? 128)%nat.

Definition upper_byte (b : ascii) : ascii :=
  let n := nat_of_ascii b in
  if (97 <=? n)%nat && (n <=? 122)%nat then ascii_of_nat (n - 32) else b.

Definition lower_byte (b : ascii) : ascii :=
  let n := nat_of_ascii b in
  if (65 <=? n)%nat && (n <=? 90)%nat then ascii_of_nat (n + 32) else b.

Fixpoint all_bytes (p : ascii -> bool) (s : string) : bool :=
  match s with
  | EmptyString => true
  | String b s' => p b && all_bytes p s'
  end.

Fixpoint map_bytes (f : ascii -> ascii) (s : string) : string :=
  match s with
  | EmptyString => EmptyString
  | String b s' => String (f b) (map_bytes f s')
  end.

(** [strings.ToUpper] and [strings.ToLower] have a byte-wise path for
    strings without a byte of 0x80 or more; any other string goes through
    the Unicode case tables, which are the parameters [uni_upper] and
    [uni_lower] here. *)
Definition ToUpper (uni_upper : string -> string) (s : string) : string :=
  if all_bytes is_ascii s then map_bytes upper_byte s else uni_upper s.

Definition ToLower (uni_lower : string -> string) (s : string) : string :=
  if all_bytes is_ascii s then map_bytes lower_byte s else uni_lower s.

(** The UTF-8 encodings of the code points with [unicode.IsSpace]:
    TAB, LF, VT, FF, CR, SPACE, U+0085, U+00A0, U+1680, U+2000..U+200A,
    U+2028, U+2029, U+202F, U+205F and U+3000. *)
Definition bytes (l : list nat) : string :=
  String.string_of_list_ascii (List.map ascii_of_nat l).

Definition space_runes : list string :=
  List.map bytes
    [ [9]; [10]; [11]; [12]; [13]; [32]; [194; 133]; [194; 160];
      [225; 154; 128];
      [226; 128; 128]; [226; 128; 129]; [226; 128; 130]; [226; 128; 131];
      [226; 128; 132]; [226; 128; 133]; [226; 128; 134]; [226; 128; 135];
      [226; 128; 136]; [226; 128; 137]; [226; 128; 138];
      [226; 128; 168]; [226; 128; 169]; [226; 128; 175];
      [226; 129; 159]; [227; 128; 128] ]%nat.

Fixpoint strip_prefix (p s : string) : option string :=
  match p, s with
  | EmptyString, _ => Some s
  | String a p', String b s' =>
      if Ascii.eqb a b then strip_prefix p' s' else None
  | String _ _, EmptyString => None
  end.

(** The rest of [s] after one leading white-space rune, if it has one. *)
Fixpoint strip_space (runes : list string) (s : string) : option string :=
  match runes with
  | [] => None
  | r :: runes' =>
      match strip_prefix r s with
      | Some s' => Some s'
      | None => strip_space runes' s
      end
  end.

(** Every step removes at least one byte, so the length of [s] is enough
    fuel. *)
Fixpoint trim_left_fuel (fuel : nat) (runes : list string) (s : string)
  : string :=
  match fuel with
  | O => s
  | S fuel' =>
      match strip_space runes s with
      | Some s' => trim_left_fuel fuel' runes s'
      | None => s
      end
  end.

Definition TrimLeftSpace (s : string) : string :=
  trim_left_fuel (String.length s) space_runes s.

Definition TrimRightSpace (s : string) : string :=
  String.rev
    (trim_left_fuel (String.length s) (List.map String.rev space_runes)
       (String.rev s)).

Definition TrimSpace (s : string) : string :=
  TrimRightSpace (TrimLeftSpace s).

(** [strings.Split(s, ",")] for a one-byte separator: the fields between
    the separators, a single empty field for the empty string. *)
Fixpoint split_acc (sep : ascii) (cur : string) (s : string) : list string :=
  match s with
  | EmptyString => [String.rev cur]
  | String b s' =>
      if Ascii.eqb b sep then String.rev cur :: split_acc sep EmptyString s'
      else split_acc sep (String b cur) s'
  end.

Definition Split (s : string) (sep : ascii) : list string :=
  split_acc sep EmptyString s.

End strings.

(** ** Go runtime: numbers and time *)

Abbreviation float64 := float (only parsing).

(** [fmt]'s [%d] verb on an [int]. *)
Definition fmt_d (n : Z) : string := NilZero.string_of_int (Z.to_int n).

Definition minInt64 : Z := - 2 ^ 63.
Definition maxInt64 : Z := 2 ^ 63 - 1.

(** The value an [int64] holds after an operation whose exact result is [n]:
    two's-complement wrap-around. *)
Definition int64 (n : Z) : Z := (n + 2 ^ 63) mod 2 ^ 64 - 2 ^ 63.

(** The conversion [float64(n)] of an [int64]: the nearest binary64 value. *)
Definition float64_of_int (n : Z) : float64 :=
  if n =? minInt64 then (-0x1p63)%float
  else if n <? 0 then PrimFloat.opp (PrimFloat.of_uint63 (Uint63.of_Z (- n)))
  else PrimFloat.of_uint63 (Uint63.of_Z n).

(** The conversion [int(f)] of a [float64]: the fraction is discarded
    (truncation towards zero).  The language leaves the result open when the
    value does not fit; this is what amd64 produces (the smallest [int64]). *)
Definition int_of_float64 (f : float64) : Z :=
  match Prim2SF f with
  | S754_zero _ => 0
  | S754_finite s m e =>
      let v := if 0 <=? e then Z.pos m * 2 ^ e else Z.pos m / 2 ^ (- e) in
      let r := if s then - v else v in
      if (minInt64 <=? r) && (r <=? maxInt64) then r else minInt64
  | S754_infinity _ | S754_nan => minInt64
  end.

Module time.

(** [time.Duration] is an [int64] count of nanoseconds. *)
Abbreviation Duration := Z (only parsing).

Definition Nanosecond : Duration := 1.
Definition Second : Duration := 1000000000.
Definition Minute : Duration := 60 * Second.
Definition Hour : Duration := 60 * Minute.

(** [func (d Duration) Hours() float64]:
    [hour := d / Hour; nsec := d % Hour;
     return float64(hour) + float64(nsec)/(60*60*1e9)]. *)
Definition Hours (d : Duration) : float64 :=
  let hour := Z.quot d Hour in
  let nsec := Z.rem d Hour in
  (float64_of_int hour + float64_of_int nsec / 3600000000000)%float.

(** [func (d Duration) Minutes() float64]:
    [min := d / Minute; nsec := d % Minute;
     return float64(min) + float64(nsec)/(60*1e9)]. *)
Definition Minutes (d : Duration) : float64 :=
  let min := Z.quot d Minute in
  let nsec := Z.rem d Minute in
  (float64_of_int min + float64_of_int nsec / 60000000000)%float.

(** A [time.Time] is kept as its instant: nanoseconds since the Unix
    epoch. *)
Abbreviation Time := Z (only parsing).

(** The seconds from January 1 of year 1, where the seconds of a [Time]
    start, to the Unix epoch:
    [(1969*365 + 1969/4 - 1969/100 + 1969/400) * secondsPerDay]. *)
Definition unixToInternal : Z :=
  (1969 * 365 + 1969 / 4 - 1969 / 100 + 1969 / 400) * 86400.

(** [func Unix(sec int64, nsec int64) Time]:
    [if nsec < 0 || nsec >= 1e9 {
       n := nsec / 1e9; sec += n; nsec -= n * 1e9
       if nsec < 0 { nsec += 1e9; sec-- } }
     return unixTime(sec, int32(nsec))],
    where [unixTime] keeps [sec + unixToInternal] in an [int64]: for [sec]
    within [unixToInternal] of the largest [int64] the sum wraps around to
    an instant far in the past. *)
Definition Unix (sec nsec : Z) : Time :=
  let '(sec, nsec) :=
    if (nsec <? 0) || (1000000000 <=? nsec) then
      let n := Z.quot nsec 1000000000 in
      let sec := int64 (sec + n) in
      let nsec := nsec - n * 1000000000 in
      if nsec <? 0 then (int64 (sec - 1), nsec + 1000000000) else (sec, nsec)
    else (sec, nsec) in
  (int64 (sec + unixToInternal) - unixToInternal) * Second + nsec.

(** [t.Sub(u)], which [time.Since] calls: the difference of the two
    instants when a [Duration] can hold it, and otherwise the smallest or the
    largest [Duration] (the overflow check of [Sub]). *)
Definition Sub (t u : Time) : Duration :=
  Z.max minInt64 (Z.min maxInt64 (t - u)).

End time.

(** ** Data model *)

(** The Go [error] interface, by its message. *)
Abbreviation error := (option string) (only parsing).

Record ExchangeRateResponse : Type := {
  Base : string;
  Date : string;
  Rates : gmap string float64;
  TimeLastUpdated : Z
}.

Record ConversionRecord : Set := {
  Timestamp : time.Time;
  FromCurrency : string;
  ToCurrency : string;
  Amount : float64;
  Result : float64;
  ExchangeRate : float64;
  RateUpdateTime : time.Time
}.

Record Config : Set := {
  DefaultFrom : string;
  DefaultTo : string;
  OutputFormat : string
}.

(** ** The converter and the time-ago formatter *)

Definition convertCurrency (amount : float64) (from to : string)
    (rates : ExchangeRateResponse) : float64 * error :=
  match Rates rates !! to with
  | Some rate => ((amount * rate)%float, None)
  | None => (0%float, Some ("валюта " +:+ to +:+ " не найдена"))
  end.

Definition formatTimeAgo (duration : time.Duration) : string :=
  let hours := int_of_float64 (time.Hours duration) in
  let minutes := Z.rem (int_of_float64 (time.Minutes duration)) 60 in
  if 24 <? hours then
    let days := Z.quot hours 24 in
    if days =? 1 then "1 день назад"
    else fmt_d days +:+ " дня/дней назад"
  else if 0 <? hours then
    if hours =? 1 then "1 час назад"
    else if hours <? 5 then fmt_d hours +:+ " часа назад"
    else fmt_d hours +:+ " часов назад"
  else if 0 <? minutes then
    if minutes =? 1 then "1 минуту назад"
    else if minutes <? 5 then fmt_d minutes +:+ " минуты назад"
    else fmt_d minutes +:+ " минут назад"
  else "только что".


(** ** Libraries and environment *)

(** The result of a call that returns [(value, err)] with exactly one of the
    two meaningful. *)
Inductive result (A : Type) : Type :=
| Ok (a : A)
| Err (msg : string).
Arguments Ok {A} a.
Arguments Err {A} msg.

Record JSONOutput : Set := {
  jo_Success : bool;
  jo_Timestamp : time.Time;
  jo_FromCurrency : string;
  jo_ToCurrency : string;
  jo_Amount : float64;
  jo_Result : float64;
  jo_ExchangeRate : float64;
  jo_RateUpdateTime : time.Time
}.

(** The library functions whose bodies are outside the repository:
    Unicode case mapping, [strconv.ParseFloat] and [encoding/json].

    [json.Unmarshal(data, &v)] updates [v] in place and returns an error;
    the decoders below return the value left in [v] together with that
    error.  For the configuration the target starts as the defaults, for the
    history as the nil slice, for the rates as the zero struct. *)
Class Platform : Type := {
  unicode_ToUpper : string -> string;
  unicode_ToLower : string -> string;
  strconv_ParseFloat : string -> result float64;
  json_Unmarshal_Config : string -> Config -> Config * error;
  json_Unmarshal_Rates : string -> ExchangeRateResponse * error;
  json_Unmarshal_History : string -> list ConversionRecord * error;
  json_MarshalIndent_History : list ConversionRecord -> result string;
  json_MarshalIndent_Output : JSONOutput -> result string;
  (** [map[string]interface{}{"success": false, "error": message}] *)
  json_MarshalIndent_Failure : string -> string
}.

(** The colours of [github.com/fatih/color] the program prints in. *)
Inductive Style : Set := Red | Green | Cyan | Yellow | HiBlack.

(** An argument of a formatted print, kept as the value passed. *)
Inductive Arg : Set :=
| AStr (s : string)
| AFloat (f : float64)
| AInt (n : Z)
| ATime (layout : string) (t : time.Time).

(** What the process does to the outside, in order.  A format string is kept
    as the source writes it. *)
Inductive Event : Set :=
| Println (s : string)
| Print (s : string)
| Printf (format : string) (args : list Arg)
| Colored (c : Style) (format : string) (args : list Arg)
| ColorSet (attrs : list string)
| ColorUnset
| HttpGet (url : string)
| WriteFile (name : string) (data : string) (ok : bool).

Record File : Set := {
  f_data : string;
  f_readable : bool;
  f_writable : bool
}.

Inductive HttpResult : Set :=
| TransportError (msg : string)
| Response (status : Z) (body : result string).

(** [os.Args] is the program name followed by the arguments; the file
    system holds the files of the working directory. *)
Record World : Type := {
  program : string;
  arguments : list string;
  fs : gmap string File;
  dir_writable : bool;
  stdin : list string;
  clock : nat -> time.Time;
  ticks : nat;
  network : string -> HttpResult;
  trace : list Event
}.

Definition os_Args (w : World) : list string := program w :: arguments w.

Definition with_trace (w : World) (tr : list Event) : World :=
  {| program := program w; arguments := arguments w; fs := fs w; dir_writable := dir_writable w;
     stdin := stdin w; clock := clock w; ticks := ticks w;
     network := network w; trace := tr |}.

Definition with_fs (w : World) (m : gmap string File) : World :=
  {| program := program w; arguments := arguments w; fs := m; dir_writable := dir_writable w;
     stdin := stdin w; clock := clock w; ticks := ticks w;
     network := network w; trace := trace w |}.

Definition with_stdin (w : World) (l : list string) : World :=
  {| program := program w; arguments := arguments w; fs := fs w; dir_writable := dir_writable w;
     stdin := l; clock := clock w; ticks := ticks w;
     network := network w; trace := trace w |}.

Definition with_ticks (w : World) (n : nat) : World :=
  {| program := program w; arguments := arguments w; fs := fs w; dir_writable := dir_writable w;
     stdin := stdin w; clock := clock w; ticks := n;
     network := network w; trace := trace w |}.

(** A computation either returns or leaves through [os.Exit]. *)
Inductive Outcome (A : Type) : Type :=
| Returned (a : A) (w : World)
| Exited (code : Z) (w : World).
Arguments Returned {A} a w.
Arguments Exited {A} code w.

Definition M (A : Type) : Type := World -> Outcome A.

Definition ret {A : Type} (a : A) : M A := fun w => Returned a w.

Definition bind {A B : Type} (c : M A) (k : A -> M B) : M B :=
  fun w =>
    match c w with
    | Returned a w' => k a w'
    | Exited code w' => Exited code w'
    end.

Declare Scope go_scope.
Delimit Scope go_scope with go.
Notation "'let*' x ':=' c 'in' k" := (bind c (fun x => k))
  (at level 10, x pattern, c at level 100, k at level 200) : go_scope.
Notation "c '>>' k" := (bind c (fun _ => k))
  (at level 100, k at level 200, right associativity) : go_scope.
Open Scope go_scope.

Definition final_world {A : Type} (o : Outcome A) : World :=
  match o with
  | Returned _ w => w
  | Exited _ w => w
  end.

(** The exit status of the process: 0 when [main] returns. *)
Definition exit_code {A : Type} (o : Outcome A) : Z :=
  match o with
  | Returned _ _ => 0
  | Exited code _ => code
  end.

Definition emit (e : Event) : M unit :=
  fun w => Returned tt (with_trace w (trace w ++ [e])).

Definition os_Exit {A : Type} (code : Z) : M A := fun w => Exited code w.

Definition get_Args : M (list string) := fun w => Returned (os_Args w) w.

Definition os_ReadFile (name : string) : M (result string) :=
  fun w =>
    match fs w !! name with
    | Some f =>
        if f_readable f then Returned (Ok (f_data f)) w
        else Returned (Err "permission denied") w
    | None => Returned (Err "no such file or directory") w
    end.

(** [os.WriteFile(name, data, 0644)]: the file is replaced as a whole, or
    created; a write that is refused leaves it as it was. *)
Definition os_WriteFile (name : string) (data : string) : M error :=
  fun w =>
    match fs w !! name with
    | Some f =>
        if f_writable f then
          Returned None
            (with_trace
               (with_fs w (<[name := {| f_data := data;
                                        f_readable := f_readable f;
                                        f_writable := true |}]> (fs w)))
               (trace w ++ [WriteFile name data true]))
        else
          Returned (Some "permission denied")
            (with_trace w (trace w ++ [WriteFile name data false]))
    | None =>
        if dir_writable w then
          Returned None
            (with_trace
               (with_fs w (<[name := {| f_data := data;
                                        f_readable := true;
                                        f_writable := true |}]> (fs w)))
               (trace w ++ [WriteFile name data true]))
        else
          Returned (Some "permission denied")
            (with_trace w (trace w ++ [WriteFile name data false]))
    end.

Definition time_Now : M time.Time :=
  fun w => Returned (clock w (ticks w)) (with_ticks w (S (ticks w))).

Definition time_Since (t : time.Time) : M time.Duration :=
  let* now := time_Now in ret (time.Sub now t).

(** [fmt.Scanln(&input)]: what the call stores in [input]; the empty string
    once the input has run out. *)
Definition fmt_Scanln : M string :=
  fun w =>
    match stdin w with
    | [] => Returned EmptyString w
    | s :: rest => Returned s (with_stdin w rest)
    end.

Definition http_Get (url : string) : M HttpResult :=
  fun w => Returned (network w url) (with_trace w (trace w ++ [HttpGet url])).

Definition apiURL : string := "https://api.exchangerate-api.com/v4/latest/".
Definition historyFile : string := "history.json".
Definition configFile : string := "config.json".

(** ** The program *)

Section Program.
Context {P : Platform}.

Definition ToUpper : string -> string := strings.ToUpper unicode_ToUpper.
Definition ToLower : string -> string := strings.ToLower unicode_ToLower.

Definition defaultConfig : Config :=
  {| DefaultFrom := "USD"; DefaultTo := "RUB"; OutputFormat := "text" |}.

Definition loadConfig : M Config :=
  let cfg := defaultConfig in
  let* r := os_ReadFile configFile in
  match r with
  | Err _ => ret cfg
  | Ok data =>
      let cfg := fst (json_Unmarshal_Config data cfg) in
      ret {| DefaultFrom := ToUpper (DefaultFrom cfg);
             DefaultTo := ToUpper (DefaultTo cfg);
             OutputFormat := ToLower (OutputFormat cfg) |}
  end.

Definition is_json_flag (a : string) : bool := String.eqb a "--json".
Definition is_csv_flag (a : string) : bool := String.eqb a "--csv".

(** The flag loop of [main].  [args = append(args[:i], args[i+1:]...); i--]
    removes position [i] and, with the [i++] of the loop, looks at the same
    position again.  Each turn either shortens [args] or advances [i]. *)
Fixpoint stripFlags_loop (fuel : nat) (i : nat) (args : list string)
    (jsonOutput csvOutput : bool) : list string * bool * bool :=
  match fuel with
  | O => (args, jsonOutput, csvOutput)
  | S fuel' =>
      match args !! i with
      | None => (args, jsonOutput, csvOutput)
      | Some a =>
          if is_json_flag a then
            stripFlags_loop fuel' i (take i args ++ drop (S i) args)
              true csvOutput
          else if is_csv_flag a then
            stripFlags_loop fuel' i (take i args ++ drop (S i) args)
              jsonOutput true
          else stripFlags_loop fuel' (S i) args jsonOutput csvOutput
      end
  end.

Definition stripFlags (args : list string) : list string * bool * bool :=
  stripFlags_loop (length args) 0 args false false.

Definition printHeader : M unit :=
  emit (ColorSet ["FgGreen"; "Bold"]) >>
  emit (Println "╔════════════════════════════════════════╗") >>
  emit (Println "║     КОНВЕРТЕР ВАЛЮТ (Go Version)       ║") >>
  emit (Println "╚════════════════════════════════════════╝") >>
  emit ColorUnset >>
  emit (Println EmptyString).

Definition getInput (prompt : string) : M string :=
  emit (Print prompt) >>
  let* input := fmt_Scanln in
  ret (ToUpper (strings.TrimSpace input)).

Definition getAmount (prompt : string) : M float64 :=
  emit (Print prompt) >>
  let* input := fmt_Scanln in
  match strconv_ParseFloat input with
  | Err _ => emit (Colored Red "❌ Ошибка: неверная сумма" []) >> os_Exit 1
  | Ok amount => ret amount
  end.

Definition zeroRates : ExchangeRateResponse :=
  {| Base := EmptyString; Date := EmptyString; Rates := ∅;
     TimeLastUpdated := 0 |}.

Definition StatusOK : Z := 200.

Definition getExchangeRates (baseCurrency : string)
    : M (result ExchangeRateResponse) :=
  let* resp := http_Get (apiURL +:+ baseCurrency) in
  match resp with
  | TransportError err => ret (Err ("ошибка при запросе к API: " +:+ err))
  | Response StatusCode Body =>
      if negb (StatusCode =? StatusOK) then
        ret (Err ("API вернул код ошибки: " +:+ fmt_d StatusCode))
      else
        match Body with
        | Err err => ret (Err ("ошибка чтения ответа: " +:+ err))
        | Ok body =>
            match json_Unmarshal_Rates body with
            | (_, Some err) => ret (Err ("ошибка парсинга JSON: " +:+ err))
            | (rates, None) => ret (Ok rates)
            end
        end
  end.

Definition printResult (amount : float64) (from : string) (result : float64)
    (to : string) (rates : ExchangeRateResponse) : M unit :=
  emit (Println EmptyString) >>
  emit (ColorSet ["FgYellow"; "Bold"]) >>
  emit (Println "════════════════ РЕЗУЛЬТАТ ════════════════") >>
  emit ColorUnset >>
  emit (Colored Green "%.2f %s = %.2f %s"
          [AFloat amount; AStr from; AFloat result; AStr to]) >>
  match Rates rates !! to with
  | Some rate =>
      emit (Println EmptyString) >>
      emit (Colored Cyan "Курс: 1 %s = %.4f %s"
              [AStr from; AFloat rate; AStr to])
  | None => ret tt
  end >>
  let updateTime := time.Unix (TimeLastUpdated rates) 0 in
  let* since := time_Since updateTime in
  let timeAgo := formatTimeAgo since in
  emit (Println EmptyString) >>
  emit (Colored HiBlack "Последнее обновление: %s (%s)"
          [ATime "2006-01-02 15:04:05" updateTime; AStr timeAgo]) >>
  emit (Println EmptyString) >>
  emit (ColorSet ["FgYellow"; "Bold"]) >>
  emit (Println "═══════════════════════════════════════════") >>
  emit ColorUnset.

Definition outputError (message : string) (asJSON : bool) : M unit :=
  if asJSON then emit (Println (json_MarshalIndent_Failure message))
  else emit (Printf "error,%s\n" [AStr message]).

Definition outputJSON (from to : string) (amount result rate : float64)
    (updateTime : time.Time) : M unit :=
  let* now := time_Now in
  let output :=
    {| jo_Success := true; jo_Timestamp := now; jo_FromCurrency := from;
       jo_ToCurrency := to; jo_Amount := amount; jo_Result := result;
       jo_ExchangeRate := rate; jo_RateUpdateTime := updateTime |} in
  match json_MarshalIndent_Output output with
  | Err err =>
      outputError ("ошибка формирования JSON: " +:+ err) true >> os_Exit 1
  | Ok data => emit (Println data)
  end.

Definition outputCSV (from to : string) (amount result rate : float64)
    (_ : time.Time) : M unit :=
  let* now := time_Now in
  emit (Printf "%s,%s,%s,%.2f,%.2f,%.6f\n"
          [ATime "RFC3339" now; AStr from; AStr to; AFloat amount;
           AFloat result; AFloat rate]).

Definition newRecord (now : time.Time) (from to : string)
    (amount result rate : float64) (updateTime : time.Time)
    : ConversionRecord :=
  {| Timestamp := now; FromCurrency := from; ToCurrency := to;
     Amount := amount; Result := result; ExchangeRate := rate;
     RateUpdateTime := updateTime |}.

Definition saveToHistory (from to : string) (amount result rate : float64)
    (updateTime : time.Time) : M unit :=
  let* now := time_Now in
  let record := newRecord now from to amount result rate updateTime in
  let* r := os_ReadFile historyFile in
  let history :=
    match r with
    | Ok data => fst (json_Unmarshal_History data)
    | Err _ => []
    end in
  let history := history ++ [record] in
  match json_MarshalIndent_History history with
  | Err _ => ret tt
  | Ok data => let* _ := os_WriteFile historyFile data in ret tt
  end.

Definition showRecord (rec : ConversionRecord) : M unit :=
  emit (Colored Cyan "📅 %s" [ATime "2006-01-02 15:04:05" (Timestamp rec)]) >>
  emit (Colored Green "   %.2f %s = %.2f %s"
          [AFloat (Amount rec); AStr (FromCurrency rec);
           AFloat (Result rec); AStr (ToCurrency rec)]) >>
  emit (Colored HiBlack "   Курс: 1 %s = %.4f %s"
          [AStr (FromCurrency rec); AFloat (ExchangeRate rec);
           AStr (ToCurrency rec)]) >>
  emit (Println EmptyString).

(** [for i := len(history) - 1; i >= 0; i--]: [n] is [i + 1]. *)
Fixpoint showHistory_loop (n : nat) (history : list ConversionRecord)
    : M unit :=
  match n with
  | O => ret tt
  | S i =>
      match history !! i with
      | Some rec => showRecord rec >> showHistory_loop i history
      | None => ret tt
      end
  end.

Definition showHistory : M unit :=
  let* r := os_ReadFile historyFile in
  match r with
  | Err _ =>
      emit (Colored Red "❌ История конвертаций пуста или файл не найден" [])
  | Ok data =>
      match json_Unmarshal_History data with
      | (_, Some err) =>
          emit (Colored Red "❌ Ошибка чтения файла истории: %v" [AStr err])
      | (history, None) =>
          if (length history =? 0)%nat then
            emit (Colored Yellow "📝 История конвертаций пуста" [])
          else
            emit (ColorSet ["FgGreen"; "Bold"]) >>
            emit (Println "╔════════════════════════════════════════╗") >>
            emit (Println "║      ИСТОРИЯ КОНВЕРТАЦИЙ               ║") >>
            emit (Println "╚════════════════════════════════════════╝") >>
            emit ColorUnset >>
            emit (Println EmptyString) >>
            showHistory_loop (length history) history >>
            emit (ColorSet ["FgYellow"; "Bold"]) >>
            emit (Printf "Всего записей: %d\n"
                    [AInt (Z.of_nat (length history))]) >>
            emit ColorUnset
      end
  end.

(** [args[k]] of a slice known to be long enough. *)
Definition index (args : list string) (k : nat) : string :=
  nth k args EmptyString.

(** Lines 121-157 of [main]: the parameters, from the three positional
    arguments or from the prompts.  [os.Args[0]] is not touched by the flag
    loop, which works on [os.Args[1:]]. *)
Definition main_params (cfg : Config) (prog : string) (args : list string)
    (jsonOutput csvOutput : bool) : M (string * string * float64) :=
  if (length args =? 3)%nat then
    let fromCurrency := ToUpper (index args 0) in
    let toCurrencyRaw := ToUpper (index args 1) in
    match strconv_ParseFloat (index args 2) with
    | Err _ =>
        (if jsonOutput || csvOutput then outputError "неверная сумма" jsonOutput
         else emit (Colored Red "❌ Ошибка: неверная сумма" [])) >>
        os_Exit 1
    | Ok amount => ret (fromCurrency, toCurrencyRaw, amount)
    end
  else if (length args =? 0)%nat then
    let* fromCurrency :=
      getInput ("Введите исходную валюту (по умолчанию "
                +:+ DefaultFrom cfg +:+ "): ") in
    let fromCurrency :=
      if String.eqb fromCurrency EmptyString then DefaultFrom cfg
      else fromCurrency in
    let* toCurrencyRaw :=
      getInput ("Введите целевую валюту (по умолчанию "
                +:+ DefaultTo cfg +:+ "): ") in
    let toCurrencyRaw :=
      if String.eqb toCurrencyRaw EmptyString then DefaultTo cfg
      else toCurrencyRaw in
    let* amount := getAmount "Введите сумму для конвертации: " in
    ret (fromCurrency, toCurrencyRaw, amount)
  else
    (if jsonOutput || csvOutput then
       outputError "неверное количество аргументов" jsonOutput
     else
       emit (Colored Red
               "❌ Использование: %s [--json|--csv] <from> <to1[,to2,...]> <amount>"
               [AStr prog]) >>
       emit (Colored Red "   или: %s --history" [AStr prog])) >>
    os_Exit 1.

(** Lines 180-204 of [main]: the body of the loop over the targets.
    [continue] ends the body. *)
Definition main_convert (jsonOutput csvOutput : bool) (fromCurrency : string)
    (amount : float64) (rates : ExchangeRateResponse)
    (updateTime : time.Time) (toCurrency : string) : M unit :=
  let toCurrency := strings.TrimSpace toCurrency in
  if String.eqb toCurrency EmptyString then ret tt
  else
    match convertCurrency amount fromCurrency toCurrency rates with
    | (_, Some err) =>
        if jsonOutput || csvOutput then
          outputError ("ошибка конвертации: " +:+ err) jsonOutput
        else
          emit (Colored Red "❌ Ошибка конвертации для %s: %v"
                  [AStr toCurrency; AStr err])
    | (result, None) =>
        let rate := default 0%float (Rates rates !! toCurrency) in
        saveToHistory fromCurrency toCurrency amount result rate updateTime >>
        if jsonOutput then
          outputJSON fromCurrency toCurrency amount result rate updateTime
        else if csvOutput then
          outputCSV fromCurrency toCurrency amount result rate updateTime
        else printResult amount fromCurrency result toCurrency rates
    end.

(** [for _, toCurrency := range toCurrencies]. *)
Fixpoint main_loop (jsonOutput csvOutput : bool) (fromCurrency : string)
    (amount : float64) (rates : ExchangeRateResponse)
    (updateTime : time.Time) (toCurrencies : list string) : M unit :=
  match toCurrencies with
  | [] => ret tt
  | toCurrency :: rest =>
      main_convert jsonOutput csvOutput fromCurrency amount rates updateTime
        toCurrency >>
      main_loop jsonOutput csvOutput fromCurrency amount rates updateTime rest
  end.

(** Lines 106-114 of [main]: the output format of the configuration counts
    only when no flag was given. *)
Definition main_format (cfg : Config) (jsonOutput csvOutput : bool)
    : bool * bool :=
  if negb jsonOutput && negb csvOutput then
    if String.eqb (OutputFormat cfg) "json" then (true, csvOutput)
    else if String.eqb (OutputFormat cfg) "csv" then (jsonOutput, true)
    else (jsonOutput, csvOutput)
  else (jsonOutput, csvOutput).

Definition main : M unit :=
  let* Args := get_Args in
  if (1 <? length Args)%nat && String.eqb (index Args 1) "--history" then
    showHistory
  else
    let* cfg := loadConfig in
    let '(args, jsonOutput, csvOutput) := stripFlags (drop 1 Args) in
    let '(jsonOutput, csvOutput) := main_format cfg jsonOutput csvOutput in
    (if negb jsonOutput && negb csvOutput then printHeader else ret tt) >>
    let* params := main_params cfg (index Args 0) args jsonOutput csvOutput in
    let '(fromCurrency, toCurrencyRaw, amount) := params in
    let toCurrencies := strings.Split toCurrencyRaw ","%char in
    (if negb jsonOutput && negb csvOutput then
       emit (Colored Cyan "🔄 Загрузка актуальных курсов валют..." [])
     else ret tt) >>
    let* r := getExchangeRates fromCurrency in
    match r with
    | Err err =>
        (if jsonOutput || csvOutput then
           outputError ("ошибка при получении курсов: " +:+ err) jsonOutput
         else
           emit (Colored Red "❌ Ошибка при получении курсов: %v" [AStr err])) >>
        os_Exit 1
    | Ok rates =>
        let updateTime := time.Unix (TimeLastUpdated rates) 0 in
        main_loop jsonOutput csvOutput fromCurrency amount rates updateTime
          toCurrencies
    end.

End Program.

(** ** The first version of the program

    [src/Go/main.go] holds an earlier [main], over the same [printHeader],
    [getInput], [getAmount], [getExchangeRates], [convertCurrency],
    [formatTimeAgo] and [printResult]: one target, no flags, no
    configuration and no history. *)

Module First.
Section Program.
Context {P : Platform}.

Definition main : M unit :=
  printHeader >>
  let* Args := get_Args in
  let* params :=
    if (length Args =? 4)%nat then
      let fromCurrency := ToUpper (index Args 1) in
      let toCurrency := ToUpper (index Args 2) in
      match strconv_ParseFloat (index Args 3) with
      | Err _ =>
          emit (Colored Red "❌ Ошибка: неверная сумма" []) >> os_Exit 1
      | Ok amount => ret (fromCurrency, toCurrency, amount)
      end
    else
      let* fromCurrency :=
        getInput "Введите исходную валюту (например, USD): " in
      let* toCurrency :=
        getInput "Введите целевую валюту (например, RUB): " in
      let* amount := getAmount "Введите сумму для конвертации: " in
      ret (fromCurrency, toCurrency, amount) in
  let '(fromCurrency, toCurrency, amount) := params in
  emit (Colored Cyan "🔄 Загрузка актуальных курсов валют..." []) >>
  let* r := getExchangeRates fromCurrency in
  match r with
  | Err err =>
      emit (Colored Red "❌ Ошибка при получении курсов: %v" [AStr err]) >>
      os_Exit 1
  | Ok rates =>
      match convertCurrency amount fromCurrency toCurrency rates with
      | (_, Some err) =>
          emit (Colored Red "❌ Ошибка конвертации: %v" [AStr err]) >>
          os_Exit 1
      | (result, None) =>
          printResult amount fromCurrency result toCurrency rates
      end
  end.

End Program.
End First.

(** ** Vocabulary of the properties *)

(** A zero, or a value with the sign bit set (NaN included). *)
Definition sf_neg_or_zero (x : spec_float) : bool :=
  match x with
  | S754_zero _ => true
  | S754_finite s _ _ => s
  | S754_infinity s => s
  | S754_nan => true
  end.

(** A zero, or a value with the sign bit clear (NaN included). *)
Definition sf_pos_or_zero (x : spec_float) : bool :=
  match x with
  | S754_zero _ => true
  | S754_finite s _ _ => negb s
  | S754_infinity s => negb s
  | S754_nan => true
  end.

(** The two locals of [formatTimeAgo]: the whole hours of a duration, and
    its whole minutes within the hour. *)
Definition whole_hours (d : time.Duration) : Z :=
  int_of_float64 (time.Hours d).

Definition whole_minutes (d : time.Duration) : Z :=
  Z.rem (int_of_float64 (time.Minutes d)) 60.

(** The result of rounding: mantissa [M] at exponent [E]. *)
Definition pack (M E : Z) : spec_float :=
  match M with
  | Z0 => S754_zero false
  | Zpos m =>
      if E <=? emax - prec then S754_finite false m E
      else S754_infinity false
  | Zneg _ => S754_nan
  end.

(** The two shifts and the rounded mantissa of [binary_round_aux]. *)
Definition shift1 (mx ex : Z) : Z :=
  Z.max 0 (fexp prec emax (Zdigits2 mx + ex) - ex).

Definition rounded (mx ex : Z) (lx : location) : Z :=
  round_nearest_even (mx / 2 ^ shift1 mx ex)
    (loc_of_shr_record (fst (shr_fexp prec emax mx ex lx))).

Definition shift2 (mx ex : Z) (lx : location) : Z :=
  Z.max 0
    (fexp prec emax (Zdigits2 (rounded mx ex lx) + (ex + shift1 mx ex))
     - (ex + shift1 mx ex)).

(** An argument that is neither of the two output flags. *)
Definition positional (a : string) : bool :=
  negb (is_json_flag a) && negb (is_csv_flag a).

(** [--history] as the first argument: the history command. *)
Definition history_command (w : World) : bool :=
  (1 <? length (os_Args w))%nat && String.eqb (index (os_Args w) 1) "--history".

(** The positional arguments that [main] goes on with. *)
Definition positionals (w : World) : list string :=
  List.filter positional (drop 1 (os_Args w)).

(** What [outputError] prints. *)
Definition error_event {P : Platform} (message : string) (asJSON : bool)
    : Event :=
  if asJSON then Println (json_MarshalIndent_Failure message)
  else Printf "error,%s\n" [AStr message].

(** A computation that only prints: it returns, and the world changes by
    the events appended to the trace. *)
Definition outputs (evs : list Event) : M unit :=
  fun w => Returned tt (with_trace w (trace w ++ evs)).

Definition header_events : list Event :=
  [ ColorSet ["FgGreen"; "Bold"];
    Println "╔════════════════════════════════════════╗";
    Println "║     КОНВЕРТЕР ВАЛЮТ (Go Version)       ║";
    Println "╚════════════════════════════════════════╝";
    ColorUnset;
    Println EmptyString ].

(** What [os.ReadFile] returns in a world. *)
Definition read_file (w : World) (name : string) : result string :=
  match fs w !! name with
  | Some f =>
      if f_readable f then Ok (f_data f) else Err "permission denied"
  | None => Err "no such file or directory"
  end.

(** The slice [saveToHistory] appends to: what the decoder left in
    [history], the nil slice when the file could not be read. *)
Definition existing_history {P : Platform} (w : World)
    : list ConversionRecord :=
  match read_file w historyFile with
  | Ok data => fst (json_Unmarshal_History data)
  | Err _ => []
  end.

(** The history file holds a JSON array that decodes to [h] without error:
    a well-formed history. *)
Definition history_is {P : Platform} (w : World) (h : list ConversionRecord)
    : Prop :=
  exists data : string,
    read_file w historyFile = Ok data
    /\ json_Unmarshal_History data = (h, None).



(** [s] is the result of upper-casing (lower-casing) some string. *)
Definition upper_cased {P : Platform} (s : string) : Prop :=
  exists raw : string, s = ToUpper raw.

Definition lower_cased {P : Platform} (s : string) : Prop :=
  exists raw : string, s = ToLower raw.

Definition is_lower_letter (b : ascii) : bool :=
  let n := nat_of_ascii b in (97 <=? n)%nat && (n <=? 122)%nat.

Definition is_upper_letter (b : ascii) : bool :=
  let n := nat_of_ascii b in (65 <=? n)%nat && (n <=? 90)%nat.

(** The events by which [showHistory] tells the user that the history file
    could not be read or decoded. *)
Definition reports_history_failure (e : Event) : Prop :=
  e = Colored Red "❌ История конвертаций пуста или файл не найден" []
  \/ exists err : string,
       e = Colored Red "❌ Ошибка чтения файла истории: %v" [AStr err].

(** What [showRecord] prints for a record. *)
Definition record_events (rec : ConversionRecord) : list Event :=
  [ Colored Cyan "📅 %s" [ATime "2006-01-02 15:04:05" (Timestamp rec)];
    Colored Green "   %.2f %s = %.2f %s"
      [AFloat (Amount rec); AStr (FromCurrency rec);
       AFloat (Result rec); AStr (ToCurrency rec)];
    Colored HiBlack "   Курс: 1 %s = %.4f %s"
      [AStr (FromCurrency rec); AFloat (ExchangeRate rec);
       AStr (ToCurrency rec)];
    Println EmptyString ].

(** What [showHistory] prints for a non-empty history: the banner, the
    records from the last to the first, and the count. *)
Definition history_listing (h : list ConversionRecord) : list Event :=
  [ ColorSet ["FgGreen"; "Bold"];
    Println "╔════════════════════════════════════════╗";
    Println "║      ИСТОРИЯ КОНВЕРТАЦИЙ               ║";
    Println "╚════════════════════════════════════════╝";
    ColorUnset;
    Println EmptyString ]
  ++ concat (List.map record_events (rev h))
  ++ [ ColorSet ["FgYellow"; "Bold"];
       Printf "Всего записей: %d\n" [AInt (Z.of_nat (length h))];
       ColorUnset ].

(** May the named file be replaced, or created. *)
Definition can_write (w : World) (name : string) : bool :=
  match fs w !! name with
  | Some f => f_writable f
  | None => dir_writable w
  end.

(** The world after [os.WriteFile] has replaced or created the file. *)
Definition written (w : World) (name data : string) : World :=
  with_trace
    (with_fs w
       (<[name := {| f_data := data;
                     f_readable := match fs w !! name with
                                   | Some f => f_readable f
                                   | None => true
                                   end;
                     f_writable := true |}]> (fs w)))
    (trace w ++ [WriteFile name data true]).

(** The world after [os.WriteFile] was refused. *)
Definition refused (w : World) (name data : string) : World :=
  with_trace w (trace w ++ [WriteFile name data false]).

(** The arguments of one call of [saveToHistory]. *)
Record Conversion : Set := {
  cv_from : string;
  cv_to : string;
  cv_amount : float64;
  cv_result : float64;
  cv_rate : float64;
  cv_updateTime : time.Time
}.

(** One call of [saveToHistory] per conversion, in order. *)
Fixpoint saveAll {P : Platform} (items : list Conversion) : M unit :=
  match items with
  | [] => ret tt
  | c :: rest =>
      saveToHistory (cv_from c) (cv_to c) (cv_amount c) (cv_result c)
        (cv_rate c) (cv_updateTime c) >>
      saveAll rest
  end.

(** The records those calls build when the clock stands at [tick]. *)
Fixpoint records_of (clock : nat -> time.Time) (tick : nat)
    (items : list Conversion) : list ConversionRecord :=
  match items with
  | [] => []
  | c :: rest =>
      newRecord (clock tick) (cv_from c) (cv_to c) (cv_amount c)
        (cv_result c) (cv_rate c) (cv_updateTime c)
      :: records_of clock (S tick) rest
  end.

(** The encoder accepts [h], and its text decodes back to [h]. *)
Definition round_trips {P : Platform} (h : list ConversionRecord) : Prop :=
  exists data : string,
    json_MarshalIndent_History h = Ok data
    /\ json_Unmarshal_History data = (h, None).

(** Every event a computation adds to the trace satisfies [Q], whether it
    returns or exits. *)
Definition emits {A : Type} (Q : Event -> Prop) (c : M A) : Prop :=
  forall w : World,
    exists evs : list Event,
      trace (final_world (c w)) = trace w ++ evs /\ Forall Q evs.

Definition no_write (e : Event) : Prop :=
  match e with
  | WriteFile _ _ _ => False
  | _ => True
  end.

(** A record of a conversion that succeeded: its target is one of the
    requested ones, the rate table has a rate for it, and the result is the
    amount multiplied by that rate. *)
Definition successful_record (rates : ExchangeRateResponse) (from : string)
    (amount : float64) (targets : list string) (rec : ConversionRecord)
    : Prop :=
  FromCurrency rec = from
  /\ Amount rec = amount
  /\ (exists t : string,
        In t targets /\ ToCurrency rec = strings.TrimSpace t)
  /\ Rates rates !! ToCurrency rec = Some (ExchangeRate rec)
  /\ Result rec = (amount * ExchangeRate rec)%float.

(** An event that, if it is a write, writes the history file with a history
    whose last record satisfies [good]. *)
Definition writes_only {P : Platform} (good : ConversionRecord -> Prop)
    (e : Event) : Prop :=
  match e with
  | WriteFile name data _ =>
      name = historyFile
      /\ exists (h : list ConversionRecord) (rec : ConversionRecord),
           json_MarshalIndent_History (h ++ [rec]) = Ok data /\ good rec
  | _ => True
  end.

(** What is printed for a target that the rate table does not have. *)
Definition conversion_error_event {P : Platform} (jsonOutput csvOutput : bool)
    (toCurrency : string) : Event :=
  let err := "валюта " +:+ toCurrency +:+ " не найдена" in
  if jsonOutput || csvOutput then
    error_event ("ошибка конвертации: " +:+ err) jsonOutput
  else
    Colored Red "❌ Ошибка конвертации для %s: %v"
      [AStr toCurrency; AStr err].

(** The four reasons for which the process exits with status 1. *)
Inductive ExitCause : Set :=
| BadAmount
| WrongArgumentCount
| RateFetchFailure
| JSONEncodeFailure.

(** The message printed just before the exit names the reason. *)
Inductive announces {P : Platform} : Event -> ExitCause -> Prop :=
| announces_amount_text :
    announces (Colored Red "❌ Ошибка: неверная сумма" []) BadAmount
| announces_amount (asJSON : bool) :
    announces (error_event "неверная сумма" asJSON) BadAmount
| announces_count_text (prog : string) :
    announces (Colored Red "   или: %s --history" [AStr prog])
      WrongArgumentCount
| announces_count (asJSON : bool) :
    announces (error_event "неверное количество аргументов" asJSON)
      WrongArgumentCount
| announces_fetch_text (err : string) :
    announces (Colored Red "❌ Ошибка при получении курсов: %v" [AStr err])
      RateFetchFailure
| announces_fetch (err : string) (asJSON : bool) :
    announces (error_event ("ошибка при получении курсов: " +:+ err) asJSON)
      RateFetchFailure
| announces_encode (err : string) :
    announces (error_event ("ошибка формирования JSON: " +:+ err) true)
      JSONEncodeFailure.

(** An outcome that, if it is an exit, has status 1 and one of the
    [allowed] reasons, announced by the last event. *)
Definition exit_announced {P : Platform} {A : Type}
    (allowed : ExitCause -> Prop) (o : Outcome A) : Prop :=
  match o with
  | Returned _ _ => True
  | Exited code w =>
      code = 1
      /\ exists (e : Event) (cause : ExitCause),
           last (trace w) = Some e /\ announces e cause /\ allowed cause
  end.

Definition any_cause (cause : ExitCause) : Prop := True.

Definition input_cause (cause : ExitCause) : Prop :=
  cause = BadAmount \/ cause = WrongArgumentCount.

(** A rate table that the decoder produced, without error, from some
    response body. *)
Definition decoded_rates {P : Platform} (rates : ExchangeRateResponse)
    : Prop :=
  exists body : string, json_Unmarshal_Rates body = (rates, None).

(** A record of a successful conversion against a decoded rate table. *)
Definition converted_record {P : Platform} (rec : ConversionRecord) : Prop :=
  exists (rates : ExchangeRateResponse) (targets : list string),
    decoded_rates rates
    /\ successful_record rates (FromCurrency rec) (Amount rec) targets rec.

(** A computation that never leaves through [os.Exit]. *)
Definition returns {A : Type} (c : M A) : Prop :=
  forall w : World, exists (a : A) (w' : World), c w = Returned a w'.

(** A computation whose every exit has status 1 and an announced reason
    among the [allowed] ones. *)
Definition exits_announced {P : Platform} {A : Type}
    (allowed : ExitCause -> Prop) (c : M A) : Prop :=
  forall w : World, exit_announced allowed (c w).

(** A target that the loop passes over: blank after trimming, or without a
    rate in the table. *)
Definition skipped (rates : ExchangeRateResponse) (t : string) : Prop :=
  strings.TrimSpace t = EmptyString
  \/ Rates rates !! strings.TrimSpace t = None.

(** ** Vocabulary of the further properties *)

(** An event that prints to the standard output. *)
Definition is_print (e : Event) : Prop :=
  match e with
  | HttpGet _ | WriteFile _ _ _ => False
  | _ => True
  end.

(** Output without colour and without a prompt: whole lines written by
    [fmt.Println] and [fmt.Printf]. *)
Definition plain_line (e : Event) : Prop :=
  match e with
  | Println _ | Printf _ _ => True
  | _ => False
  end.

(** What a run in a machine-readable mode may do: plain lines, the request
    for the rates and the history write. *)
Definition machine_readable (e : Event) : Prop :=
  match e with
  | Println _ | Printf _ _ | HttpGet _ | WriteFile _ _ _ => True
  | _ => False
  end.

Definition is_request (e : Event) : bool :=
  match e with
  | HttpGet _ => true
  | _ => false
  end.

(** The number of HTTP requests in a trace. *)
Definition requests (tr : list Event) : nat :=
  length (List.filter is_request tr).

(** A computation that sends at most [n] requests. *)
Definition sends {A : Type} (n : nat) (c : M A) : Prop :=
  forall w : World,
    (requests (trace (final_world (c w))) <= requests (trace w) + n)%nat.

(** A relation between the world before and the world after that a
    computation keeps, whether it returns or exits. *)
Definition steps {A : Type} (R : World -> World -> Prop) (c : M A) : Prop :=
  forall w : World, R w (final_world (c w)).

(** The file system is as it was. *)
Definition same_files (w w' : World) : Prop := fs w' = fs w.

(** Every file but the history file is as it was. *)
Definition other_files (w w' : World) : Prop :=
  forall name : string, name <> historyFile -> fs w' !! name = fs w !! name.

(** The world differs by printed events only. *)
Definition printed (w w' : World) : Prop :=
  exists evs : list Event,
    w' = with_trace w (trace w ++ evs) /\ Forall is_print evs.

(** No request was sent in between. *)
Definition same_requests (w w' : World) : Prop :=
  requests (trace w') = requests (trace w).

(** Nothing was read from the standard input. *)
Definition same_input (w w' : World) : Prop := stdin w' = stdin w.

(** A target that the loop of [main] does not pass over as blank. *)
Definition nonblank (t : string) : bool :=
  negb (String.eqb (strings.TrimSpace t) EmptyString).

(** A relation between worlds that holds across returning, sequencing and
    printing. *)
Class Frame (R : World -> World -> Prop) : Prop := {
  frame_refl : forall w, R w w;
  frame_trans : forall w1 w2 w3, R w1 w2 -> R w2 w3 -> R w1 w3;
  frame_print :
    forall w e, is_print e -> R w (with_trace w (trace w ++ [e]))
}.

(** It holds across a reading of the clock. *)
Class Ticks (R : World -> World -> Prop) : Prop :=
  frame_tick : forall w n, R w (with_ticks w n).

(** It holds across a line read from the standard input. *)
Class Reads (R : World -> World -> Prop) : Prop :=
  frame_stdin : forall w l, R w (with_stdin w l).

(** It holds across an HTTP request. *)
Class Requests (R : World -> World -> Prop) : Prop :=
  frame_request :
    forall w url, R w (with_trace w (trace w ++ [HttpGet url])).

(** It holds across a write of the history file, done or refused. *)
Class Writes (R : World -> World -> Prop) : Prop :=
  frame_write :
    forall w data,
      R w (written w historyFile data) /\ R w (refused w historyFile data).

(** An event that is not an HTTP request. *)
Definition no_request (e : Event) : Prop :=
  match e with
  | HttpGet _ => False
  | _ => True
  end.

(** What [printResult] prints, given the age of the rates as text: the rate
    line only when the table has the target. *)
Definition result_events (amount : float64) (from : string)
    (result : float64) (to : string) (rates : ExchangeRateResponse)
    (timeAgo : string) : list Event :=
  [ Println EmptyString;
    ColorSet ["FgYellow"; "Bold"];
    Println "════════════════ РЕЗУЛЬТАТ ════════════════";
    ColorUnset;
    Colored Green "%.2f %s = %.2f %s"
      [AFloat amount; AStr from; AFloat result; AStr to] ]
  ++ match Rates rates !! to with
     | Some rate =>
         [ Println EmptyString;
           Colored Cyan "Курс: 1 %s = %.4f %s"
             [AStr from; AFloat rate; AStr to] ]
     | None => []
     end
  ++ [ Println EmptyString;
       Colored HiBlack "Последнее обновление: %s (%s)"
         [ATime "2006-01-02 15:04:05"
            (time.Unix (TimeLastUpdated rates) 0);
          AStr timeAgo];
       Println EmptyString;
       ColorSet ["FgYellow"; "Bold"];
       Println "═══════════════════════════════════════════";
       ColorUnset ].

(** An outcome that is a return, or an exit with status 1. *)
Definition ends_0_or_1 {A : Type} (o : Outcome A) : Prop :=
  match o with
  | Returned _ _ => True
  | Exited code _ => code = 1
  end.

(** The arguments that [main] turns down before it asks for the rates: a
    number of positional arguments other than none and three, or a third
    one that is no number. *)
Definition rejected {P : Platform} (args : list string) : Prop :=
  (length args <> 0%nat /\ length args <> 3%nat)
  \/ exists (from to amount err : string),
       args = [from; to; amount] /\ strconv_ParseFloat amount = Err err.

(** The files and the network are as they were. *)
Definition same_outside (w w' : World) : Prop :=
  fs w' = fs w /\ network w' = network w.

(** No address answers with a rate table: every request fails, or its
    answer is not a 200 with a body that decodes without error. *)
Definition no_rates {P : Platform} (w : World) : Prop :=
  forall (url body : string) (rates : ExchangeRateResponse),
    network w url = Response 200 (Ok body) ->
    json_Unmarshal_Rates body <> (rates, None).

(** The trace has only grown. *)
Definition grows (w w' : World) : Prop :=
  exists evs : list Event, trace w' = trace w ++ evs.

(** ** A concrete platform and concrete worlds

    The statements below are tried on a platform that answers like Go's
    libraries on the handful of texts and values listed here.  Any other
    input gets an error; no statement below reaches one. *)

Module Demo.

(** The double quote, and a quoted JSON string. *)
Definition dq : string := String (ascii_of_nat 34) EmptyString.
Definition q (s : string) : string := dq +:+ s +:+ dq.

Definition float_eqb (x y : float64) : bool := PrimFloat.Leibniz.eqb x y.

Definition record_eqb (a b : ConversionRecord) : bool :=
  (Timestamp a =? Timestamp b)
  && String.eqb (FromCurrency a) (FromCurrency b)
  && String.eqb (ToCurrency a) (ToCurrency b)
  && float_eqb (Amount a) (Amount b)
  && float_eqb (Result a) (Result b)
  && float_eqb (ExchangeRate a) (ExchangeRate b)
  && (RateUpdateTime a =? RateUpdateTime b).

Fixpoint history_eqb (h k : list ConversionRecord) : bool :=
  match h, k with
  | [], [] => true
  | a :: h', b :: k' => record_eqb a b && history_eqb h' k'
  | _, _ => false
  end.

Definition is_finite (f : float64) : bool :=
  match Prim2SF f with
  | S754_zero _ | S754_finite _ _ _ => true
  | S754_infinity _ | S754_nan => false
  end.

Definition record_finite (r : ConversionRecord) : bool :=
  is_finite (Amount r) && is_finite (Result r) && is_finite (ExchangeRate r).

(** [config.json] texts. *)
Definition config_partial : string :=
  "{" +:+ q "default_from" +:+ ":" +:+ q "eur" +:+ ","
      +:+ q "default_to" +:+ ":5}".
Definition config_good : string :=
  "{" +:+ q "default_from" +:+ ":" +:+ q "eur" +:+ ","
      +:+ q "default_to" +:+ ":" +:+ q "usd" +:+ ","
      +:+ q "output_format" +:+ ":" +:+ q "JSON" +:+ "}".
Definition not_json : string := "not json".

(** The body the rate service answers with. *)
Definition rates_body : string :=
  "{" +:+ q "base" +:+ ":" +:+ q "USD" +:+ "," +:+ q "date" +:+ ":"
      +:+ q "2023-11-14" +:+ "," +:+ q "rates" +:+ ":{" +:+ q "RUB"
      +:+ ":90," +:+ q "EUR" +:+ ":0.9}," +:+ q "time_last_updated"
      +:+ ":1700000000}".

Definition rates : ExchangeRateResponse :=
  {| Base := "USD"; Date := "2023-11-14";
     Rates := <["RUB" := 90%float]>
                (<["EUR" := 0x1.ccccccccccccdp-1%float]> ∅);
     TimeLastUpdated := 1700000000 |}.

Definition updateTime : time.Time := time.Unix 1700000000 0.

(** The clock starts at 2023-11-14T22:15:00Z and advances one second per
    reading. *)
Definition clock_at (k : nat) : time.Time :=
  time.Unix (1700000100 + Z.of_nat k) 0.

Definition rec_RUB : ConversionRecord :=
  newRecord (clock_at 0) "USD" "RUB" 100%float 9000%float 90%float updateTime.
Definition rec_EUR : ConversionRecord :=
  newRecord (clock_at 2) "USD" "EUR" 100%float 90%float
    0x1.ccccccccccccdp-1%float updateTime.
(** The EUR record when nothing reads the clock between the two appends. *)
Definition rec_EUR1 : ConversionRecord :=
  newRecord (clock_at 1) "USD" "EUR" 100%float 90%float
    0x1.ccccccccccccdp-1%float updateTime.
Definition rec_old : ConversionRecord :=
  newRecord (time.Unix 1600000000 0) "EUR" "USD" 2%float 3%float
    0x1.8p+0%float (time.Unix 1599990000 0).
(** What the decoder leaves of a record whose amount is a JSON string. *)
Definition zeroTime : time.Time := time.Unix (-62135596800) 0.
Definition rec_torn : ConversionRecord :=
  newRecord zeroTime "USD" EmptyString 0%float 0%float 0%float zeroTime.

Definition text_of (now from to amount result rate : string) : string :=
  "{" +:+ q "timestamp" +:+ ":" +:+ q now +:+ ","
      +:+ q "from_currency" +:+ ":" +:+ q from +:+ ","
      +:+ q "to_currency" +:+ ":" +:+ q to +:+ ","
      +:+ q "amount" +:+ ":" +:+ amount +:+ ","
      +:+ q "result" +:+ ":" +:+ result +:+ ","
      +:+ q "exchange_rate" +:+ ":" +:+ rate +:+ ","
      +:+ q "rate_update_time" +:+ ":" +:+ q "2023-11-14T22:13:20Z" +:+ "}".

Definition text_RUB : string :=
  text_of "2023-11-14T22:15:00Z" "USD" "RUB" "100" "9000" "90".
Definition text_EUR : string :=
  text_of "2023-11-14T22:15:02Z" "USD" "EUR" "100" "90" "0.9".
Definition text_EUR1 : string :=
  text_of "2023-11-14T22:15:01Z" "USD" "EUR" "100" "90" "0.9".
Definition text_zero : string :=
  "{" +:+ q "timestamp" +:+ ":" +:+ q "0001-01-01T00:00:00Z" +:+ ","
      +:+ q "from_currency" +:+ ":" +:+ q "USD" +:+ ","
      +:+ q "to_currency" +:+ ":" +:+ q EmptyString +:+ ","
      +:+ q "amount" +:+ ":0," +:+ q "result" +:+ ":0,"
      +:+ q "exchange_rate" +:+ ":0,"
      +:+ q "rate_update_time" +:+ ":" +:+ q "0001-01-01T00:00:00Z" +:+ "}".
Definition text_old : string :=
  "{" +:+ q "timestamp" +:+ ":" +:+ q "2020-09-13T12:26:40Z" +:+ ","
      +:+ q "from_currency" +:+ ":" +:+ q "EUR" +:+ ","
      +:+ q "to_currency" +:+ ":" +:+ q "USD" +:+ ","
      +:+ q "amount" +:+ ":2," +:+ q "result" +:+ ":3,"
      +:+ q "exchange_rate" +:+ ":1.5,"
      +:+ q "rate_update_time" +:+ ":" +:+ q "2020-09-13T09:40:00Z" +:+ "}".
Definition text_torn : string :=
  "[{" +:+ q "from_currency" +:+ ":" +:+ q "USD" +:+ ","
       +:+ q "amount" +:+ ":" +:+ q "x" +:+ "}]".

(** The histories the demo encoder knows, with their JSON text (up to
    white space). *)
Definition known_histories : list (list ConversionRecord * string) :=
  [ ([], "[]");
    ([rec_RUB], "[" +:+ text_RUB +:+ "]");
    ([rec_RUB; rec_EUR], "[" +:+ text_RUB +:+ "," +:+ text_EUR +:+ "]");
    ([rec_old], "[" +:+ text_old +:+ "]");
    ([rec_old; rec_RUB], "[" +:+ text_old +:+ "," +:+ text_RUB +:+ "]");
    ([rec_old; rec_RUB; rec_EUR],
       "[" +:+ text_old +:+ "," +:+ text_RUB +:+ "," +:+ text_EUR +:+ "]");
    ([rec_RUB; rec_EUR1], "[" +:+ text_RUB +:+ "," +:+ text_EUR1 +:+ "]");
    ([rec_old; rec_RUB; rec_EUR1],
       "[" +:+ text_old +:+ "," +:+ text_RUB +:+ "," +:+ text_EUR1 +:+ "]");
    ([rec_torn; rec_RUB], "[" +:+ text_zero +:+ "," +:+ text_RUB +:+ "]") ].

Fixpoint encode_known (table : list (list ConversionRecord * string))
    (h : list ConversionRecord) : result string :=
  match table with
  | [] => Err "demo: history not in the table"
  | (k, text) :: table' =>
      if history_eqb h k then Ok text else encode_known table' h
  end.

Fixpoint decode_known (table : list (list ConversionRecord * string))
    (data : string) : list ConversionRecord * error :=
  match table with
  | [] => ([], Some "invalid character 'o' in literal null (expecting 'u')")
  | (k, text) :: table' =>
      if String.eqb data text then (k, None) else decode_known table' data
  end.

Definition platform : Platform := {|
  unicode_ToUpper := fun s => s;
  unicode_ToLower := fun s => s;
  strconv_ParseFloat := fun s =>
    if String.eqb s "100" then Ok 100%float
    else if String.eqb s "10" then Ok 10%float
    else if String.eqb s "inf" then Ok infinity
    else Err "invalid syntax";
  json_Unmarshal_Config := fun data cfg =>
    if String.eqb data config_partial then
      ({| DefaultFrom := "eur"; DefaultTo := DefaultTo cfg;
          OutputFormat := OutputFormat cfg |},
       Some "json: cannot unmarshal number into Go struct field Config.default_to of type string")
    else if String.eqb data config_good then
      ({| DefaultFrom := "eur"; DefaultTo := "usd"; OutputFormat := "JSON" |},
       None)
    else (cfg, Some "invalid character 'o' in literal null (expecting 'u')");
  json_Unmarshal_Rates := fun body =>
    if String.eqb body rates_body then (rates, None)
    else (zeroRates, Some "unexpected end of JSON input");
  json_Unmarshal_History := fun data =>
    if String.eqb data text_torn then
      ([rec_torn],
       Some "json: cannot unmarshal string into Go struct field ConversionRecord.amount of type float64")
    else decode_known known_histories data;
  json_MarshalIndent_History := fun h =>
    if forallb record_finite h then encode_known known_histories h
    else Err "json: unsupported value: +Inf";
  json_MarshalIndent_Output := fun o =>
    if is_finite (jo_Amount o) && is_finite (jo_Result o)
       && is_finite (jo_ExchangeRate o)
    then Ok ("{" +:+ q "success" +:+ ":true," +:+ q "to_currency" +:+ ":"
                 +:+ q (jo_ToCurrency o) +:+ "}")
    else Err "json: unsupported value: +Inf";
  json_MarshalIndent_Failure := fun message =>
    "{" +:+ q "error" +:+ ":" +:+ q message +:+ ","
        +:+ q "success" +:+ ":false}"
|}.

Definition demo_network (url : string) : HttpResult :=
  if String.eqb url (apiURL +:+ "USD") then Response 200 (Ok rates_body)
  else if String.eqb url (apiURL +:+ "ZZZ") then Response 404 (Ok "not found")
  else TransportError "dial tcp: lookup failed".

Definition file (data : string) : File :=
  {| f_data := data; f_readable := true; f_writable := true |}.

Definition read_only (data : string) : File :=
  {| f_data := data; f_readable := true; f_writable := false |}.

(** A world with the given arguments and files, nothing typed on standard
    input. *)
Definition world (args : list string) (files : gmap string File) : World :=
  {| program := "converter"; arguments := args; fs := files;
     dir_writable := true;
     stdin := []; clock := clock_at; ticks := 0; network := demo_network;
     trace := [] |}.

(** The same without a network: every request fails. *)
Definition offline (args : list string) (files : gmap string File) : World :=
  {| program := "converter"; arguments := args; fs := files;
     dir_writable := true;
     stdin := []; clock := clock_at; ticks := 0;
     network := fun _ => TransportError "dial tcp: lookup failed";
     trace := [] |}.

(** The two conversions of [converter USD RUB,EUR 100], and one of an
    infinite amount. *)
Definition conv_RUB : Conversion :=
  {| cv_from := "USD"; cv_to := "RUB"; cv_amount := 100%float;
     cv_result := 9000%float; cv_rate := 90%float;
     cv_updateTime := updateTime |}.
Definition conv_EUR : Conversion :=
  {| cv_from := "USD"; cv_to := "EUR"; cv_amount := 100%float;
     cv_result := 90%float; cv_rate := 0x1.ccccccccccccdp-1%float;
     cv_updateTime := updateTime |}.
Definition conv_inf : Conversion :=
  {| cv_from := "USD"; cv_to := "RUB"; cv_amount := infinity;
     cv_result := infinity; cv_rate := 90%float;
     cv_updateTime := updateTime |}.

Definition history_old : string := "[" +:+ text_old +:+ "]".
Definition history_old_RUB : string :=
  "[" +:+ text_old +:+ "," +:+ text_RUB +:+ "]".
Definition history_old_RUB_EUR1 : string :=
  "[" +:+ text_old +:+ "," +:+ text_RUB +:+ "," +:+ text_EUR1 +:+ "]".
Definition history_RUB : string := "[" +:+ text_RUB +:+ "]".
Definition history_torn_RUB : string :=
  "[" +:+ text_zero +:+ "," +:+ text_RUB +:+ "]".

End Demo.

(** * Properties *)

(** ** The converter *)

(** C1: for a target present in the rate table, [convertCurrency] returns
    the amount multiplied by the stored rate and a nil error.  The function
    takes no world and returns none: it has no effect on the environment. *)
Theorem convertCurrency_present :
  forall (amount : float64) (from to : string) (rates : ExchangeRateResponse)
         (rate : float64),
    Rates rates !! to = Some rate ->
    convertCurrency amount from to rates = ((amount * rate)%float, None).
Proof.
  intros amount from to rates rate Hrate.
  unfold convertCurrency. now rewrite Hrate.
Qed.

Lemma convertCurrency_present_witness :
  convertCurrency 100%float "USD" "RUB" Demo.rates = (9000%float, None).
Proof.
  apply (convertCurrency_present 100%float "USD" "RUB" Demo.rates 90%float).
  vm_compute. reflexivity.
Defined.

(** C2: for a target absent from the rate table, [convertCurrency] returns
    an error whose message contains the missing code; the error is never
    nil, so the zero it returns beside it is never a successful result. *)
Theorem convertCurrency_absent :
  forall (amount : float64) (from to : string) (rates : ExchangeRateResponse),
    Rates rates !! to = None ->
    convertCurrency amount from to rates
      = (0%float, Some ("валюта " +:+ to +:+ " не найдена"))
    /\ snd (convertCurrency amount from to rates) <> None
    /\ exists before after : string,
         snd (convertCurrency amount from to rates)
           = Some (before +:+ to +:+ after).
Proof.
  intros amount from to rates Hnone.
  unfold convertCurrency. rewrite Hnone. cbn [snd].
  split; [reflexivity | split; [discriminate | ]].
  now exists "валюта ", " не найдена".
Qed.

Lemma convertCurrency_absent_witness :
  convertCurrency 10%float "USD" "XXX" Demo.rates
    = (0%float, Some "валюта XXX не найдена").
Proof.
  apply (convertCurrency_absent 10%float "USD" "XXX" Demo.rates).
  vm_compute. reflexivity.
Defined.

(** ** Signs of binary64 results

    [Hours] and [Minutes] go through binary64 arithmetic.  What the
    formatter needs of a negative duration is only the sign of the result,
    which the rounding functions keep. *)

Lemma binary_round_aux_sign (s : bool) (m e : Z) (l : location) :
  sf_neg_or_zero (binary_round_aux prec emax s m e l) = s
  \/ binary_round_aux prec emax s m e l = S754_zero s
  \/ binary_round_aux prec emax s m e l = S754_nan.
Proof.
  unfold binary_round_aux.
  destruct (shr_fexp prec emax m e l) as [mrs' e'].
  destruct (shr_fexp prec emax _ e' loc_Exact) as [mrs'' e''].
  destruct (shr_m mrs'') as [ | p | p ]; [ auto | | auto ].
  destruct (e'' <=? emax - prec); left; reflexivity.
Qed.

Lemma binary_round_aux_neg (m e : Z) (l : location) :
  sf_neg_or_zero (binary_round_aux prec emax true m e l) = true.
Proof.
  destruct (binary_round_aux_sign true m e l) as [H | [H | H]];
    [ exact H | now rewrite H | now rewrite H ].
Qed.

Lemma binary_round_aux_pos (m e : Z) (l : location) :
  sf_pos_or_zero (binary_round_aux prec emax false m e l) = true.
Proof.
  destruct (binary_round_aux_sign false m e l) as [H | [H | H]];
    [ | now rewrite H | now rewrite H ].
  destruct (binary_round_aux prec emax false m e l) as [ | s0 | | s0 m0 e0 ];
    cbn in *; try reflexivity; now rewrite H.
Qed.

Lemma binary_normalize_nonneg (m e : Z) :
  0 <= m -> sf_pos_or_zero (binary_normalize prec emax m e false) = true.
Proof.
  intros Hm. destruct m as [ | p | p ]; [ reflexivity | | lia ].
  cbn [binary_normalize]. unfold binary_round.
  destruct (shl_align _ _ _) as [mz ez]. apply binary_round_aux_pos.
Qed.

Lemma SFopp_pos_or_zero (x : spec_float) :
  sf_pos_or_zero x = true -> sf_neg_or_zero (SFopp x) = true.
Proof. destruct x as [ [ | ] | [ | ] | | [ | ] m e ]; cbn; congruence. Qed.

Lemma SFadd_neg_or_zero (x y : spec_float) :
  sf_neg_or_zero x = true -> sf_neg_or_zero y = true ->
  sf_neg_or_zero (SFadd prec emax x y) = true.
Proof.
  destruct x as [ [ | ] | [ | ] | | [ | ] mx ex ];
    destruct y as [ [ | ] | [ | ] | | [ | ] my ey ];
    cbn; try congruence; intros _ _.
  destruct (shl_align mx ex _) as [ax ?], (shl_align my ey _) as [ay ?].
  cbn [fst]. change (- Z.pos ax + - Z.pos ay) with (Z.neg (ax + ay)).
  cbn [binary_normalize]. unfold binary_round.
  destruct (shl_align _ _ _) as [mz ez]. apply binary_round_aux_neg.
Qed.

Lemma SFdiv_neg_or_zero (x : spec_float) (m : positive) (e : Z) :
  sf_neg_or_zero x = true ->
  sf_neg_or_zero (SFdiv prec emax x (S754_finite false m e)) = true.
Proof.
  destruct x as [ [ | ] | [ | ] | | [ | ] mx ex ];
    cbn; try congruence; intros _.
  destruct (SFdiv_core_binary _ _ _ _ _ _) as [[mz ez] lz].
  apply binary_round_aux_neg.
Qed.

Lemma float64_of_int_nonpos (n : Z) :
  n <= 0 -> sf_neg_or_zero (Prim2SF (float64_of_int n)) = true.
Proof.
  intros Hn. unfold float64_of_int.
  destruct (n =? minInt64); [ reflexivity | ].
  destruct (Z.ltb_spec n 0) as [Hneg | Hzero].
  - rewrite opp_spec. apply SFopp_pos_or_zero.
    rewrite of_uint63_spec. apply binary_normalize_nonneg.
    apply Uint63.to_Z_bounded.
  - assert (n = 0) as -> by lia. reflexivity.
Qed.

Lemma int_of_float64_nonpos (f : float64) :
  sf_neg_or_zero (Prim2SF f) = true -> int_of_float64 f <= 0.
Proof.
  unfold int_of_float64.
  destruct (Prim2SF f) as [ s | s | | s m e ]; cbn [sf_neg_or_zero];
    try (intros _; unfold minInt64; lia).
  intros ->.
  set (v := if 0 <=? e then Z.pos m * 2 ^ e else Z.pos m / 2 ^ (- e)).
  assert (0 <= v) as Hv.
  { subst v. destruct (Z.leb_spec 0 e) as [He | He].
    - apply Z.mul_nonneg_nonneg; [ lia | apply Z.pow_nonneg; lia ].
    - apply Z.div_pos; [ lia | ].
      apply Z.pow_pos_nonneg; lia. }
  cbn zeta.
  destruct ((minInt64 <=? - v) && (- v <=? maxInt64));
    [ lia | unfold minInt64; lia ].
Qed.

(** ** The time-ago formatter *)

Lemma Hours_nonpos (d : time.Duration) : d <= 0 -> whole_hours d <= 0.
Proof.
  intros Hd. unfold whole_hours, time.Hours.
  apply int_of_float64_nonpos. rewrite add_spec, div_spec.
  apply SFadd_neg_or_zero.
  - apply float64_of_int_nonpos.
    rewrite <- (Z.opp_involutive d), Z.quot_opp_l by discriminate.
    assert (0 <= Z.quot (- d) time.Hour)
      by (apply Z.quot_pos; [ lia | reflexivity ]).
    lia.
  - apply SFdiv_neg_or_zero, float64_of_int_nonpos.
    rewrite <- (Z.opp_involutive d), Z.rem_opp_l by discriminate.
    assert (0 <= Z.rem (- d) time.Hour)
      by (apply Z.rem_nonneg; [ discriminate | lia ]).
    lia.
Qed.

Lemma Minutes_nonpos (d : time.Duration) : d <= 0 -> whole_minutes d <= 0.
Proof.
  intros Hd. unfold whole_minutes, time.Minutes.
  assert (int_of_float64
            (float64_of_int (Z.quot d time.Minute)
             + float64_of_int (Z.rem d time.Minute) / 60000000000)%float <= 0)
    as Hm.
  { apply int_of_float64_nonpos. rewrite add_spec, div_spec.
    apply SFadd_neg_or_zero.
    - apply float64_of_int_nonpos.
      rewrite <- (Z.opp_involutive d), Z.quot_opp_l by discriminate.
      assert (0 <= Z.quot (- d) time.Minute)
        by (apply Z.quot_pos; [ lia | reflexivity ]).
      lia.
    - apply SFdiv_neg_or_zero, float64_of_int_nonpos.
      rewrite <- (Z.opp_involutive d), Z.rem_opp_l by discriminate.
      assert (0 <= Z.rem (- d) time.Minute)
        by (apply Z.rem_nonneg; [ discriminate | lia ]).
      lia. }
  revert Hm. generalize (int_of_float64
            (float64_of_int (Z.quot d time.Minute)
             + float64_of_int (Z.rem d time.Minute) / 60000000000)%float).
  intros n Hn.
  rewrite <- (Z.opp_involutive n), Z.rem_opp_l by discriminate.
  assert (0 <= Z.rem (- n) 60) by (apply Z.rem_nonneg; [ discriminate | lia ]).
  lia.
Qed.

(** The formatter in terms of its two locals. *)
Lemma formatTimeAgo_unfold (d : time.Duration) :
  formatTimeAgo d =
    let hours := whole_hours d in
    let minutes := whole_minutes d in
    if 24 <? hours then
      if Z.quot hours 24 =? 1 then "1 день назад"
      else fmt_d (Z.quot hours 24) +:+ " дня/дней назад"
    else if 0 <? hours then
      if hours =? 1 then "1 час назад"
      else if hours <? 5 then fmt_d hours +:+ " часа назад"
      else fmt_d hours +:+ " часов назад"
    else if 0 <? minutes then
      if minutes =? 1 then "1 минуту назад"
      else if minutes <? 5 then fmt_d minutes +:+ " минуты назад"
      else fmt_d minutes +:+ " минут назад"
    else "только что".
Proof. reflexivity. Qed.

Lemma formatTimeAgo_just_now (d : time.Duration) :
  whole_hours d <= 0 -> whole_minutes d <= 0 ->
  formatTimeAgo d = "только что".
Proof.
  intros Hh Hm. rewrite formatTimeAgo_unfold. cbn zeta.
  destruct (Z.ltb_spec 24 (whole_hours d)); [ lia | ].
  destruct (Z.ltb_spec 0 (whole_hours d)); [ lia | ].
  destruct (Z.ltb_spec 0 (whole_minutes d)); [ lia | reflexivity ].
Qed.

(** C10: for every negative duration the formatter returns the just-now
    string, which carries no count and no minus sign. *)
Theorem formatTimeAgo_negative :
  forall d : time.Duration,
    d < 0 ->
    formatTimeAgo d = "только что"
    /\ String.index 0 "-" (formatTimeAgo d) = None.
Proof.
  intros d Hd.
  assert (formatTimeAgo d = "только что") as ->.
  { apply formatTimeAgo_just_now;
      [ apply Hours_nonpos | apply Minutes_nonpos ]; lia. }
  split; reflexivity.
Qed.

Lemma formatTimeAgo_negative_witness :
  formatTimeAgo (- (3 * time.Hour)) = "только что"
  /\ String.index 0 "-" (formatTimeAgo (- (3 * time.Hour))) = None.
Proof.
  apply (formatTimeAgo_negative (- (3 * time.Hour))).
  vm_compute. reflexivity.
Defined.

(** ** Rounding in [Hours] and [Minutes]

    What [float64(q) + float64(r) / c] rounds to, from the specification of
    the binary64 operations. *)

Lemma digits2_pos_bounds (p : positive) :
  2 ^ (Z.pos (digits2_pos p) - 1) <= Z.pos p < 2 ^ Z.pos (digits2_pos p).
Proof.
  induction p as [ p IH | p IH | ]; cbn [digits2_pos].
  - rewrite Pos2Z.inj_succ. change (Z.pos p~1) with (2 * Z.pos p + 1).
    replace (Z.succ (Z.pos (digits2_pos p)) - 1)
      with (Z.succ (Z.pos (digits2_pos p) - 1)) by lia.
    rewrite !Z.pow_succ_r; lia.
  - rewrite Pos2Z.inj_succ. change (Z.pos p~0) with (2 * Z.pos p).
    replace (Z.succ (Z.pos (digits2_pos p)) - 1)
      with (Z.succ (Z.pos (digits2_pos p) - 1)) by lia.
    rewrite !Z.pow_succ_r; lia.
  - cbn. lia.
Qed.

Lemma Zdigits2_bounds (m : Z) :
  0 < m -> 2 ^ (Zdigits2 m - 1) <= m < 2 ^ Zdigits2 m.
Proof.
  destruct m as [ | p | p ]; [ lia | | lia ].
  intros _. apply digits2_pos_bounds.
Qed.

Lemma Zdigits2_pos (m : Z) : 0 < m -> 0 < Zdigits2 m.
Proof. destruct m; cbn; lia. Qed.

Lemma Zdigits2_le (m j : Z) : 0 < m -> m < 2 ^ j -> Zdigits2 m <= j.
Proof.
  intros Hm Hlt.
  destruct (Z.le_gt_cases (Zdigits2 m) j) as [ | Hgt ]; [ assumption | ].
  pose proof (Zdigits2_bounds m Hm) as [Hlow _].
  assert (0 <= j) as Hj.
  { destruct (Z.le_gt_cases 0 j); [ assumption | ].
    rewrite Z.pow_neg_r in Hlt by lia. lia. }
  assert (2 ^ j <= 2 ^ (Zdigits2 m - 1)) by (apply Z.pow_le_mono_r; lia).
  lia.
Qed.

Lemma Zdigits2_ge (m j : Z) : 0 <= j -> 2 ^ j <= m -> j < Zdigits2 m.
Proof.
  intros Hj Hle.
  assert (0 < m) as Hm by (pose proof (Z.pow_pos_nonneg 2 j); lia).
  pose proof (Zdigits2_bounds m Hm) as [_ Hup].
  apply (Z.pow_lt_mono_r_iff 2); [ lia | | lia ].
  pose proof (Zdigits2_pos m Hm). lia.
Qed.

Lemma shr_1_m (mrs : shr_record) :
  0 <= shr_m mrs -> shr_m (shr_1 mrs) = shr_m mrs / 2.
Proof.
  destruct mrs as [m r s]. cbn [shr_m].
  destruct m as [ | [ p | p | ] | p ]; intros Hm; try lia; cbn [shr_1 shr_m].
  - reflexivity.
  - apply (Z.div_unique _ _ _ 1); lia.
  - apply (Z.div_unique _ _ _ 0); lia.
  - reflexivity.
Qed.

Lemma iter_pos_shr_1 (p : positive) :
  forall mrs : shr_record,
    0 <= shr_m mrs ->
    shr_m (SpecFloat.iter_pos shr_1 p mrs) = shr_m mrs / 2 ^ Z.pos p.
Proof.
  assert (forall mrs, 0 <= shr_m mrs -> 0 <= shr_m mrs / 2) as Hhalf
    by (intros; apply Z.div_pos; lia).
  induction p as [ p IH | p IH | ]; intros mrs Hm; cbn [SpecFloat.iter_pos].
  - assert (0 <= shr_m (shr_1 mrs)) as H1 by (rewrite shr_1_m; auto).
    assert (0 <= shr_m (SpecFloat.iter_pos shr_1 p (shr_1 mrs))) as H2.
    { rewrite IH by exact H1. apply Z.div_pos; [ exact H1 | ].
      apply Z.pow_pos_nonneg; lia. }
    rewrite IH, IH, shr_1_m by assumption.
    rewrite !Z.div_div by (try apply Z.pow_pos_nonneg; lia).
    f_equal. change (Z.pos p~1) with (2 * Z.pos p + 1).
    replace (2 * Z.pos p + 1) with (1 + Z.pos p + Z.pos p) by lia.
    rewrite !Z.pow_add_r by lia. lia.
  - assert (0 <= shr_m (SpecFloat.iter_pos shr_1 p mrs)) as H2.
    { rewrite IH by exact Hm. apply Z.div_pos; [ exact Hm | ].
      apply Z.pow_pos_nonneg; lia. }
    rewrite IH, IH by assumption.
    rewrite !Z.div_div by (try apply Z.pow_pos_nonneg; lia).
    f_equal. change (Z.pos p~0) with (2 * Z.pos p).
    replace (2 * Z.pos p) with (Z.pos p + Z.pos p) by lia.
    rewrite !Z.pow_add_r by lia. lia.
  - now rewrite shr_1_m.
Qed.

Lemma shr_spec (mrs : shr_record) (e n : Z) :
  0 <= shr_m mrs ->
  shr_m (fst (shr mrs e n)) = shr_m mrs / 2 ^ Z.max 0 n
  /\ snd (shr mrs e n) = e + Z.max 0 n.
Proof.
  intros Hm. destruct n as [ | p | p ]; cbn [shr fst snd].
  - rewrite Z.div_1_r. split; [ reflexivity | lia ].
  - rewrite iter_pos_shr_1 by exact Hm.
    replace (Z.max 0 (Z.pos p)) with (Z.pos p) by lia. auto.
  - replace (Z.max 0 (Z.neg p)) with 0 by lia.
    rewrite Z.div_1_r. split; [ reflexivity | lia ].
Qed.

Lemma shr_m_of_loc (m : Z) (l : location) :
  shr_m (shr_record_of_loc m l) = m.
Proof. destruct l as [ | [ | | ] ]; reflexivity. Qed.

Lemma round_nearest_even_bounds (m : Z) (l : location) :
  m <= round_nearest_even m l <= m + 1.
Proof.
  destruct l as [ | [ | | ] ]; cbn [round_nearest_even]; try lia.
  destruct (Z.even m); lia.
Qed.

Lemma binary_round_aux_shape (mx ex : Z) (lx : location) :
  0 <= mx ->
  binary_round_aux prec emax false mx ex lx
    = pack (rounded mx ex lx / 2 ^ shift2 mx ex lx)
        (ex + shift1 mx ex + shift2 mx ex lx).
Proof.
  intros Hmx. unfold binary_round_aux.
  assert (0 <= shr_m (shr_record_of_loc mx lx)) as Hrec
    by now rewrite shr_m_of_loc.
  pose proof (shr_spec (shr_record_of_loc mx lx) ex
                (fexp prec emax (Zdigits2 mx + ex) - ex) Hrec) as [Hm1 He1].
  rewrite shr_m_of_loc in Hm1.
  fold (shr_fexp prec emax mx ex lx) in Hm1, He1.
  fold (shift1 mx ex) in Hm1, He1.
  destruct (shr_fexp prec emax mx ex lx) as [mrs' e'] eqn:Hfirst.
  cbn [fst snd] in Hm1, He1.
  assert (round_nearest_even (shr_m mrs') (loc_of_shr_record mrs')
          = rounded mx ex lx) as Hr.
  { unfold rounded. now rewrite Hfirst, Hm1. }
  rewrite Hr. subst e'.
  assert (0 <= rounded mx ex lx) as Hr0.
  { unfold rounded.
    pose proof (round_nearest_even_bounds (mx / 2 ^ shift1 mx ex)
                  (loc_of_shr_record (fst (shr_fexp prec emax mx ex lx)))).
    assert (0 <= mx / 2 ^ shift1 mx ex).
    { apply Z.div_pos; [ lia | ]. apply Z.pow_pos_nonneg; [ lia | ].
      unfold shift1. lia. }
    lia. }
  assert (0 <= shr_m (shr_record_of_loc (rounded mx ex lx) loc_Exact))
    as Hrec2 by exact Hr0.
  pose proof (shr_spec (shr_record_of_loc (rounded mx ex lx) loc_Exact)
                (ex + shift1 mx ex)
                (fexp prec emax
                   (Zdigits2 (rounded mx ex lx) + (ex + shift1 mx ex))
                 - (ex + shift1 mx ex)) Hrec2) as [Hm2 He2].
  fold (shr_fexp prec emax (rounded mx ex lx) (ex + shift1 mx ex) loc_Exact)
    in Hm2, He2.
  fold (shift2 mx ex lx) in Hm2, He2.
  destruct (shr_fexp prec emax (rounded mx ex lx) (ex + shift1 mx ex)
              loc_Exact) as [mrs'' e''].
  cbn [fst snd shr_m shr_record_of_loc] in Hm2, He2.
  rewrite Hm2, He2. reflexivity.
Qed.

Lemma shift1_nonneg (mx ex : Z) : 0 <= shift1 mx ex.
Proof. unfold shift1. lia. Qed.

Lemma shift2_nonneg (mx ex : Z) (lx : location) : 0 <= shift2 mx ex lx.
Proof. unfold shift2. lia. Qed.

Lemma rounded_bounds (mx ex : Z) (lx : location) :
  mx / 2 ^ shift1 mx ex <= rounded mx ex lx <= mx / 2 ^ shift1 mx ex + 1.
Proof. apply round_nearest_even_bounds. Qed.

(** Rounding adds at most one unit of the first shift. *)
Lemma rounded_upper (mx ex : Z) (lx : location) :
  0 <= mx ->
  rounded mx ex lx / 2 ^ shift2 mx ex lx
    * 2 ^ (shift1 mx ex + shift2 mx ex lx)
  <= mx + 2 ^ shift1 mx ex.
Proof.
  intros Hmx.
  pose proof (shift1_nonneg mx ex) as H1.
  pose proof (shift2_nonneg mx ex lx) as H2.
  pose proof (rounded_bounds mx ex lx) as [_ Hr].
  set (n1 := shift1 mx ex) in *. set (n2 := shift2 mx ex lx) in *.
  set (r := rounded mx ex lx) in *.
  assert (0 < 2 ^ n1) as P1 by (apply Z.pow_pos_nonneg; lia).
  assert (0 < 2 ^ n2) as P2 by (apply Z.pow_pos_nonneg; lia).
  rewrite Z.pow_add_r by lia.
  assert (r / 2 ^ n2 * 2 ^ n2 <= r) as Hdown.
  { rewrite Z.mul_comm. apply Z.mul_div_le. exact P2. }
  assert (mx / 2 ^ n1 * 2 ^ n1 <= mx) as Hdown1.
  { rewrite Z.mul_comm. apply Z.mul_div_le. exact P1. }
  nia.
Qed.

(** Rounding never goes below a value of the final grid. *)
Lemma rounded_lower (mx ex : Z) (lx : location) (G : Z) :
  0 <= G <= mx ->
  (2 ^ (shift1 mx ex + shift2 mx ex lx) | G) ->
  G <= rounded mx ex lx / 2 ^ shift2 mx ex lx
       * 2 ^ (shift1 mx ex + shift2 mx ex lx).
Proof.
  intros HG Hdiv.
  pose proof (shift1_nonneg mx ex) as H1.
  pose proof (shift2_nonneg mx ex lx) as H2.
  pose proof (rounded_bounds mx ex lx) as [Hr _].
  set (n1 := shift1 mx ex) in *. set (n2 := shift2 mx ex lx) in *.
  set (r := rounded mx ex lx) in *.
  assert (0 < 2 ^ n1) as P1 by (apply Z.pow_pos_nonneg; lia).
  assert (0 < 2 ^ n2) as P2 by (apply Z.pow_pos_nonneg; lia).
  assert (0 < 2 ^ (n1 + n2)) as P12 by (apply Z.pow_pos_nonneg; lia).
  destruct Hdiv as [g Hg].
  assert (g <= r / 2 ^ n2) as Hle.
  { assert (G / 2 ^ (n1 + n2) = g) as <-
      by (rewrite Hg; apply Z.div_mul; lia).
    rewrite Z.pow_add_r, <- Z.div_div by lia.
    apply Z.div_le_mono; [ exact P2 | ].
    transitivity (mx / 2 ^ n1); [ | exact Hr ].
    apply Z.div_le_mono; [ exact P1 | lia ]. }
  rewrite Hg. apply Z.mul_le_mono_nonneg_r; lia.
Qed.

(** Rounding never passes a value of the final grid above the input. *)
Lemma rounded_below_grid (mx ex : Z) (lx : location) (G : Z) :
  0 <= mx < G ->
  (2 ^ (shift1 mx ex + shift2 mx ex lx) | G) ->
  rounded mx ex lx / 2 ^ shift2 mx ex lx
    * 2 ^ (shift1 mx ex + shift2 mx ex lx) <= G.
Proof.
  intros HG Hdiv.
  pose proof (shift1_nonneg mx ex) as H1.
  pose proof (shift2_nonneg mx ex lx) as H2.
  pose proof (rounded_bounds mx ex lx) as [_ Hr].
  set (n1 := shift1 mx ex) in *. set (n2 := shift2 mx ex lx) in *.
  set (r := rounded mx ex lx) in *.
  assert (0 < 2 ^ n1) as P1 by (apply Z.pow_pos_nonneg; lia).
  assert (0 < 2 ^ n2) as P2 by (apply Z.pow_pos_nonneg; lia).
  destruct Hdiv as [g Hg]. rewrite Z.pow_add_r in Hg |- * by lia.
  (* the input lies strictly below [g * 2 ^ n2] units of the first shift *)
  assert (mx / 2 ^ n1 < g * 2 ^ n2) as Hfirst.
  { apply Z.div_lt_upper_bound; [ exact P1 | ]. lia. }
  assert (r / 2 ^ n2 <= g) as Hsecond.
  { apply Z.div_le_upper_bound; [ exact P2 | ]. lia. }
  rewrite Hg. apply Z.mul_le_mono_nonneg_r; [ | exact Hsecond ].
  apply Z.mul_nonneg_nonneg; lia.
Qed.

Lemma fexp_eq (x : Z) : fexp prec emax x = Z.max (x - 53) (-1074).
Proof. reflexivity. Qed.

(** A mantissa that needs no shift is kept as it is. *)
Lemma binary_round_aux_exact (mx ex : Z) :
  0 <= mx ->
  fexp prec emax (Zdigits2 mx + ex) <= ex ->
  binary_round_aux prec emax false mx ex loc_Exact = pack mx ex.
Proof.
  intros Hmx Hfexp. rewrite binary_round_aux_shape by exact Hmx.
  assert (shift1 mx ex = 0) as H1 by (unfold shift1; lia).
  assert (rounded mx ex loc_Exact = mx) as Hr.
  { unfold rounded. rewrite H1, Z.pow_0_r, Z.div_1_r.
    unfold shr_fexp.
    destruct (fexp prec emax (Zdigits2 mx + ex) - ex) as [ | p | p ] eqn:Hn;
      [ reflexivity | lia | reflexivity ]. }
  assert (shift2 mx ex loc_Exact = 0) as H2.
  { unfold shift2. rewrite Hr, H1, Z.add_0_r. lia. }
  rewrite Hr, H1, H2, Z.pow_0_r, Z.div_1_r, !Z.add_0_r. reflexivity.
Qed.

(** Where the exponent ends up, for a value below [2 ^ K]. *)
Lemma shift1_bound (mx ex K : Z) :
  0 < mx -> mx < 2 ^ (K - ex) -> -1074 <= K - 53 ->
  ex + shift1 mx ex <= Z.max ex (K - 53).
Proof.
  intros Hmx Hlt HK. unfold shift1. rewrite fexp_eq.
  pose proof (Zdigits2_le mx (K - ex) Hmx Hlt). lia.
Qed.

Lemma shift2_bound (mx ex K : Z) (lx : location) :
  0 < mx -> mx < 2 ^ (K - ex) -> -1074 <= K - 53 ->
  ex + shift1 mx ex + shift2 mx ex lx <= Z.max ex (K - 52).
Proof.
  intros Hmx Hlt HK.
  pose proof (shift1_bound mx ex K Hmx Hlt HK) as H1.
  pose proof (shift1_nonneg mx ex) as H1'.
  pose proof (rounded_bounds mx ex lx) as [Hr0 Hr].
  unfold shift2. rewrite fexp_eq.
  set (n1 := shift1 mx ex) in *. set (r := rounded mx ex lx) in *.
  assert (0 < 2 ^ n1) as P1 by (apply Z.pow_pos_nonneg; lia).
  assert (0 <= mx / 2 ^ n1) as Hq by (apply Z.div_pos; lia).
  destruct (Z.eq_dec r 0) as [-> | Hnz].
  { cbn [Zdigits2]. lia. }
  assert (0 < r) as Hrpos by lia.
  destruct (Z.le_gt_cases (K - ex) n1) as [Hbig | Hsmall].
  - (* everything was shifted out: the mantissa is at most one *)
    assert (mx / 2 ^ n1 = 0) as Hz.
    { apply Z.div_small. split; [ lia | ].
      apply Z.lt_le_trans with (1 := Hlt).
      apply Z.pow_le_mono_r; lia. }
    assert (r = 1) as -> by lia. cbn [Zdigits2 digits2_pos]. lia.
  - assert (mx / 2 ^ n1 < 2 ^ (K - ex - n1)) as Hm1.
    { apply Z.div_lt_upper_bound; [ exact P1 | ].
      rewrite <- Z.pow_add_r by lia.
      replace (n1 + (K - ex - n1)) with (K - ex) by lia. exact Hlt. }
    assert (r < 2 ^ (K - ex - n1 + 1)) as Hrlt.
    { rewrite Z.pow_add_r, Z.pow_1_r by lia.
      assert (0 < 2 ^ (K - ex - n1)) by (apply Z.pow_pos_nonneg; lia).
      lia. }
    pose proof (Zdigits2_le r _ Hrpos Hrlt). lia.
Qed.

(** Truncating a rounded value with a fraction: what is left of the
    mantissa above the binary point. *)
Lemma int_of_float64_pack (f : float64) (M E : Z) :
  Prim2SF f = pack M E ->
  E <= 0 -> 0 <= M -> M / 2 ^ (- E) <= maxInt64 ->
  int_of_float64 f = M / 2 ^ (- E).
Proof.
  intros Hf HE HM Hmax. unfold int_of_float64. rewrite Hf.
  assert (0 < 2 ^ (- E)) as P by (apply Z.pow_pos_nonneg; lia).
  destruct M as [ | m | m ]; cbn [pack]; [ reflexivity | | lia ].
  assert ((E <=? emax - prec) = true) as ->
    by (apply Z.leb_le; change (emax - prec) with 971; lia).
  assert ((if 0 <=? E then Z.pos m * 2 ^ E else Z.pos m / 2 ^ (- E))
          = Z.pos m / 2 ^ (- E)) as ->.
  { destruct (Z.leb_spec 0 E) as [He0 | He0]; [ | reflexivity ].
    assert (E = 0) as -> by lia. cbn [Z.opp].
    now rewrite Z.pow_0_r, Z.div_1_r, Z.mul_1_r. }
  assert (0 <= Z.pos m / 2 ^ (- E)) as H0 by (apply Z.div_pos; lia).
  assert (((minInt64 <=? Z.pos m / 2 ^ (- E))
           && (Z.pos m / 2 ^ (- E) <=? maxInt64)) = true) as ->.
  { apply andb_true_intro. unfold minInt64, maxInt64 in *.
    split; apply Z.leb_le; lia. }
  reflexivity.
Qed.

Lemma Zdigits2_unique (m D : Z) :
  2 ^ (D - 1) <= m < 2 ^ D -> 0 < m -> Zdigits2 m = D.
Proof.
  intros [Hlow Hup] Hm.
  pose proof (Zdigits2_le m D Hm Hup).
  assert (0 <= D - 1) as HD.
  { destruct (Z.le_gt_cases 0 (D - 1)); [ assumption | ].
    destruct (Z.eq_dec D 0) as [-> | ].
    - cbn in Hup. lia.
    - rewrite (Z.pow_neg_r 2 D) in Hup by lia. lia. }
  pose proof (Zdigits2_ge m (D - 1) HD Hlow). lia.
Qed.

Lemma iter_xO (m d : positive) :
  Z.pos (Pos.iter xO m d) = Z.pos m * 2 ^ Z.pos d.
Proof.
  induction d as [ | d IH ] using Pos.peano_ind.
  - cbn [Pos.iter]. change (Z.pos m~0) with (2 * Z.pos m). lia.
  - rewrite Pos.iter_succ.
    change (Z.pos (Pos.iter xO m d)~0) with (2 * Z.pos (Pos.iter xO m d)).
    rewrite IH, Pos2Z.inj_succ, Z.pow_succ_r; lia.
Qed.

(** Aligning to a smaller exponent multiplies the mantissa by the power of
    two that keeps the value. *)
Lemma shl_align_spec (mx : positive) (ex ex' : Z) :
  snd (shl_align mx ex ex') = Z.min ex ex'
  /\ Z.pos (fst (shl_align mx ex ex'))
     = Z.pos mx * 2 ^ (ex - Z.min ex ex').
Proof.
  unfold shl_align. destruct (ex' - ex) as [ | d | d ] eqn:Hd; cbn [fst snd].
  - replace (Z.min ex ex') with ex by lia.
    rewrite Z.sub_diag, Z.pow_0_r. lia.
  - replace (Z.min ex ex') with ex by lia.
    rewrite Z.sub_diag, Z.pow_0_r. lia.
  - replace (Z.min ex ex') with ex' by lia.
    rewrite iter_xO. replace (ex - ex') with (Z.pos d) by lia. tauto.
Qed.

(** [float64(n)] is exact below [2 ^ 53]: a 53-bit mantissa and the exponent
    that goes with the size of [n]. *)
Lemma float64_of_int_exact (n : Z) :
  0 < n < 2 ^ 53 ->
  exists m : positive,
    Prim2SF (float64_of_int n) = S754_finite false m (Zdigits2 n - 53)
    /\ Z.pos m = n * 2 ^ (53 - Zdigits2 n)
    /\ Zdigits2 (Z.pos m) = 53.
Proof.
  intros [Hpos Hlt]. unfold float64_of_int.
  assert ((n =? minInt64) = false) as ->
    by (apply Z.eqb_neq; unfold minInt64; lia).
  assert ((n <? 0) = false) as -> by (apply Z.ltb_ge; lia).
  rewrite of_uint63_spec, Uint63.of_Z_spec, Z.mod_small
    by (change Uint63.wB with (2 ^ 63); lia).
  destruct n as [ | p | p ]; [ lia | | lia ].
  pose proof (Zdigits2_bounds (Z.pos p) Hpos) as [Hlow Hup].
  pose proof (Zdigits2_pos (Z.pos p) Hpos) as Hd0.
  pose proof (Zdigits2_le (Z.pos p) 53 Hpos Hlt) as Hd53.
  cbn [binary_normalize]. unfold binary_round.
  change (Z.pos (digits2_pos p)) with (Zdigits2 (Z.pos p)).
  set (d := Zdigits2 (Z.pos p)) in *.
  pose proof (shl_align_spec p 0 (fexp prec emax (d + 0))) as [He Hm].
  destruct (shl_align p 0 (fexp prec emax (d + 0))) as [mz ez].
  cbn [fst snd] in He, Hm. rewrite fexp_eq in He, Hm.
  replace (Z.min 0 (Z.max (d + 0 - 53) (-1074))) with (d - 53) in He, Hm
    by lia.
  replace (0 - (d - 53)) with (53 - d) in Hm by lia.
  assert (0 < 2 ^ (53 - d)) as P by (apply Z.pow_pos_nonneg; lia).
  assert (Zdigits2 (Z.pos mz) = 53) as Hdz.
  { apply Zdigits2_unique; [ | lia ]. rewrite Hm. split.
    - replace (53 - 1) with ((d - 1) + (53 - d)) by lia.
      rewrite Z.pow_add_r by lia. apply Z.mul_le_mono_nonneg_r; lia.
    - replace 53 with (d + (53 - d)) at 2 by lia.
      rewrite Z.pow_add_r by lia. apply Z.mul_lt_mono_pos_r; lia. }
  exists mz. subst ez. split; [ | split; assumption ].
  rewrite binary_round_aux_exact.
  - cbn [pack].
    assert ((d - 53 <=? emax - prec) = true) as ->
      by (apply Z.leb_le; change (emax - prec) with 971; lia).
    reflexivity.
  - lia.
  - rewrite Hdz, fexp_eq. lia.
Qed.

(** Division of two normal numbers: the quotient of the mantissas, the
    dividend shifted by 53 bits first. *)
Lemma SFdiv_normal (ma mc : positive) (ea ec : Z) :
  Zdigits2 (Z.pos ma) = 53 -> Zdigits2 (Z.pos mc) = 53 ->
  -1074 <= ea - ec - 53 ->
  exists lz : location,
    SFdiv prec emax (S754_finite false ma ea) (S754_finite false mc ec)
    = binary_round_aux prec emax false
        (Z.pos ma * 2 ^ 53 / Z.pos mc) (ea - ec - 53) lz.
Proof.
  intros Ha Hc Hrange. cbn [SFdiv xorb]. unfold SFdiv_core_binary.
  rewrite Ha, Hc, fexp_eq.
  replace (Z.min (Z.max (53 + ea - (53 + ec) - 53) (-1074)) (ea - ec))
    with (ea - ec - 53) by lia.
  replace (ea - ec - (ea - ec - 53)) with 53 by lia.
  rewrite Z.shiftl_mul_pow2 by lia.
  change (IntDef.Z.div_eucl (Z.pos ma * 2 ^ 53) (Z.pos mc))
    with (Z.div_eucl (Z.pos ma * 2 ^ 53) (Z.pos mc)).
  unfold Z.div.
  destruct (Z.div_eucl (Z.pos ma * 2 ^ 53) (Z.pos mc)) as [q r].
  exists (new_location (Z.pos mc) r). reflexivity.
Qed.

Lemma pow2_pos (x : Z) : 0 <= x -> 0 < 2 ^ x.
Proof. intros; apply Z.pow_pos_nonneg; lia. Qed.

Lemma pow2_sum (x y z : Z) :
  0 <= y -> 0 <= z -> x = y + z -> 2 ^ x = 2 ^ y * 2 ^ z.
Proof. intros Hy Hz ->. now apply Z.pow_add_r. Qed.

(** [float64(h) + y] for a whole part [h] and a fraction [y] below one: the
    sum is rounded to a mantissa [M] at an exponent [E <= 0] that stays
    between [h] and [h + 1], at most one unit in the last place above the
    exact sum.  Values are scaled by [2 ^ 160] to stay in the integers. *)
Lemma sum_rounding (h k : Z) (y : float64) (Mf Ef : Z) :
  0 <= h -> h + 1 <= 2 ^ k -> 1 <= k <= 52 ->
  Prim2SF y = pack Mf Ef ->
  0 <= Mf -> -105 <= Ef <= -52 ->
  Mf * 2 ^ (Ef + 160) < 2 ^ 160 ->
  exists M E : Z,
    Prim2SF (float64_of_int h + y) = pack M E
    /\ -160 <= E <= 0
    /\ h * 2 ^ (- E) <= M <= (h + 1) * 2 ^ (- E)
    /\ M * 2 ^ (E + 160) <= h * 2 ^ 160 + Mf * 2 ^ (Ef + 160) + 2 ^ (k + 107).
Proof.
  intros Hh0 Hhk Hk Hy HM0 HEf Hvf1.
  set (vf := Mf * 2 ^ (Ef + 160)) in *.
  assert (2 ^ k <= 2 ^ 52) as Hk52 by (apply Z.pow_le_mono_r; lia).
  pose proof (pow2_pos (Ef + 160) ltac:(lia)) as PF.
  pose proof (pow2_pos (- Ef) ltac:(lia)) as PF'.
  pose proof (pow2_pos (k + 107) ltac:(lia)) as PK.
  assert (2 ^ (- Ef) * 2 ^ (Ef + 160) = 2 ^ 160) as HoneF
    by (rewrite <- Z.pow_add_r by lia; f_equal; lia).
  assert (0 <= vf) as Hvf0 by (apply Z.mul_nonneg_nonneg; lia).
  destruct (Z.eq_dec h 0) as [-> | Hhnz].
  { (* no whole part: the sum is the fraction *)
    exists Mf, Ef. split; [ | split; [ lia | split ] ].
    - rewrite add_spec, Hy. unfold SF64add.
      change (Prim2SF (float64_of_int 0)) with (S754_zero false).
      destruct Mf as [ | mf | mf ]; cbn [pack]; [ reflexivity | | lia ].
      now destruct (Ef <=? emax - prec).
    - split; [ lia | ].
      apply (Z.mul_le_mono_pos_r _ _ (2 ^ (Ef + 160))); [ exact PF | ].
      fold vf. replace ((0 + 1) * 2 ^ (- Ef) * 2 ^ (Ef + 160))
        with (2 ^ (- Ef) * 2 ^ (Ef + 160)) by ring.
      lia.
    - fold vf. lia. }
  destruct (float64_of_int_exact h) as (mh & Hfh & Hmh & Hdh); [ lia | ].
  assert (0 < h) as Hhpos by lia.
  pose proof (Zdigits2_pos h Hhpos) as Hd1.
  assert (Zdigits2 h <= k) as Hd2 by (apply Zdigits2_le; lia).
  set (eh := Zdigits2 h - 53) in *.
  replace (53 - Zdigits2 h) with (- eh) in Hmh by lia.
  pose proof (pow2_pos (- eh) ltac:(lia)) as PH.
  destruct Mf as [ | mf | mf ]; [ | | lia ].
  { (* no fraction: the sum is the whole part *)
    exists (Z.pos mh), eh. split; [ | split; [ lia | split ] ].
    - rewrite add_spec, Hy, Hfh. cbn [pack].
      assert ((eh <=? emax - prec) = true) as ->
        by (apply Z.leb_le; change (emax - prec) with 971; lia).
      reflexivity.
    - lia.
    - rewrite Hmh, <- Z.mul_assoc, <- Z.pow_add_r by lia.
      replace (- eh + (eh + 160)) with 160 by lia. lia. }
  assert (Prim2SF y = S754_finite false mf Ef) as Hy'.
  { rewrite Hy. cbn [pack].
    assert ((Ef <=? emax - prec) = true) as ->
      by (apply Z.leb_le; change (emax - prec) with 971; lia).
    reflexivity. }
  (* the exact sum, aligned *)
  set (ez := Z.min eh Ef).
  pose proof (shl_align_spec mh eh ez) as [_ Hah].
  pose proof (shl_align_spec mf Ef ez) as [_ Haf].
  replace (Z.min eh ez) with ez in Hah by lia.
  replace (Z.min Ef ez) with ez in Haf by lia.
  set (msum := (fst (shl_align mh eh ez) + fst (shl_align mf Ef ez))%positive).
  assert (Z.pos msum = Z.pos mh * 2 ^ (eh - ez) + Z.pos mf * 2 ^ (Ef - ez))
    as Hmsum by (subst msum; rewrite Pos2Z.inj_add, Hah, Haf; reflexivity).
  pose proof (shl_align_spec msum ez
                (fexp prec emax (Z.pos (digits2_pos msum) + ez)))
    as [Hez' Hmz].
  destruct (shl_align msum ez
              (fexp prec emax (Z.pos (digits2_pos msum) + ez)))
    as [mz ez'] eqn:Halign.
  cbn [fst snd] in Hez', Hmz.
  assert (-160 <= ez' <= -52) as Hrange.
  { rewrite Hez', fexp_eq.
    assert (0 < Z.pos (digits2_pos msum)) by lia. lia. }
  assert (ez' <= ez) as Hle by lia.
  rewrite <- Hez' in Hmz.
  assert (Prim2SF (float64_of_int h + y)
          = binary_round_aux prec emax false (Z.pos mz) ez' loc_Exact)
    as Hsum.
  { rewrite add_spec, Hy', Hfh. unfold SF64add. cbn [SFadd cond_Zopp].
    fold ez. rewrite <- Pos2Z.inj_add. fold msum.
    cbn [binary_normalize]. unfold binary_round. now rewrite Halign. }
  (* its value *)
  pose proof (pow2_pos (ez' + 160) ltac:(lia)) as PS.
  assert (Z.pos mz * 2 ^ (ez' + 160) = h * 2 ^ 160 + vf) as Hval.
  { rewrite Hmz, Hmsum, Hmh. subst vf.
    rewrite (pow2_sum 160 (- eh) (eh + 160)) by lia.
    rewrite (pow2_sum (eh + 160) (eh - ez) (ez + 160)) by lia.
    rewrite (pow2_sum (Ef + 160) (Ef - ez) (ez + 160)) by lia.
    rewrite (pow2_sum (ez + 160) (ez - ez') (ez' + 160)) by lia.
    ring. }
  pose proof (pow2_pos (- ez') ltac:(lia)) as PZ.
  assert (2 ^ (- ez') * 2 ^ (ez' + 160) = 2 ^ 160) as HoneZ
    by (rewrite <- Z.pow_add_r by lia; f_equal; lia).
  assert (h * 2 ^ (- ez') <= Z.pos mz < (h + 1) * 2 ^ (- ez')) as Hbetween.
  { split.
    - apply (Z.mul_le_mono_pos_r _ _ (2 ^ (ez' + 160))); [ exact PS | ].
      rewrite Hval, <- Z.mul_assoc, HoneZ. lia.
    - apply (Z.mul_lt_mono_pos_r (2 ^ (ez' + 160))); [ exact PS | ].
      rewrite Hval, <- Z.mul_assoc, HoneZ. lia. }
  assert (Z.pos mz < 2 ^ (k - ez')) as Hmzlt.
  { rewrite (pow2_sum (k - ez') k (- ez')) by lia.
    apply Z.lt_le_trans with (1 := proj2 Hbetween).
    apply Z.mul_le_mono_nonneg_r; lia. }
  rewrite binary_round_aux_shape in Hsum by lia.
  pose proof (shift1_bound (Z.pos mz) ez' k eq_refl Hmzlt ltac:(lia)) as Hs1.
  pose proof (shift2_bound (Z.pos mz) ez' k loc_Exact eq_refl Hmzlt
                ltac:(lia)) as Hs2.
  pose proof (shift1_nonneg (Z.pos mz) ez') as Hn1.
  pose proof (shift2_nonneg (Z.pos mz) ez' loc_Exact) as Hn2.
  pose proof (rounded_upper (Z.pos mz) ez' loc_Exact ltac:(lia)) as Hup.
  pose proof (rounded_lower (Z.pos mz) ez' loc_Exact (h * 2 ^ (- ez')))
    as Hlow.
  pose proof (rounded_below_grid (Z.pos mz) ez' loc_Exact
                ((h + 1) * 2 ^ (- ez'))) as Hhigh.
  set (n1 := shift1 (Z.pos mz) ez') in *.
  set (n2 := shift2 (Z.pos mz) ez' loc_Exact) in *.
  set (M := rounded (Z.pos mz) ez' loc_Exact / 2 ^ n2) in *.
  set (E := ez' + n1 + n2) in *.
  assert (E <= 0) as HE0 by lia.
  pose proof (pow2_pos (- E) ltac:(lia)) as PE.
  pose proof (pow2_pos (n1 + n2) ltac:(lia)) as PN.
  assert (2 ^ (- ez') = 2 ^ (- E) * 2 ^ (n1 + n2)) as Hgrid
    by (apply pow2_sum; lia).
  exists M, E. split; [ exact Hsum | split; [ lia | split ] ].
  - (* [h] and [h + 1] are on the grid of the result *)
    split.
    + assert (h * 2 ^ (- ez') <= M * 2 ^ (n1 + n2)) as HG.
      { apply Hlow.
        - split; [ apply Z.mul_nonneg_nonneg; lia | lia ].
        - exists (h * 2 ^ (- E)). rewrite Hgrid. ring. }
      rewrite Hgrid in HG.
      apply (Z.mul_le_mono_pos_r _ _ (2 ^ (n1 + n2))); [ exact PN | ]. lia.
    + assert (M * 2 ^ (n1 + n2) <= (h + 1) * 2 ^ (- ez')) as HG.
      { apply Hhigh.
        - lia.
        - exists ((h + 1) * 2 ^ (- E)). rewrite Hgrid. ring. }
      rewrite Hgrid in HG.
      apply (Z.mul_le_mono_pos_r _ _ (2 ^ (n1 + n2))); [ exact PN | ]. lia.
  - (* one unit in the last place above the exact sum, at most *)
    assert (2 ^ (E + 160) = 2 ^ (n1 + n2) * 2 ^ (ez' + 160)) as HE
      by (apply pow2_sum; lia).
    assert (2 ^ n1 * 2 ^ (ez' + 160) <= 2 ^ (k + 107)) as Hulp.
    { rewrite <- Z.pow_add_r by lia. apply Z.pow_le_mono_r; lia. }
    fold vf. rewrite HE, <- Hval.
    transitivity ((Z.pos mz + 2 ^ n1) * 2 ^ (ez' + 160)); [ | lia ].
    rewrite Z.mul_assoc. apply Z.mul_le_mono_nonneg_r; lia.
Qed.

Section Quotient.

(** The divisor of [Hours] or [Minutes]: [C] nanoseconds, held exactly in
    a 53-bit mantissa. *)
Variables (c : float64) (C : Z) (mc : positive) (ec : Z).
Hypothesis Hc : Prim2SF c = S754_finite false mc ec.
Hypothesis Hmc : Z.pos mc = C * 2 ^ (- ec).
Hypothesis Hdc : Zdigits2 (Z.pos mc) = 53.
Hypothesis Hec : -52 <= ec <= 0.

Lemma divisor_pos : 0 < C.
Proof using Hmc Hec.
  pose proof (pow2_pos (- ec)). nia.
Qed.

Lemma divisor_small : C < 2 ^ (53 + ec).
Proof using Hmc Hdc Hec.
  pose proof (Zdigits2_bounds (Z.pos mc) eq_refl) as [_ Hup].
  rewrite Hdc, Hmc in Hup.
  rewrite (pow2_sum 53 (53 + ec) (- ec)) in Hup by lia.
  pose proof (pow2_pos (- ec)). pose proof (pow2_pos (53 + ec)). nia.
Qed.

(** The fraction [float64(a) / c] for a remainder [0 <= a < C]: a rounded
    value at most one unit in the last place above [a / C]; scaled by
    [2 ^ 160] to stay in the integers. *)
Lemma fraction_bounds (a : Z) :
  0 <= a < C ->
  exists Mf Ef : Z,
    Prim2SF (float64_of_int a / c) = pack Mf Ef
    /\ 0 <= Mf
    /\ -105 <= Ef <= -52
    /\ C * (Mf * 2 ^ (Ef + 160)) <= a * 2 ^ 160 + C * 2 ^ 107.
Proof using Hc Hmc Hdc Hec.
  intros [Ha0 HaC].
  pose proof divisor_pos as HC0. pose proof divisor_small as HCp.
  rewrite div_spec, Hc. unfold SF64div.
  destruct (Z.eq_dec a 0) as [-> | Hnz].
  { exists 0, (-52). split; [ reflexivity | ].
    split; [ lia | ]. split; [ lia | ]. nia. }
  assert (2 ^ (53 + ec) <= 2 ^ 53) as Hp53
    by (apply Z.pow_le_mono_r; lia).
  destruct (float64_of_int_exact a) as (ma & Hfa & Hma & Hda); [ lia | ].
  assert (0 < a) as Hapos by lia.
  pose proof (Zdigits2_pos a Hapos) as Hd1.
  assert (Zdigits2 a <= 53 + ec) as Hd2 by (apply Zdigits2_le; lia).
  set (ea := Zdigits2 a - 53) in *.
  replace (53 - Zdigits2 a) with (- ea) in Hma by lia.
  rewrite Hfa.
  destruct (SFdiv_normal ma mc ea ec Hda Hdc) as [lz ->]; [ lia | ].
  set (q := Z.pos ma * 2 ^ 53 / Z.pos mc).
  set (e' := ea - ec - 53).
  (* the three scales *)
  pose proof (pow2_pos (- ea)) as PA. pose proof (pow2_pos (- ec)) as PX.
  pose proof (pow2_pos (- e')) as PT.
  assert (2 ^ (- e') * 2 ^ (- ec) = 2 ^ (- ea) * 2 ^ 53) as Hscale.
  { rewrite <- !Z.pow_add_r by lia. f_equal. lia. }
  assert (q * Z.pos mc <= Z.pos ma * 2 ^ 53) as Hqmul
    by (rewrite Z.mul_comm; apply Z.mul_div_le; lia).
  assert (Z.pos mc < 2 ^ 53) as Hmc53.
  { pose proof (Zdigits2_bounds (Z.pos mc) eq_refl) as [_ Hup].
    now rewrite Hdc in Hup. }
  assert (0 < q) as Hq0.
  { apply Z.div_str_pos. split; [ lia | ]. nia. }
  assert (C * q <= a * 2 ^ (- e')) as HCq.
  { apply (Z.mul_le_mono_pos_r _ _ (2 ^ (- ec))); [ lia | ].
    replace (a * 2 ^ (- e') * 2 ^ (- ec))
      with (a * (2 ^ (- e') * 2 ^ (- ec))) by ring.
    rewrite Hscale. rewrite Hmc, Hma in Hqmul. lia. }
  assert (q < 2 ^ (0 - e')) as Hqlt.
  { replace (0 - e') with (- e') by lia. nia. }
  rewrite binary_round_aux_shape by lia.
  pose proof (shift1_bound q e' 0 Hq0 Hqlt ltac:(lia)) as Hs1.
  pose proof (shift2_bound q e' 0 lz Hq0 Hqlt ltac:(lia)) as Hs2.
  pose proof (shift1_nonneg q e') as Hn1.
  pose proof (shift2_nonneg q e' lz) as Hn2.
  pose proof (rounded_upper q e' lz ltac:(lia)) as Hup.
  pose proof (rounded_bounds q e' lz) as [Hr0 _].
  set (n1 := shift1 q e') in *. set (n2 := shift2 q e' lz) in *.
  set (r := rounded q e' lz) in *.
  exists (r / 2 ^ n2), (e' + n1 + n2).
  split; [ reflexivity | ].
  assert (0 <= r / 2 ^ n2) as HM0.
  { apply Z.div_pos; [ | apply pow2_pos; lia ].
    assert (0 <= q / 2 ^ n1)
      by (apply Z.div_pos; [ lia | apply pow2_pos; lia ]).
    lia. }
  split; [ exact HM0 | ]. split; [ lia | ].
  set (M := r / 2 ^ n2) in *.
  rewrite (pow2_sum (e' + n1 + n2 + 160) (n1 + n2) (e' + 160)) by lia.
  pose proof (pow2_pos (e' + 160) ltac:(lia)) as PS.
  assert (2 ^ (- e') * 2 ^ (e' + 160) = 2 ^ 160) as Hone
    by (rewrite <- Z.pow_add_r by lia; f_equal; lia).
  assert (2 ^ n1 * 2 ^ (e' + 160) <= 2 ^ 107) as Hulp.
  { rewrite <- Z.pow_add_r by lia. apply Z.pow_le_mono_r; lia. }
  assert (C * (M * 2 ^ (n1 + n2)) * 2 ^ (e' + 160)
          <= (C * q + C * 2 ^ n1) * 2 ^ (e' + 160)) as Hstep.
  { apply Z.mul_le_mono_nonneg_r; [ lia | ]. nia. }
  assert (C * q * 2 ^ (e' + 160) <= a * 2 ^ 160) as Hmain.
  { rewrite <- Hone.
    replace (a * (2 ^ (- e') * 2 ^ (e' + 160)))
      with (a * 2 ^ (- e') * 2 ^ (e' + 160)) by ring.
    apply Z.mul_le_mono_nonneg_r; lia. }
  assert (C * 2 ^ n1 * 2 ^ (e' + 160) <= C * 2 ^ 107) as Hrest.
  { rewrite <- Z.mul_assoc. apply Z.mul_le_mono_nonneg_l; lia. }
  lia.
Qed.

(** [int(float64(h) + float64(a) / c)] is [h] or [h + 1]. *)
Lemma quotient_brackets (h a k : Z) :
  0 <= h -> h + 1 <= 2 ^ k -> 1 <= k <= 52 ->
  0 <= a < C ->
  h <= int_of_float64 (float64_of_int h + float64_of_int a / c) <= h + 1.
Proof using Hc Hmc Hdc Hec.
  intros Hh Hhk Hk Ha.
  pose proof divisor_pos as HC0. pose proof divisor_small as HCp.
  destruct (fraction_bounds a Ha) as (Mf & Ef & Hy & HM0 & HEf & Hfrac).
  assert (Mf * 2 ^ (Ef + 160) < 2 ^ 160) as Hvf.
  { assert (2 ^ (53 + ec) * 2 ^ 107 <= 2 ^ 160)
      by (rewrite <- Z.pow_add_r by lia; apply Z.pow_le_mono_r; lia).
    pose proof (pow2_pos 107 ltac:(lia)).
    apply (Z.mul_lt_mono_pos_l C); [ exact HC0 | ]. nia. }
  destruct (sum_rounding h k _ Mf Ef Hh Hhk Hk Hy HM0 HEf Hvf)
    as (M & E & Hsum & HE & [Hlow Hhigh] & _).
  assert (2 ^ k <= 2 ^ 52) by (apply Z.pow_le_mono_r; lia).
  pose proof (pow2_pos (- E) ltac:(lia)) as PE.
  assert (h <= M / 2 ^ (- E)) as H1
    by (apply Z.div_le_lower_bound; lia).
  assert (M / 2 ^ (- E) <= h + 1) as H2
    by (apply Z.div_le_upper_bound; lia).
  rewrite (int_of_float64_pack _ M E Hsum ltac:(lia)); [ lia | nia | ].
  unfold maxInt64. lia.
Qed.

(** It is [h] as long as one unit in the last place of the sum is smaller
    than the distance [1 / C] of the fraction from one: [h < 2 ^ k] with
    [C * 2 ^ k <= 2 ^ 52]. *)
Lemma quotient_truncates (h a k : Z) :
  0 <= h -> h + 1 <= 2 ^ k -> 1 <= k <= -1 - ec ->
  0 <= a < C ->
  int_of_float64 (float64_of_int h + float64_of_int a / c) = h.
Proof using Hc Hmc Hdc Hec.
  intros Hh Hhk Hk Ha.
  pose proof divisor_pos as HC0. pose proof divisor_small as HCp.
  destruct (fraction_bounds a Ha) as (Mf & Ef & Hy & HM0 & HEf & Hfrac).
  set (vf := Mf * 2 ^ (Ef + 160)) in *.
  pose proof (pow2_pos 107 ltac:(lia)) as P107.
  pose proof (pow2_pos (k + 107) ltac:(lia)) as PK.
  (* one unit of the fraction and one of the sum, against [1 / C] *)
  assert (C * (2 ^ 107 + 2 ^ (k + 107)) < 2 ^ 160) as Hgap.
  { assert (2 ^ 107 <= 2 ^ (k + 107)) by (apply Z.pow_le_mono_r; lia).
    assert (2 * 2 ^ (k + 107) = 2 ^ (k + 108)) as H2
      by (rewrite (pow2_sum (k + 108) 1 (k + 107)) by lia; lia).
    assert (2 ^ (53 + ec) * 2 ^ (k + 108) <= 2 ^ 160) as H3.
    { rewrite <- Z.pow_add_r by lia. apply Z.pow_le_mono_r; lia. }
    pose proof (pow2_pos (k + 108) ltac:(lia)).
    nia. }
  assert (vf < 2 ^ 160) as Hvf.
  { apply (Z.mul_lt_mono_pos_l C); [ exact HC0 | ]. lia. }
  destruct (sum_rounding h k _ Mf Ef Hh Hhk ltac:(lia) Hy HM0 HEf Hvf)
    as (M & E & Hsum & HE & [Hlow _] & Hup).
  fold vf in Hup.
  assert (2 ^ k <= 2 ^ 52) by (apply Z.pow_le_mono_r; lia).
  pose proof (pow2_pos (- E) ltac:(lia)) as PE.
  pose proof (pow2_pos (E + 160) ltac:(lia)) as PE'.
  assert (2 ^ (- E) * 2 ^ (E + 160) = 2 ^ 160) as Hone
    by (rewrite <- Z.pow_add_r by lia; f_equal; lia).
  assert (M < (h + 1) * 2 ^ (- E)) as Hhigh.
  { apply (Z.mul_lt_mono_pos_r (2 ^ (E + 160))); [ exact PE' | ].
    rewrite <- (Z.mul_assoc (h + 1)), Hone.
    apply (Z.mul_lt_mono_pos_l C); [ exact HC0 | ].
    assert (C * (M * 2 ^ (E + 160))
            <= C * (h * 2 ^ 160 + vf + 2 ^ (k + 107))) as Hscaled
      by (apply Z.mul_le_mono_nonneg_l; lia).
    lia. }
  assert (M / 2 ^ (- E) = h) as Hq.
  { symmetry. apply (Z.div_unique _ _ _ (M - h * 2 ^ (- E))); lia. }
  rewrite (int_of_float64_pack _ M E Hsum ltac:(lia)), Hq;
    [ reflexivity | nia | ].
  rewrite Hq. unfold maxInt64. lia.
Qed.

End Quotient.

(** ** [Hours] and [Minutes] on real durations *)

Section Durations.

Variable d : time.Duration.
Hypothesis Hd : 0 <= d <= maxInt64.

Lemma Hours_brackets :
  d / time.Hour <= whole_hours d <= d / time.Hour + 1.
Proof using Hd.
  unfold whole_hours, time.Hours. unfold maxInt64 in Hd.
  rewrite Z.quot_div_nonneg, Z.rem_mod_nonneg by (try reflexivity; lia).
  apply (quotient_brackets 3600000000000%float time.Hour
           7372800000000000 (-11)) with (k := 22);
    try reflexivity; try lia.
  - apply Z.div_pos; [ lia | reflexivity ].
  - assert (d / time.Hour < 2562048)
      by (apply Z.div_lt_upper_bound; [ reflexivity | ];
          change time.Hour with 3600000000000; lia).
    change (2 ^ 22) with 4194304. lia.
  - apply Z.mod_pos_bound. reflexivity.
Qed.

Lemma Hours_exact :
  d < 1024 * time.Hour -> whole_hours d = d / time.Hour.
Proof using Hd.
  intros Hd1. unfold whole_hours, time.Hours.
  rewrite Z.quot_div_nonneg, Z.rem_mod_nonneg by (try reflexivity; lia).
  apply (quotient_truncates 3600000000000%float time.Hour
           7372800000000000 (-11)) with (k := 10);
    try reflexivity; try lia.
  - apply Z.div_pos; [ lia | reflexivity ].
  - assert (d / time.Hour < 1024)
      by (apply Z.div_lt_upper_bound; [ reflexivity | lia ]).
    change (2 ^ 10) with 1024. lia.
  - apply Z.mod_pos_bound. reflexivity.
Qed.

Lemma Minutes_exact :
  d < 65536 * time.Minute ->
  whole_minutes d = (d / time.Minute) mod 60.
Proof using Hd.
  intros Hd1. unfold whole_minutes, time.Minutes.
  rewrite (Z.quot_div_nonneg d time.Minute), (Z.rem_mod_nonneg d time.Minute)
    by (try reflexivity; lia).
  rewrite (quotient_truncates 60000000000%float time.Minute
             7864320000000000 (-17)) with (k := 16);
    try reflexivity; try lia.
  - apply Z.rem_mod_nonneg; [ | lia ].
    apply Z.div_pos; [ lia | reflexivity ].
  - apply Z.div_pos; [ lia | reflexivity ].
  - assert (d / time.Minute < 65536)
      by (apply Z.div_lt_upper_bound; [ reflexivity | lia ]).
    change (2 ^ 16) with 65536. lia.
  - apply Z.mod_pos_bound. reflexivity.
Qed.

End Durations.

(** Past 4096 hours the binary64 sum can round up to the next hour: one
    nanosecond before 4104 hours counts as 4104. *)
Example Hours_rounds_up :
  (4104 * time.Hour - 1) / time.Hour = 4103
  /\ whole_hours (4104 * time.Hour - 1) = 4104.
Proof. split; vm_compute; reflexivity. Qed.

(** The buckets by the two locals [h] and [m] that the function computes,
    for every duration. *)
Lemma formatTimeAgo_by_locals (d : time.Duration) :
  let h := whole_hours d in
  let m := whole_minutes d in
  (24 < h ->
     formatTimeAgo d =
       if Z.quot h 24 =? 1 then "1 день назад"
       else fmt_d (Z.quot h 24) +:+ " дня/дней назад")
  /\ (h = 1 -> formatTimeAgo d = "1 час назад")
  /\ (2 <= h <= 4 -> formatTimeAgo d = fmt_d h +:+ " часа назад")
  /\ (5 <= h <= 24 -> formatTimeAgo d = fmt_d h +:+ " часов назад")
  /\ (h <= 0 -> m = 1 -> formatTimeAgo d = "1 минуту назад")
  /\ (h <= 0 -> 2 <= m <= 4 ->
        formatTimeAgo d = fmt_d m +:+ " минуты назад")
  /\ (h <= 0 -> 5 <= m -> formatTimeAgo d = fmt_d m +:+ " минут назад")
  /\ (h <= 0 -> m <= 0 -> formatTimeAgo d = "только что").
Proof.
  intros h m. rewrite formatTimeAgo_unfold. fold h m. cbn zeta.
  repeat split.
  - intros H. destruct (Z.ltb_spec 24 h); [ reflexivity | lia ].
  - intros ->. reflexivity.
  - intros H.
    destruct (Z.ltb_spec 24 h); [ lia | ].
    destruct (Z.ltb_spec 0 h); [ | lia ].
    destruct (Z.eqb_spec h 1); [ lia | ].
    destruct (Z.ltb_spec h 5); [ reflexivity | lia ].
  - intros H.
    destruct (Z.ltb_spec 24 h); [ lia | ].
    destruct (Z.ltb_spec 0 h); [ | lia ].
    destruct (Z.eqb_spec h 1); [ lia | ].
    destruct (Z.ltb_spec h 5); [ lia | reflexivity ].
  - intros Hh ->.
    destruct (Z.ltb_spec 24 h); [ lia | ].
    destruct (Z.ltb_spec 0 h); [ lia | reflexivity ].
  - intros Hh Hm.
    destruct (Z.ltb_spec 24 h); [ lia | ].
    destruct (Z.ltb_spec 0 h); [ lia | ].
    destruct (Z.ltb_spec 0 m); [ | lia ].
    destruct (Z.eqb_spec m 1); [ lia | ].
    destruct (Z.ltb_spec m 5); [ reflexivity | lia ].
  - intros Hh Hm.
    destruct (Z.ltb_spec 24 h); [ lia | ].
    destruct (Z.ltb_spec 0 h); [ lia | ].
    destruct (Z.ltb_spec 0 m); [ | lia ].
    destruct (Z.eqb_spec m 1); [ lia | ].
    destruct (Z.ltb_spec m 5); [ lia | reflexivity ].
  - intros Hh Hm.
    destruct (Z.ltb_spec 24 h); [ lia | ].
    destruct (Z.ltb_spec 0 h); [ lia | ].
    destruct (Z.ltb_spec 0 m); [ lia | reflexivity ].
Qed.

(** C3: the buckets of [formatTimeAgo], by the duration.  For every
    duration [d] of the [int64] range, with [h] its whole hours and [m] its
    whole minutes: more than 24 whole hours give a days string, the singular
    one up to 47 hours and from 48 hours on the count of days, which is that
    of the hours the function computes ([h / 24] below 1024 hours, and never
    less than [h / 24] nor more than [(h + 1) / 24]); 1 to 24 whole hours
    give the hours string for [h] (singular, 2-4, 5 and more); below one
    hour, 1 to 59 whole minutes give the minutes string for [m] in the same
    three forms; under one whole minute, and so for every negative duration,
    the string is just now.  0 minutes is just now, 1 minute the singular
    minute, 90 minutes one hour, 25 hours one day. *)
Theorem formatTimeAgo_buckets :
  (forall d : time.Duration,
     d <= maxInt64 ->
     let h := d / time.Hour in
     let m := d / time.Minute in
     let days := Z.quot (whole_hours d) 24 in
     (24 < h < 48 -> formatTimeAgo d = "1 день назад")
     /\ (48 <= h ->
           formatTimeAgo d = fmt_d days +:+ " дня/дней назад"
           /\ 2 <= days
           /\ h / 24 <= days <= (h + 1) / 24
           /\ (h < 1024 -> days = h / 24))
     /\ (h = 1 -> formatTimeAgo d = "1 час назад")
     /\ (2 <= h <= 4 -> formatTimeAgo d = fmt_d h +:+ " часа назад")
     /\ (5 <= h <= 24 -> formatTimeAgo d = fmt_d h +:+ " часов назад")
     /\ (h = 0 -> m = 1 -> formatTimeAgo d = "1 минуту назад")
     /\ (h = 0 -> 2 <= m <= 4 ->
           formatTimeAgo d = fmt_d m +:+ " минуты назад")
     /\ (h = 0 -> 5 <= m ->
           formatTimeAgo d = fmt_d m +:+ " минут назад" /\ m <= 59)
     /\ (d < time.Minute -> formatTimeAgo d = "только что"))
  /\ formatTimeAgo 0 = "только что"
  /\ formatTimeAgo (59 * time.Second) = "только что"
  /\ formatTimeAgo (1 * time.Minute) = "1 минуту назад"
  /\ formatTimeAgo (90 * time.Minute) = "1 час назад"
  /\ formatTimeAgo (24 * time.Hour) = "24 часов назад"
  /\ formatTimeAgo (25 * time.Hour) = "1 день назад".
Proof.
  split; [ | repeat split; vm_compute; reflexivity ].
  intros d Hmax h m days.
  assert (time.Hour * h <= d < time.Hour * h + time.Hour) as Hh.
  { pose proof (Z.div_mod d time.Hour ltac:(discriminate)).
    pose proof (Z.mod_pos_bound d time.Hour ltac:(reflexivity)).
    fold h in H. lia. }
  assert (time.Minute * m <= d < time.Minute * m + time.Minute) as Hm.
  { pose proof (Z.div_mod d time.Minute ltac:(discriminate)).
    pose proof (Z.mod_pos_bound d time.Minute ltac:(reflexivity)).
    fold m in H. lia. }
  change time.Hour with 3600000000000 in Hh.
  change time.Minute with 60000000000 in Hm.
  destruct (Z.lt_ge_cases d 0) as [ Hneg | Hpos ].
  { assert (formatTimeAgo d = "только что") as Hnow.
    { apply formatTimeAgo_just_now;
        [ apply Hours_nonpos | apply Minutes_nonpos ]; lia. }
    repeat split; intros; first [ exact Hnow | lia ]. }
  assert (0 <= d <= maxInt64) as Hd by lia.
  pose proof (Hours_brackets d Hd) as Hb. fold h in Hb.
  destruct (formatTimeAgo_by_locals d)
    as (Hdays & H1 & H24 & H524 & Hm1 & Hm24 & Hm5 & Hnow).
  cbv zeta in Hdays, H1, H24, H524, Hm1, Hm24, Hm5, Hnow.
  assert (h < 1024 -> whole_hours d = h) as Hexact.
  { intros Hsmall. apply Hours_exact; [ exact Hd | ].
    change time.Hour with 3600000000000. lia. }
  assert (h <= 24 -> whole_minutes d = m mod 60) as Hmin.
  { intros Hsmall. apply Minutes_exact; [ exact Hd | ].
    change time.Minute with 60000000000. lia. }
  assert (h = 0 -> whole_minutes d = m) as Hmin0.
  { intros Hzero. rewrite Hmin by lia. apply Z.mod_small. lia. }
  assert (days = whole_hours d / 24) as Hquot.
  { subst days. apply Z.quot_div_nonneg; lia. }
  fold days in Hdays. clearbody h m days.
  assert (48 <= h -> 2 <= days) as Hdays2.
  { intros Hbig. rewrite Hquot. apply Z.div_le_lower_bound; lia. }
  repeat split.
  - intros Hh1. rewrite Hdays by lia.
    rewrite Hquot, Hexact by lia.
    rewrite <- (Z.div_unique h 24 1 (h - 24)) by lia. reflexivity.
  - rewrite Hdays by lia.
    destruct (Z.eqb_spec days 1) as [ Hone | _ ]; [ | reflexivity ].
    pose proof (Hdays2 ltac:(assumption)). lia.
  - apply Hdays2. assumption.
  - rewrite Hquot. apply Z.div_le_mono; lia.
  - rewrite Hquot. apply Z.div_le_mono; lia.
  - intros Hsmall. rewrite Hquot, Hexact by lia. reflexivity.
  - intros Hh1. apply H1. rewrite Hexact; lia.
  - intros Hh1. rewrite <- Hexact by lia. apply H24. rewrite Hexact; lia.
  - intros Hh1. rewrite <- Hexact by lia. apply H524. rewrite Hexact; lia.
  - intros Hh1 Hm1'. apply Hm1; [ rewrite Hexact | rewrite Hmin0 ]; lia.
  - intros Hh1 Hm1'. rewrite <- Hmin0 by lia.
    apply Hm24; [ rewrite Hexact | rewrite Hmin0 ]; lia.
  - rewrite <- Hmin0 by lia.
    apply Hm5; [ rewrite Hexact | rewrite Hmin0 ]; lia.
  - lia.
  - intros Hd1. change time.Minute with 60000000000 in Hd1.
    apply Hnow; [ rewrite Hexact | rewrite Hmin0 ]; lia.
Qed.

Lemma formatTimeAgo_buckets_witness :
  formatTimeAgo (47 * time.Hour + 59 * time.Minute) = "1 день назад"
  /\ formatTimeAgo (59 * time.Minute + 59 * time.Second)
     = "59 минут назад".
Proof.
  destruct formatTimeAgo_buckets as [Hall _].
  split.
  - destruct (Hall (47 * time.Hour + 59 * time.Minute)) as (Hday & _).
    + vm_compute. discriminate.
    + apply Hday. vm_compute. split; reflexivity.
  - destruct (Hall (59 * time.Minute + 59 * time.Second))
      as (_ & _ & _ & _ & _ & _ & _ & Hmin & _).
    + vm_compute. discriminate.
    + apply Hmin; vm_compute; [ reflexivity | discriminate ].
Defined.


(** ** The flag loop *)

Lemma stripFlags_loop_spec (fuel i : nat) (args : list string)
    (jsonOutput csvOutput : bool) :
  (length args - i <= fuel)%nat ->
  stripFlags_loop fuel i args jsonOutput csvOutput
    = (take i args ++ List.filter positional (drop i args),
       jsonOutput || existsb is_json_flag (drop i args),
       csvOutput || existsb is_csv_flag (drop i args)).
Proof.
  revert i args jsonOutput csvOutput.
  induction fuel as [ | fuel IH ]; intros i args jsonOutput csvOutput Hfuel.
  - rewrite drop_ge, take_ge by lia. cbn.
    now rewrite app_nil_r, !orb_false_r.
  - cbn [stripFlags_loop].
    destruct (args !! i) as [ a | ] eqn:Hlook.
    + pose proof (lookup_lt_Some _ _ _ Hlook) as Hlt.
      rewrite (drop_S _ _ _ Hlook).
      assert (take i (take i args ++ drop (S i) args) = take i args) as Htake.
      { apply take_app_length'. rewrite length_take_le; lia. }
      assert (drop i (take i args ++ drop (S i) args) = drop (S i) args)
        as Hdrop.
      { apply drop_app_length'. rewrite length_take_le; lia. }
      assert (length (take i args ++ drop (S i) args) - i <= fuel)%nat
        as Hshort.
      { rewrite length_app, length_take_le, length_drop by lia. lia. }
      cbn [List.filter existsb]. unfold positional at 1.
      destruct (is_json_flag a) eqn:Hjson.
      * rewrite IH, Htake, Hdrop by exact Hshort.
        apply String.eqb_eq in Hjson. subst a. cbn.
        now rewrite orb_true_r.
      * destruct (is_csv_flag a) eqn:Hcsv.
        -- rewrite IH, Htake, Hdrop by exact Hshort. cbn.
           now rewrite orb_true_r.
        -- rewrite IH by lia. rewrite (take_S_r _ _ _ Hlook). cbn.
           now rewrite <- app_assoc.
    + apply lookup_ge_None_1 in Hlook.
      rewrite drop_ge, take_ge by lia. cbn.
      now rewrite app_nil_r, !orb_false_r.
Qed.

(** The loop removes exactly the two flags, wherever they stand, keeps the
    other arguments in order, and reports which flags it saw. *)
Lemma stripFlags_spec (args : list string) :
  stripFlags args
    = (List.filter positional args,
       existsb is_json_flag args, existsb is_csv_flag args).
Proof.
  unfold stripFlags. rewrite stripFlags_loop_spec by lia.
  now rewrite drop_0, take_0.
Qed.

(** More fuel than the length of the list changes nothing. *)
Lemma stripFlags_fuel (fuel : nat) (args : list string) :
  (length args <= fuel)%nat ->
  stripFlags_loop fuel 0 args false false = stripFlags args.
Proof.
  intros Hfuel. unfold stripFlags.
  now rewrite !stripFlags_loop_spec by lia.
Qed.

(** ** Running the monad *)

Lemma bind_Returned {A B : Type} (c : M A) (k : A -> M B) (w w' : World)
    (a : A) :
  c w = Returned a w' -> bind c k w = k a w'.
Proof. intros H. unfold bind. now rewrite H. Qed.

Lemma outputs_nil (w : World) : outputs [] w = Returned tt w.
Proof. unfold outputs. rewrite app_nil_r. now destruct w. Qed.

Section Running.
Context {P : Platform}.

Lemma printHeader_outputs (w : World) :
  printHeader w = outputs header_events w.
Proof.
  unfold printHeader, outputs, bind, emit. cbn [trace with_trace].
  now rewrite <- !app_assoc.
Qed.

Lemma outputError_outputs (message : string) (asJSON : bool) (w : World) :
  outputError message asJSON w = outputs [error_event message asJSON] w.
Proof. unfold outputError, error_event. now destruct asJSON. Qed.

(** [loadConfig] returns, prints nothing and leaves the world as it was. *)
Lemma loadConfig_returns (w : World) :
  exists cfg : Config, loadConfig w = Returned cfg w.
Proof.
  unfold loadConfig, bind, os_ReadFile.
  destruct (fs w !! configFile) as [ f | ]; [ | now eexists ].
  destruct (f_readable f); now eexists.
Qed.

Lemma get_Args_returns (w : World) : get_Args w = Returned (os_Args w) w.
Proof. reflexivity. Qed.

(** [main] once the history command is excluded and the flags are read. *)
Lemma main_unfold (w : World) (cfg : Config) :
  history_command w = false ->
  loadConfig w = Returned cfg w ->
  main w =
    (let args := positionals w in
     let '(jsonOutput, csvOutput) :=
       main_format cfg (existsb is_json_flag (drop 1 (os_Args w)))
         (existsb is_csv_flag (drop 1 (os_Args w))) in
     (if negb jsonOutput && negb csvOutput then printHeader else ret tt) >>
     let* params :=
       main_params cfg (index (os_Args w) 0) args jsonOutput csvOutput in
     let '(fromCurrency, toCurrencyRaw, amount) := params in
     let toCurrencies := strings.Split toCurrencyRaw ","%char in
     (if negb jsonOutput && negb csvOutput then
        emit (Colored Cyan "🔄 Загрузка актуальных курсов валют..." [])
      else ret tt) >>
     let* r := getExchangeRates fromCurrency in
     match r with
     | Err err =>
         (if jsonOutput || csvOutput then
            outputError ("ошибка при получении курсов: " +:+ err) jsonOutput
          else
            emit (Colored Red "❌ Ошибка при получении курсов: %v" [AStr err])) >>
         os_Exit 1
     | Ok rates =>
         let updateTime := time.Unix (TimeLastUpdated rates) 0 in
         main_loop jsonOutput csvOutput fromCurrency amount rates updateTime
           toCurrencies
     end) w.
Proof.
  intros Hhist Hcfg. unfold main.
  rewrite (bind_Returned _ _ _ _ _ (get_Args_returns w)).
  unfold history_command in Hhist. rewrite Hhist.
  rewrite (bind_Returned _ _ _ _ _ Hcfg).
  rewrite stripFlags_spec. reflexivity.
Qed.

Lemma main_params_wrong_count (cfg : Config) (prog : string)
    (args : list string) (jsonOutput csvOutput : bool) (w : World) :
  length args <> 0%nat -> length args <> 3%nat ->
  exit_code (main_params cfg prog args jsonOutput csvOutput w) = 1.
Proof.
  intros H0 H3. unfold main_params.
  destruct (Nat.eqb_spec (length args) 3) as [ | _ ]; [ contradiction | ].
  destruct (Nat.eqb_spec (length args) 0) as [ | _ ]; [ contradiction | ].
  destruct (jsonOutput || csvOutput).
  - unfold bind. now rewrite outputError_outputs.
  - reflexivity.
Qed.

End Running.

Lemma exit_code_bind {A B : Type} (c : M A) (k : A -> M B) (w : World) :
  exit_code (c w) = 1 -> exit_code (bind c k w) = 1.
Proof.
  unfold bind. destruct (c w) as [ a w' | code w' ]; cbn; [ lia | auto ].
Qed.

(** ** Files *)

Lemma os_ReadFile_run (name : string) (w : World) :
  os_ReadFile name w = Returned (read_file w name) w.
Proof.
  unfold os_ReadFile, read_file.
  destruct (fs w !! name) as [ f | ]; [ | reflexivity ].
  now destruct (f_readable f).
Qed.

Lemma map_bytes_upper_no_lower (s : string) :
  strings.all_bytes (fun b => negb (is_lower_letter b))
    (strings.map_bytes strings.upper_byte s) = true.
Proof.
  induction s as [ | b s IH ]; [ reflexivity | ].
  cbn [strings.map_bytes strings.all_bytes]. rewrite IH, andb_true_r.
  clear. destruct b as [[] [] [] [] [] [] [] []]; reflexivity.
Qed.

Lemma map_bytes_lower_no_upper (s : string) :
  strings.all_bytes (fun b => negb (is_upper_letter b))
    (strings.map_bytes strings.lower_byte s) = true.
Proof.
  induction s as [ | b s IH ]; [ reflexivity | ].
  cbn [strings.map_bytes strings.all_bytes]. rewrite IH, andb_true_r.
  clear. destruct b as [[] [] [] [] [] [] [] []]; reflexivity.
Qed.

Section Files.
Context {P : Platform}.

Lemma loadConfig_run (w : World) :
  loadConfig w =
    Returned
      match read_file w configFile with
      | Err _ => defaultConfig
      | Ok data =>
          let cfg := fst (json_Unmarshal_Config data defaultConfig) in
          {| DefaultFrom := ToUpper (DefaultFrom cfg);
             DefaultTo := ToUpper (DefaultTo cfg);
             OutputFormat := ToLower (OutputFormat cfg) |}
      end w.
Proof.
  unfold loadConfig.
  rewrite (bind_Returned _ _ _ _ _ (os_ReadFile_run configFile w)).
  now destruct (read_file w configFile).
Qed.

(** C7, as the code has it: [loadConfig] returns the defaults when the
    file is missing or unreadable, and when decoding fails without having
    changed a field; otherwise what the decoder left of the defaults is
    returned, upper-cased and lower-cased: the fields it set replace the
    defaults, also when it reports an error, and the others keep them.  In
    every case the from and to fields are the result of upper-casing and
    the format field of lower-casing; for ASCII text that leaves no
    lower-case (upper-case) letter. *)
Theorem loadConfig_defaults :
  (forall (w : World) (msg : string),
     read_file w configFile = Err msg ->
     loadConfig w = Returned defaultConfig w)
  /\ (forall (w : World) (data : string) (err : error),
        read_file w configFile = Ok data ->
        json_Unmarshal_Config data defaultConfig = (defaultConfig, err) ->
        loadConfig w = Returned defaultConfig w)
  /\ (forall (w : World) (data : string) (cfg : Config) (err : error),
        read_file w configFile = Ok data ->
        json_Unmarshal_Config data defaultConfig = (cfg, err) ->
        loadConfig w
          = Returned
              {| DefaultFrom := ToUpper (DefaultFrom cfg);
                 DefaultTo := ToUpper (DefaultTo cfg);
                 OutputFormat := ToLower (OutputFormat cfg) |} w)
  /\ (forall w : World,
        exists cfg : Config,
          loadConfig w = Returned cfg w
          /\ upper_cased (DefaultFrom cfg)
          /\ upper_cased (DefaultTo cfg)
          /\ lower_cased (OutputFormat cfg))
  /\ (forall raw : string,
        strings.all_bytes strings.is_ascii raw = true ->
        strings.all_bytes (fun b => negb (is_lower_letter b)) (ToUpper raw)
          = true
        /\ strings.all_bytes (fun b => negb (is_upper_letter b)) (ToLower raw)
          = true).
Proof.
  split; [ | split; [ | split; [ | split ] ] ].
  - intros w msg Hread. rewrite loadConfig_run. now rewrite Hread.
  - intros w data err Hread Hdec. rewrite loadConfig_run, Hread, Hdec.
    reflexivity.
  - intros w data cfg err Hread Hdec. rewrite loadConfig_run, Hread, Hdec.
    reflexivity.
  - intros w. rewrite loadConfig_run.
    destruct (read_file w configFile) as [ data | msg ].
    + eexists. split; [ reflexivity | ]. cbn.
      repeat split; eexists; reflexivity.
    + exists defaultConfig. split; [ reflexivity | ].
      repeat split; [ exists "USD" | exists "RUB" | exists "text" ];
        reflexivity.
  - intros raw Hascii. unfold ToUpper, ToLower, strings.ToUpper, strings.ToLower.
    rewrite Hascii.
    split; [ apply map_bytes_upper_no_lower | apply map_bytes_lower_no_upper ].
Qed.

End Files.

Lemma loadConfig_partial_decode :
  read_file (Demo.world [] {[ configFile := Demo.file Demo.config_partial ]})
    configFile = Ok Demo.config_partial
  /\ snd (json_Unmarshal_Config (Platform := Demo.platform)
            Demo.config_partial defaultConfig)
     = Some "json: cannot unmarshal number into Go struct field Config.default_to of type string"
  /\ loadConfig (P := Demo.platform)
       (Demo.world [] {[ configFile := Demo.file Demo.config_partial ]})
     = Returned
         {| DefaultFrom := "EUR"; DefaultTo := "RUB"; OutputFormat := "text" |}
         (Demo.world [] {[ configFile := Demo.file Demo.config_partial ]}).
Proof. repeat split; vm_compute; reflexivity. Qed.

(** ** The history store *)

Lemma os_WriteFile_run (name data : string) (w : World) :
  os_WriteFile name data w =
    if can_write w name then Returned None (written w name data)
    else Returned (Some "permission denied") (refused w name data).
Proof.
  unfold os_WriteFile, can_write, written, refused.
  destruct (fs w !! name) as [ f | ].
  - now destruct (f_writable f).
  - now destruct (dir_writable w).
Qed.

Lemma outputs_at (evs1 evs2 : list Event) (w : World) :
  outputs evs2 (with_trace w (trace w ++ evs1)) = outputs (evs1 ++ evs2) w.
Proof. unfold outputs. cbn [trace with_trace]. now rewrite app_assoc. Qed.

Section History.
Context {P : Platform}.

(** One append: the clock is read, the file is read, the new record goes
    behind what the decoder left, and the file is replaced if the encoder and
    the file system allow it. *)
Lemma saveToHistory_run (from to : string) (amount result rate : float64)
    (updateTime : time.Time) (w : World) :
  saveToHistory from to amount result rate updateTime w =
    let w1 := with_ticks w (S (ticks w)) in
    let record :=
      newRecord (clock w (ticks w)) from to amount result rate updateTime in
    match json_MarshalIndent_History (existing_history w ++ [record]) with
    | Err _ => Returned tt w1
    | Ok data =>
        Returned tt
          (if can_write w historyFile then written w1 historyFile data
           else refused w1 historyFile data)
    end.
Proof.
  unfold saveToHistory, time_Now. unfold bind at 1.
  rewrite (bind_Returned _ _ _ _ _ (os_ReadFile_run historyFile _)).
  change (read_file (with_ticks w (S (ticks w))) historyFile)
    with (read_file w historyFile).
  unfold existing_history. cbn zeta.
  destruct (read_file w historyFile) as [ data | msg ].
  - destruct (json_MarshalIndent_History _) as [ text | err ];
      [ | reflexivity ].
    unfold bind. rewrite os_WriteFile_run.
    change (can_write (with_ticks w (S (ticks w))) historyFile)
      with (can_write w historyFile).
    now destruct (can_write w historyFile).
  - destruct (json_MarshalIndent_History _) as [ text | err ];
      [ | reflexivity ].
    unfold bind. rewrite os_WriteFile_run.
    change (can_write (with_ticks w (S (ticks w))) historyFile)
      with (can_write w historyFile).
    now destruct (can_write w historyFile).
Qed.

Lemma showRecord_outputs (rec : ConversionRecord) (w : World) :
  showRecord rec w = outputs (record_events rec) w.
Proof.
  unfold showRecord, outputs, bind, emit. cbn [trace with_trace].
  now rewrite <- !app_assoc.
Qed.

Lemma showHistory_loop_outputs (n : nat) (h : list ConversionRecord)
    (w : World) :
  (n <= length h)%nat ->
  showHistory_loop n h w
    = outputs (concat (List.map record_events (rev (take n h)))) w.
Proof.
  revert w. induction n as [ | i IH ]; intros w Hn.
  - cbn. now rewrite outputs_nil.
  - cbn [showHistory_loop].
    destruct (h !! i) as [ rec | ] eqn:Hlook.
    + rewrite (take_S_r _ _ _ Hlook), rev_unit. cbn [List.map concat].
      unfold bind. rewrite showRecord_outputs. unfold outputs at 1.
      rewrite IH by lia. apply outputs_at.
    + apply lookup_ge_None_1 in Hlook. lia.
Qed.

Lemma showHistory_listing (h : list ConversionRecord) (w : World) :
  history_is w h -> h <> [] ->
  showHistory w = outputs (history_listing h) w.
Proof.
  intros (data & Hread & Hdec) Hne. unfold showHistory.
  rewrite (bind_Returned _ _ _ _ _ (os_ReadFile_run historyFile w)).
  rewrite Hread, Hdec.
  destruct h as [ | r h ]; [ contradiction | ].
  cbn [length Nat.eqb].
  change (S (length h)) with (length (r :: h)).
  generalize (r :: h). intros l.
  unfold bind, emit. cbn [trace with_trace].
  rewrite showHistory_loop_outputs by lia.
  rewrite firstn_all. unfold outputs, history_listing.
  cbn [trace with_trace]. f_equal. f_equal.
  now rewrite <- !app_assoc.
Qed.

Lemma showHistory_empty (w : World) :
  history_is w [] ->
  showHistory w
    = outputs [Colored Yellow "📝 История конвертаций пуста" []] w.
Proof.
  intros (data & Hread & Hdec). unfold showHistory.
  rewrite (bind_Returned _ _ _ _ _ (os_ReadFile_run historyFile w)).
  now rewrite Hread, Hdec.
Qed.

Lemma showHistory_unreadable (w : World) (msg : string) :
  read_file w historyFile = Err msg ->
  showHistory w
    = outputs
        [Colored Red "❌ История конвертаций пуста или файл не найден" []] w.
Proof.
  intros Hread. unfold showHistory.
  rewrite (bind_Returned _ _ _ _ _ (os_ReadFile_run historyFile w)).
  now rewrite Hread.
Qed.

Lemma showHistory_undecodable (w : World) (data err : string)
    (h : list ConversionRecord) :
  read_file w historyFile = Ok data ->
  json_Unmarshal_History data = (h, Some err) ->
  showHistory w
    = outputs
        [Colored Red "❌ Ошибка чтения файла истории: %v" [AStr err]] w.
Proof.
  intros Hread Hdec. unfold showHistory.
  rewrite (bind_Returned _ _ _ _ _ (os_ReadFile_run historyFile w)).
  now rewrite Hread, Hdec.
Qed.

(** [showHistory] returns in each of its four cases. *)
Lemma showHistory_status (w : World) : exit_code (showHistory w) = 0.
Proof.
  destruct (read_file w historyFile) as [ data | msg ] eqn:Hread.
  - destruct (json_Unmarshal_History data) as [ h [ err | ] ] eqn:Hdec.
    + now rewrite (showHistory_undecodable w data err h Hread Hdec).
    + assert (history_is w h) as Hh by now exists data.
      destruct h as [ | r h ].
      * now rewrite (showHistory_empty w Hh).
      * now rewrite (showHistory_listing (r :: h) w Hh).
  - now rewrite (showHistory_unreadable w msg Hread).
Qed.

(** One append by what [os.ReadFile] gave and what the decoder left: the
    encoding of the records kept, followed by the new one, replaces the
    file. *)
Lemma saveToHistory_unreadable (from to : string)
    (amount result rate : float64) (updateTime : time.Time) (w : World)
    (msg : string) :
  read_file w historyFile = Err msg ->
  saveToHistory from to amount result rate updateTime w =
    let w1 := with_ticks w (S (ticks w)) in
    let record :=
      newRecord (clock w (ticks w)) from to amount result rate updateTime in
    match json_MarshalIndent_History [record] with
    | Err _ => Returned tt w1
    | Ok data =>
        Returned tt
          (if can_write w historyFile then written w1 historyFile data
           else refused w1 historyFile data)
    end.
Proof.
  intros Hread. rewrite saveToHistory_run. unfold existing_history.
  now rewrite Hread.
Qed.

Lemma saveToHistory_decoded (from to : string)
    (amount result rate : float64) (updateTime : time.Time) (w : World)
    (old : string) (kept : list ConversionRecord) (err : error) :
  read_file w historyFile = Ok old ->
  json_Unmarshal_History old = (kept, err) ->
  saveToHistory from to amount result rate updateTime w =
    let w1 := with_ticks w (S (ticks w)) in
    let record :=
      newRecord (clock w (ticks w)) from to amount result rate updateTime in
    match json_MarshalIndent_History (kept ++ [record]) with
    | Err _ => Returned tt w1
    | Ok data =>
        Returned tt
          (if can_write w historyFile then written w1 historyFile data
           else refused w1 historyFile data)
    end.
Proof.
  intros Hread Hdec. rewrite saveToHistory_run. unfold existing_history.
  now rewrite Hread, Hdec.
Qed.

End History.

(** ** Arguments *)

(** C8, as the code has it: unless the first argument is [--history], the
    flags [--json] and [--csv] are recognised at any position and removed
    before the positional arguments are counted; with [--json] present the
    JSON presenter is used whether or not [--csv] is present too; no
    positional argument leads to the prompts, three are taken as from,
    to-list and amount, and any other count ends the process with status
    1; [main] hands the arguments that are left to that step.  With
    [--history] first, whatever follows, [main] is [showHistory]: it lists
    the history (a history of records from the last to the first with the
    count, and a line in place of the list for an empty, unreadable or
    undecodable file) and the process ends with status 0. *)
Theorem main_arguments {P : Platform} :
  (forall args : list string,
     stripFlags args
       = (List.filter positional args,
          existsb is_json_flag args, existsb is_csv_flag args))
  /\ (forall (cfg : Config) (csvOutput : bool),
        main_format cfg true csvOutput = (true, csvOutput))
  /\ (forall (csvOutput : bool) (cfg : Config) (prog : string)
             (args : list string),
        main_params cfg prog args true csvOutput
          = main_params cfg prog args true false)
  /\ (forall (csvOutput : bool) (from : string) (amount : float64)
             (rates : ExchangeRateResponse) (updateTime : time.Time)
             (targets : list string),
        main_loop true csvOutput from amount rates updateTime targets
          = main_loop true false from amount rates updateTime targets)
  /\ (forall (cfg : Config) (prog : string) (jsonOutput csvOutput : bool),
        main_params cfg prog [] jsonOutput csvOutput =
          (let* fromCurrency :=
             getInput ("Введите исходную валюту (по умолчанию "
                       +:+ DefaultFrom cfg +:+ "): ") in
           let fromCurrency :=
             if String.eqb fromCurrency EmptyString then DefaultFrom cfg
             else fromCurrency in
           let* toCurrencyRaw :=
             getInput ("Введите целевую валюту (по умолчанию "
                       +:+ DefaultTo cfg +:+ "): ") in
           let toCurrencyRaw :=
             if String.eqb toCurrencyRaw EmptyString then DefaultTo cfg
             else toCurrencyRaw in
           let* amount := getAmount "Введите сумму для конвертации: " in
           ret (fromCurrency, toCurrencyRaw, amount)))
  /\ (forall (cfg : Config) (prog from to amount : string)
             (jsonOutput csvOutput : bool) (w : World),
        match strconv_ParseFloat amount with
        | Ok x =>
            main_params cfg prog [from; to; amount] jsonOutput csvOutput w
              = Returned (ToUpper from, ToUpper to, x) w
        | Err _ =>
            exit_code
              (main_params cfg prog [from; to; amount] jsonOutput csvOutput w)
              = 1
        end)
  /\ (forall w : World,
        history_command w = false ->
        length (positionals w) <> 0%nat ->
        length (positionals w) <> 3%nat ->
        exit_code (main w) = 1)
  /\ (forall (w : World) (cfg : Config),
        history_command w = false ->
        loadConfig w = Returned cfg w ->
        main w =
          (let args := positionals w in
           let '(jsonOutput, csvOutput) :=
             main_format cfg (existsb is_json_flag (drop 1 (os_Args w)))
               (existsb is_csv_flag (drop 1 (os_Args w))) in
           (if negb jsonOutput && negb csvOutput then printHeader
            else ret tt) >>
           let* params :=
             main_params cfg (index (os_Args w) 0) args jsonOutput
               csvOutput in
           let '(fromCurrency, toCurrencyRaw, amount) := params in
           let toCurrencies := strings.Split toCurrencyRaw ","%char in
           (if negb jsonOutput && negb csvOutput then
              emit (Colored Cyan "🔄 Загрузка актуальных курсов валют..." [])
            else ret tt) >>
           let* r := getExchangeRates fromCurrency in
           match r with
           | Err err =>
               (if jsonOutput || csvOutput then
                  outputError ("ошибка при получении курсов: " +:+ err)
                    jsonOutput
                else
                  emit (Colored Red "❌ Ошибка при получении курсов: %v"
                          [AStr err])) >>
               os_Exit 1
           | Ok rates =>
               let updateTime := time.Unix (TimeLastUpdated rates) 0 in
               main_loop jsonOutput csvOutput fromCurrency amount rates
                 updateTime toCurrencies
           end) w)
  /\ (forall w : World,
        history_command w = true ->
        main w = showHistory w
        /\ exit_code (main w) = 0
        /\ (forall h : list ConversionRecord,
              history_is w h -> h <> [] ->
              main w = outputs (history_listing h) w)
        /\ (history_is w [] ->
            main w
              = outputs [Colored Yellow "📝 История конвертаций пуста" []] w)
        /\ (forall msg : string,
              read_file w historyFile = Err msg ->
              main w
                = outputs
                    [Colored Red
                       "❌ История конвертаций пуста или файл не найден" []]
                    w)
        /\ (forall (data err : string) (h : list ConversionRecord),
              read_file w historyFile = Ok data ->
              json_Unmarshal_History data = (h, Some err) ->
              main w
                = outputs
                    [Colored Red "❌ Ошибка чтения файла истории: %v"
                       [AStr err]]
                    w)).
Proof.
  split; [ exact stripFlags_spec | ].
  split; [ reflexivity | ].
  split; [ reflexivity | ].
  split.
  { intros csvOutput from amount rates updateTime targets.
    induction targets as [ | t targets IH ]; [ reflexivity | ].
    cbn [main_loop]. now rewrite IH. }
  split; [ reflexivity | ].
  split.
  { intros cfg prog from to amount jsonOutput csvOutput w.
    unfold main_params. cbn [length Nat.eqb index nth].
    destruct (strconv_ParseFloat amount) as [ x | err ]; [ reflexivity | ].
    destruct (jsonOutput || csvOutput).
    - unfold bind. now rewrite outputError_outputs.
    - reflexivity. }
  split.
  { intros w Hhist H0 H3.
    destruct (loadConfig_returns w) as [cfg Hcfg].
    rewrite (main_unfold w cfg Hhist Hcfg). cbn zeta.
    destruct (main_format cfg _ _) as [jsonOutput csvOutput].
    destruct (negb jsonOutput && negb csvOutput).
    - unfold bind at 1. rewrite printHeader_outputs. unfold outputs.
      apply exit_code_bind. now apply main_params_wrong_count.
    - unfold bind at 1. unfold ret.
      apply exit_code_bind. now apply main_params_wrong_count. }
  split; [ exact main_unfold | ].
  intros w Hhist.
  assert (main w = showHistory w) as Hmain.
  { unfold main. rewrite (bind_Returned _ _ _ _ _ (get_Args_returns w)).
    unfold history_command in Hhist. now rewrite Hhist. }
  rewrite Hmain.
  split; [ reflexivity | ].
  split; [ apply showHistory_status | ].
  split; [ intros h; apply showHistory_listing | ].
  split; [ apply showHistory_empty | ].
  split; [ apply showHistory_unreadable | apply showHistory_undecodable ].
Qed.

Lemma main_arguments_history_command :
  positionals (Demo.world ["--history"] ∅) = ["--history"]
  /\ length (positionals (Demo.world ["--history"] ∅)) = 1%nat
  /\ exit_code (main (P := Demo.platform) (Demo.world ["--history"] ∅)) = 0.
Proof. repeat split; vm_compute; reflexivity. Qed.

(** C6, as the code has it: [loadConfig] and [saveToHistory] absorb read
    and parse errors without a word: [loadConfig] returns with the world
    unchanged (the defaults when the file cannot be read), [saveToHistory]
    returns having at most attempted one write of the history file; when
    the file cannot be read or nothing was decoded it takes the existing
    history as empty: what it encodes and writes is the new record alone.
    [showHistory] does tell the user: a read failure and a parse
    failure each print a message in red, the latter with the decoder's
    error. *)
Theorem file_errors_absorbed {P : Platform} :
  (forall w : World,
     exists cfg : Config,
       loadConfig w = Returned cfg w
       /\ ((exists msg, read_file w configFile = Err msg) ->
           cfg = defaultConfig))
  /\ (forall (from to : string) (amount result rate : float64)
             (updateTime : time.Time) (w : World),
        exists w' : World,
          saveToHistory from to amount result rate updateTime w
            = Returned tt w'
          /\ (trace w' = trace w
              \/ exists (data : string) (ok : bool),
                   trace w' = trace w ++ [WriteFile historyFile data ok]))
  /\ (forall (from to : string) (amount result rate : float64)
             (updateTime : time.Time) (w : World),
        (exists msg, read_file w historyFile = Err msg)
        \/ (exists data err,
              read_file w historyFile = Ok data
              /\ json_Unmarshal_History data = ([], err)) ->
        let w1 := with_ticks w (S (ticks w)) in
        let record :=
          newRecord (clock w (ticks w)) from to amount result rate
            updateTime in
        saveToHistory from to amount result rate updateTime w
          = match json_MarshalIndent_History [record] with
            | Err _ => Returned tt w1
            | Ok text =>
                Returned tt
                  (if can_write w historyFile
                   then written w1 historyFile text
                   else refused w1 historyFile text)
            end)
  /\ (forall (w : World) (msg : string),
        read_file w historyFile = Err msg ->
        showHistory w
          = outputs
              [Colored Red "❌ История конвертаций пуста или файл не найден" []]
              w)
  /\ (forall (w : World) (data err : string) (h : list ConversionRecord),
        read_file w historyFile = Ok data ->
        json_Unmarshal_History data = (h, Some err) ->
        showHistory w
          = outputs
              [Colored Red "❌ Ошибка чтения файла истории: %v" [AStr err]] w).
Proof.
  repeat apply conj.
  - intros w. rewrite loadConfig_run. eexists. split; [ reflexivity | ].
    intros [msg Hread]. now rewrite Hread.
  - intros from to amount result rate updateTime w.
    rewrite saveToHistory_run. cbn zeta.
    destruct (json_MarshalIndent_History _) as [ data | err ].
    + eexists. split; [ reflexivity | ]. right. exists data.
      destruct (can_write w historyFile); [ exists true | exists false ];
        reflexivity.
    + eexists. split; [ reflexivity | ]. now left.
  - intros from to amount result rate updateTime w
      [ [msg Hread] | (data & err & Hread & Hdec) ] w1 record.
    + exact (saveToHistory_unreadable _ _ _ _ _ _ w msg Hread).
    + exact (saveToHistory_decoded _ _ _ _ _ _ w data [] err Hread Hdec).
  - exact showHistory_unreadable.
  - exact showHistory_undecodable.
Qed.

Lemma showHistory_surfaces_parse_error :
  read_file (Demo.world ["--history"] {[ historyFile := Demo.file Demo.not_json ]})
    historyFile = Ok Demo.not_json
  /\ json_Unmarshal_History (Platform := Demo.platform) Demo.not_json
     = ([], Some "invalid character 'o' in literal null (expecting 'u')")
  /\ trace
       (final_world
          (main (P := Demo.platform)
             (Demo.world ["--history"]
                {[ historyFile := Demo.file Demo.not_json ]})))
     = [Colored Red "❌ Ошибка чтения файла истории: %v"
          [AStr "invalid character 'o' in literal null (expecting 'u')"]].
Proof. repeat split; vm_compute; reflexivity. Qed.

(** ** Appending and listing *)

Section Append.
Context {P : Platform}.

Lemma read_file_written (w : World) (data : string) :
  (exists old, read_file w historyFile = Ok old) ->
  read_file (written w historyFile data) historyFile = Ok data.
Proof.
  intros [old Hread]. unfold read_file, written in *. cbn [fs with_trace with_fs].
  rewrite lookup_insert_eq.
  destruct (fs w !! historyFile) as [ f | ]; [ | discriminate ].
  cbn. now destruct (f_readable f).
Qed.

Lemma can_write_written (w : World) (data : string) :
  can_write (written w historyFile data) historyFile = true.
Proof.
  unfold can_write, written. cbn [fs with_trace with_fs].
  now rewrite lookup_insert_eq.
Qed.

Lemma saveAll_appends (items : list Conversion) :
  forall (w : World) (prior : list ConversionRecord),
    history_is w prior ->
    can_write w historyFile = true ->
    (forall k : nat,
       (1 <= k <= length items)%nat ->
       round_trips (prior ++ take k (records_of (clock w) (ticks w) items))) ->
    exists w' : World,
      saveAll items w = Returned tt w'
      /\ history_is w' (prior ++ records_of (clock w) (ticks w) items)
      /\ can_write w' historyFile = true.
Proof.
  induction items as [ | c rest IH ]; intros w prior Hinit Hwrite Hround.
  - exists w. cbn. rewrite app_nil_r. auto.
  - cbn [saveAll records_of].
    set (record := newRecord (clock w (ticks w)) (cv_from c) (cv_to c)
                     (cv_amount c) (cv_result c) (cv_rate c)
                     (cv_updateTime c)).
    destruct (Hround 1%nat) as (data & Henc & Hdec); [ cbn; lia | ].
    cbn [records_of] in Henc, Hdec. rewrite firstn_cons, take_0 in Henc, Hdec.
    fold record in Henc, Hdec.
    assert (existing_history w = prior) as Hexisting.
    { destruct Hinit as (old & Hread & Hold). unfold existing_history.
      now rewrite Hread, Hold. }
    unfold bind. rewrite saveToHistory_run. cbn zeta. fold record.
    rewrite Hexisting, Henc, Hwrite.
    set (w1 := written (with_ticks w (S (ticks w))) historyFile data).
    assert (history_is w1 (prior ++ [record])) as Hinit1.
    { exists data. split; [ | exact Hdec ].
      apply read_file_written. destruct Hinit as (old & Hread & _).
      now exists old. }
    destruct (IH w1 (prior ++ [record]) Hinit1 (can_write_written _ _))
      as (w' & Hrun & Hfinal & Hw').
    { intros k Hk. rewrite <- app_assoc. cbn [app].
      change (clock w1) with (clock w). change (ticks w1) with (S (ticks w)).
      apply (Hround (S k)). cbn [length]. lia. }
    exists w'. split; [ exact Hrun | ]. split; [ | exact Hw' ].
    rewrite <- app_assoc in Hfinal. exact Hfinal.
Qed.

End Append.

(** C5, as the code has it: from a well-formed history file that can be
    written, if each successive history is accepted by the encoder and its
    text decodes back to it, appending N records with [saveToHistory] and
    reading the file back gives the prior records followed by the N new
    ones in the order of the calls; [showHistory] then prints the records
    from the last to the first, followed by the count, unless the history
    is empty, which it reports as such.  A read failure during an append
    counts as an empty history, and so does a decoding that stored
    nothing: the file then holds the encoding of the new record alone.
    Records that the decoder stored, also before an error, are kept: the
    file then holds the encoding of those records followed by the new
    one. *)
Theorem history_append {P : Platform} :
  forall (w : World) (prior : list ConversionRecord)
         (items : list Conversion),
    history_is w prior ->
    can_write w historyFile = true ->
    (forall k : nat,
       (1 <= k <= length items)%nat ->
       round_trips (prior ++ take k (records_of (clock w) (ticks w) items))) ->
    let news := records_of (clock w) (ticks w) items in
    let w' := final_world (saveAll items w) in
    saveAll items w = Returned tt w'
    /\ history_is w' (prior ++ news)
    /\ (prior ++ news <> [] ->
        showHistory w' = outputs (history_listing (prior ++ news)) w')
    /\ (prior ++ news = [] ->
        showHistory w'
          = outputs [Colored Yellow "📝 История конвертаций пуста" []] w')
    /\ (forall (from to : string) (amount result rate : float64)
               (updateTime : time.Time) (w0 : World) (text : string),
          (exists msg, read_file w0 historyFile = Err msg)
          \/ (exists data err,
                read_file w0 historyFile = Ok data
                /\ json_Unmarshal_History data = ([], err)) ->
          can_write w0 historyFile = true ->
          json_MarshalIndent_History
            [newRecord (clock w0 (ticks w0)) from to amount result rate
               updateTime] = Ok text ->
          let w1 :=
            written (with_ticks w0 (S (ticks w0))) historyFile text in
          saveToHistory from to amount result rate updateTime w0
            = Returned tt w1
          /\ (f_data <$> fs w1 !! historyFile) = Some text
          /\ (read_file w0 historyFile <> Err "permission denied" ->
              read_file w1 historyFile = Ok text))
    /\ (forall (from to : string) (amount result rate : float64)
               (updateTime : time.Time) (w0 : World) (data text : string)
               (kept : list ConversionRecord) (err : error),
          read_file w0 historyFile = Ok data ->
          json_Unmarshal_History data = (kept, err) ->
          can_write w0 historyFile = true ->
          json_MarshalIndent_History
            (kept
             ++ [newRecord (clock w0 (ticks w0)) from to amount result rate
                   updateTime]) = Ok text ->
          let w1 :=
            written (with_ticks w0 (S (ticks w0))) historyFile text in
          saveToHistory from to amount result rate updateTime w0
            = Returned tt w1
          /\ read_file w1 historyFile = Ok text).
Proof.
  intros w prior items Hinit Hwrite Hround news w'.
  destruct (saveAll_appends items w prior Hinit Hwrite Hround)
    as (w1 & Hrun & Hfinal & _).
  assert (w' = w1) as -> by (subst w'; now rewrite Hrun).
  split; [ exact Hrun | ]. split; [ exact Hfinal | ].
  split; [ intros Hne; now apply showHistory_listing | ].
  split.
  - intros Hnil. apply showHistory_empty. fold news in Hfinal.
    now rewrite Hnil in Hfinal.
  - split.
    + intros from to amount result rate updateTime w0 text Hnone Hw0 Henc w2.
      assert (saveToHistory from to amount result rate updateTime w0
              = Returned tt w2) as Hsave.
      { destruct Hnone as [ [msg Hread] | (data & err & Hread & Hdec) ].
        - rewrite (saveToHistory_unreadable _ _ _ _ _ _ w0 msg Hread).
          cbn zeta. now rewrite Henc, Hw0.
        - rewrite (saveToHistory_decoded _ _ _ _ _ _ w0 data [] err
                     Hread Hdec).
          cbn zeta. cbn [app]. now rewrite Henc, Hw0. }
      split; [ exact Hsave | ].
      split.
      * subst w2. unfold written. cbn [fs with_trace with_fs with_ticks].
        now rewrite lookup_insert_eq.
      * intros Hperm. subst w2. unfold read_file, written in *.
        cbn [fs with_trace with_fs with_ticks] in *.
        rewrite lookup_insert_eq. cbn [f_readable f_data].
        destruct (fs w0 !! historyFile) as [ f | ]; [ | reflexivity ].
        destruct (f_readable f); [ reflexivity | contradiction ].
    + intros from to amount result rate updateTime w0 data text kept err
        Hread Hdec Hw0 Henc w2.
      split.
      * rewrite (saveToHistory_decoded _ _ _ _ _ _ w0 data kept err
                   Hread Hdec).
        cbn zeta. now rewrite Henc, Hw0.
      * subst w2. apply read_file_written.
        exists data. exact Hread.
Qed.

Lemma history_append_witness :
  history_is (P := Demo.platform)
    (final_world
       (saveAll (P := Demo.platform) [Demo.conv_RUB; Demo.conv_EUR]
          (Demo.world [] {[ historyFile := Demo.file Demo.history_old ]})))
    [Demo.rec_old; Demo.rec_RUB; Demo.rec_EUR1].
Proof.
  refine (proj1 (proj2
    (history_append (P := Demo.platform)
       (Demo.world [] {[ historyFile := Demo.file Demo.history_old ]})
       [Demo.rec_old] [Demo.conv_RUB; Demo.conv_EUR] _ _ _))).
  - exists Demo.history_old. split; vm_compute; reflexivity.
  - vm_compute. reflexivity.
  - intros [ | [ | [ | k ] ] ] Hk; cbn in Hk; try lia.
    + exists Demo.history_old_RUB. split; vm_compute; reflexivity.
    + exists Demo.history_old_RUB_EUR1. split; vm_compute; reflexivity.
Defined.

(** Three appends that do not add the record to what was there: a history
    file that may not be written, an amount the encoder rejects, and a file
    whose decoding failed after it had stored a record. *)
Lemma history_append_not_additive :
  (history_is (P := Demo.platform)
     (Demo.world [] {[ historyFile := Demo.read_only "[]" ]}) []
   /\ round_trips (P := Demo.platform) [Demo.rec_RUB]
   /\ read_file
        (final_world
           (saveAll (P := Demo.platform) [Demo.conv_RUB]
              (Demo.world [] {[ historyFile := Demo.read_only "[]" ]})))
        historyFile = Ok "[]")
  /\ (history_is (P := Demo.platform)
        (Demo.world [] {[ historyFile := Demo.file "[]" ]}) []
      /\ trace
           (final_world
              (saveAll (P := Demo.platform) [Demo.conv_inf]
                 (Demo.world [] {[ historyFile := Demo.file "[]" ]})))
         = []
      /\ read_file
           (final_world
              (saveAll (P := Demo.platform) [Demo.conv_inf]
                 (Demo.world [] {[ historyFile := Demo.file "[]" ]})))
           historyFile = Ok "[]")
  /\ (json_Unmarshal_History (Platform := Demo.platform) Demo.text_torn
      = ([Demo.rec_torn],
         Some "json: cannot unmarshal string into Go struct field ConversionRecord.amount of type float64")
      /\ read_file
           (final_world
              (saveAll (P := Demo.platform) [Demo.conv_RUB]
                 (Demo.world [] {[ historyFile := Demo.file Demo.text_torn ]})))
           historyFile = Ok Demo.history_torn_RUB
      /\ json_Unmarshal_History (Platform := Demo.platform)
           Demo.history_torn_RUB
         = ([Demo.rec_torn; Demo.rec_RUB], None)).
Proof.
  unfold history_is, round_trips.
  split; [ | split ].
  - split; [ | split ].
    + exists "[]". split; vm_compute; reflexivity.
    + exists Demo.history_RUB. split; vm_compute; reflexivity.
    + vm_compute. reflexivity.
  - split; [ | split ].
    + exists "[]". split; vm_compute; reflexivity.
    + vm_compute. reflexivity.
    + vm_compute. reflexivity.
  - split; [ | split ]; vm_compute; reflexivity.
Qed.

(** ** Events of a run *)

Section Emits.
Context {A B : Type} (Q : Event -> Prop).

Lemma emits_ret (a : A) : emits Q (ret a).
Proof. intros w. exists []. cbn. now rewrite app_nil_r. Qed.

Lemma emits_bind (c : M A) (k : A -> M B) :
  emits Q c -> (forall a, emits Q (k a)) -> emits Q (bind c k).
Proof.
  intros Hc Hk w. unfold bind.
  destruct (Hc w) as (evs1 & Htr1 & HQ1).
  destruct (c w) as [ a w1 | code w1 ]; cbn [final_world] in *.
  - destruct (Hk a w1) as (evs2 & Htr2 & HQ2).
    exists (evs1 ++ evs2). split.
    + now rewrite Htr2, Htr1, app_assoc.
    + now apply Forall_app.
  - now exists evs1.
Qed.

(** The same, when the continuation may rely on a fact about the value
    that the first computation returns. *)
Lemma emits_bind_post (R : A -> Prop) (c : M A) (k : A -> M B) :
  (forall w a w', c w = Returned a w' -> R a) ->
  emits Q c -> (forall a, R a -> emits Q (k a)) -> emits Q (bind c k).
Proof.
  intros HR Hc Hk w. unfold bind.
  destruct (Hc w) as (evs1 & Htr1 & HQ1).
  destruct (c w) as [ a w1 | code w1 ] eqn:Hrun; cbn [final_world] in *.
  - destruct (Hk a (HR w a w1 Hrun) w1) as (evs2 & Htr2 & HQ2).
    exists (evs1 ++ evs2). split.
    + now rewrite Htr2, Htr1, app_assoc.
    + now apply Forall_app.
  - now exists evs1.
Qed.

Lemma emits_os_Exit (code : Z) : emits Q (os_Exit (A := A) code).
Proof. intros w. exists []. cbn. now rewrite app_nil_r. Qed.

End Emits.

Lemma emits_weaken {A : Type} (Q Q' : Event -> Prop) (c : M A) :
  (forall e, Q e -> Q' e) -> emits Q c -> emits Q' c.
Proof.
  intros Himp Hc w. destruct (Hc w) as (evs & Htr & HQ).
  exists evs. split; [ exact Htr | ].
  eapply Forall_impl; [ exact HQ | exact Himp ].
Qed.

Lemma emits_emit (Q : Event -> Prop) (e : Event) : Q e -> emits Q (emit e).
Proof. intros HQ w. exists [e]. split; [ reflexivity | now constructor ]. Qed.

Lemma emits_get_Args (Q : Event -> Prop) : emits Q get_Args.
Proof. intros w. exists []. cbn. now rewrite app_nil_r. Qed.

Lemma emits_os_ReadFile (Q : Event -> Prop) (name : string) :
  emits Q (os_ReadFile name).
Proof.
  intros w. rewrite os_ReadFile_run. exists []. cbn. now rewrite app_nil_r.
Qed.

Lemma emits_time_Now (Q : Event -> Prop) : emits Q time_Now.
Proof. intros w. exists []. cbn. now rewrite app_nil_r. Qed.

Lemma emits_fmt_Scanln (Q : Event -> Prop) : emits Q fmt_Scanln.
Proof.
  intros w. exists []. unfold fmt_Scanln.
  destruct (stdin w); cbn; now rewrite app_nil_r.
Qed.

Lemma emits_http_Get (Q : Event -> Prop) (url : string) :
  Q (HttpGet url) -> emits Q (http_Get url).
Proof. intros HQ w. exists [HttpGet url]. split; [ reflexivity | now constructor ]. Qed.

Lemma emits_os_WriteFile (Q : Event -> Prop) (name data : string) :
  (forall ok, Q (WriteFile name data ok)) -> emits Q (os_WriteFile name data).
Proof.
  intros HQ w. rewrite os_WriteFile_run.
  destruct (can_write w name);
    [ exists [WriteFile name data true] | exists [WriteFile name data false] ];
    (split; [ reflexivity | now constructor ]).
Qed.

(** One step of a proof that a computation emits only events in [Q], for
    computations built from the primitives that do not write. *)
Ltac emits_step :=
  lazymatch goal with
  | |- emits _ (bind _ _) => apply emits_bind; [ | intros ]
  | |- emits _ (ret _) => apply emits_ret
  | |- emits _ (os_Exit _) => apply emits_os_Exit
  | |- emits _ (emit _) => apply emits_emit; exact I
  | |- emits _ get_Args => apply emits_get_Args
  | |- emits _ (os_ReadFile _) => apply emits_os_ReadFile
  | |- emits _ time_Now => apply emits_time_Now
  | |- emits _ fmt_Scanln => apply emits_fmt_Scanln
  | |- emits _ (http_Get _) => apply emits_http_Get; exact I
  | |- emits _ (if ?b then _ else _) => destruct b
  | |- emits _ (match ?x with _ => _ end) => destruct x
  end.

Section Quiet.
Context {P : Platform} (good : ConversionRecord -> Prop).

Lemma quiet_printHeader : emits (writes_only good) printHeader.
Proof. unfold printHeader. repeat emits_step. Qed.

Lemma quiet_outputError (message : string) (asJSON : bool) :
  emits (writes_only good) (outputError message asJSON).
Proof. unfold outputError. repeat emits_step. Qed.

Lemma quiet_getInput (prompt : string) :
  emits (writes_only good) (getInput prompt).
Proof. unfold getInput. repeat emits_step. Qed.

Lemma quiet_getAmount (prompt : string) :
  emits (writes_only good) (getAmount prompt).
Proof. unfold getAmount. repeat emits_step. Qed.

Lemma quiet_getExchangeRates (baseCurrency : string) :
  emits (writes_only good) (getExchangeRates baseCurrency).
Proof. unfold getExchangeRates. repeat emits_step. Qed.

Lemma quiet_printResult (amount : float64) (from : string) (result : float64)
    (to : string) (rates : ExchangeRateResponse) :
  emits (writes_only good) (printResult amount from result to rates).
Proof. unfold printResult, time_Since. repeat emits_step. Qed.

(** The same, with the lemmas above for the functions already covered. *)
Ltac quiet_step :=
  cbv zeta;
  first
    [ apply quiet_printHeader | apply quiet_outputError
    | apply quiet_getInput | apply quiet_getAmount
    | apply quiet_getExchangeRates | apply quiet_printResult
    | emits_step ].

Lemma quiet_outputJSON (from to : string) (amount result rate : float64)
    (updateTime : time.Time) :
  emits (writes_only good) (outputJSON from to amount result rate updateTime).
Proof. unfold outputJSON. repeat quiet_step. Qed.

Lemma quiet_outputCSV (from to : string) (amount result rate : float64)
    (updateTime : time.Time) :
  emits (writes_only good) (outputCSV from to amount result rate updateTime).
Proof. unfold outputCSV. repeat quiet_step. Qed.

Lemma quiet_loadConfig : emits (writes_only good) loadConfig.
Proof. unfold loadConfig. repeat quiet_step. Qed.

Lemma quiet_showRecord (rec : ConversionRecord) :
  emits (writes_only good) (showRecord rec).
Proof. unfold showRecord. repeat quiet_step. Qed.

Lemma quiet_showHistory_loop (n : nat) (h : list ConversionRecord) :
  emits (writes_only good) (showHistory_loop n h).
Proof.
  induction n as [ | i IH ]; cbn [showHistory_loop]; [ quiet_step | ].
  destruct (h !! i) as [ rec | ]; [ | quiet_step ].
  quiet_step; [ apply quiet_showRecord | exact IH ].
Qed.

Lemma quiet_showHistory : emits (writes_only good) showHistory.
Proof.
  unfold showHistory.
  repeat first [ apply quiet_showHistory_loop | quiet_step ].
Qed.

Lemma quiet_main_params (cfg : Config) (prog : string) (args : list string)
    (jsonOutput csvOutput : bool) :
  emits (writes_only good)
    (main_params cfg prog args jsonOutput csvOutput).
Proof. unfold main_params. repeat quiet_step. Qed.

End Quiet.

(** ** History writes *)

Section Writes.
Context {P : Platform}.

Lemma saveToHistory_writes (good : ConversionRecord -> Prop)
    (from to : string) (amount result rate : float64)
    (updateTime : time.Time) :
  (forall now, good (newRecord now from to amount result rate updateTime)) ->
  emits (writes_only good)
    (saveToHistory from to amount result rate updateTime).
Proof.
  intros Hgood w. rewrite saveToHistory_run. cbn zeta.
  destruct (json_MarshalIndent_History _) as [ data | err ] eqn:Henc.
  - exists [WriteFile historyFile data (can_write w historyFile)]. split.
    + now destruct (can_write w historyFile).
    + constructor; [ | constructor ]. cbn. split; [ reflexivity | ].
      eexists _, _. split; [ exact Henc | apply Hgood ].
  - exists []. cbn. now rewrite app_nil_r.
Qed.

(** A target that the conversion rejects: one message, and nothing else
    changes; in particular the history file is not touched. *)
Lemma main_convert_missing (jsonOutput csvOutput : bool) (from : string)
    (amount : float64) (rates : ExchangeRateResponse)
    (updateTime : time.Time) (t : string) (w : World) :
  strings.TrimSpace t <> EmptyString ->
  snd (convertCurrency amount from (strings.TrimSpace t) rates) <> None ->
  Rates rates !! strings.TrimSpace t = None
  /\ main_convert jsonOutput csvOutput from amount rates updateTime t w
     = outputs
         [conversion_error_event jsonOutput csvOutput (strings.TrimSpace t)] w.
Proof.
  intros Hne Herr. unfold main_convert. cbv zeta.
  destruct (String.eqb_spec (strings.TrimSpace t) EmptyString) as [ | _ ];
    [ contradiction | ].
  unfold convertCurrency in *.
  destruct (Rates rates !! strings.TrimSpace t) as [ rate | ];
    [ now cbn in Herr | ].
  split; [ reflexivity | ].
  unfold conversion_error_event.
  destruct (jsonOutput || csvOutput);
    [ apply outputError_outputs | reflexivity ].
Qed.

Lemma main_convert_writes (jsonOutput csvOutput : bool) (from : string)
    (amount : float64) (rates : ExchangeRateResponse)
    (updateTime : time.Time) (targets : list string) (t : string) :
  In t targets ->
  emits (writes_only (successful_record rates from amount targets))
    (main_convert jsonOutput csvOutput from amount rates updateTime t).
Proof.
  intros Hin. unfold main_convert. cbv zeta.
  emits_step; [ emits_step | ].
  unfold convertCurrency.
  destruct (Rates rates !! strings.TrimSpace t) as [ rate | ] eqn:Hrate.
  - cbn [default]. emits_step.
    + apply saveToHistory_writes. intros now.
      unfold successful_record, newRecord. cbn.
      repeat split; try assumption. now exists t.
    + emits_step; [ apply quiet_outputJSON | ].
      emits_step; [ apply quiet_outputCSV | apply quiet_printResult ].
  - emits_step; [ apply quiet_outputError | emits_step ].
Qed.

Lemma main_loop_writes (jsonOutput csvOutput : bool) (from : string)
    (amount : float64) (rates : ExchangeRateResponse)
    (updateTime : time.Time) (targets rest : list string) :
  incl rest targets ->
  emits (writes_only (successful_record rates from amount targets))
    (main_loop jsonOutput csvOutput from amount rates updateTime rest).
Proof.
  induction rest as [ | t rest IH ]; intros Hincl; cbn [main_loop].
  - emits_step.
  - emits_step.
    + apply main_convert_writes. apply Hincl. now left.
    + apply IH. intros x Hx. apply Hincl. now right.
Qed.

(** Rates that [getExchangeRates] returns were decoded without error. *)
Lemma getExchangeRates_decoded (baseCurrency : string) (w w' : World)
    (rates : ExchangeRateResponse) :
  getExchangeRates baseCurrency w = Returned (Ok rates) w' ->
  decoded_rates rates.
Proof.
  unfold getExchangeRates, bind, http_Get.
  destruct (network w _) as [ err | status [ body | err ] ];
    [ discriminate | | ].
  - destruct (negb (status =? StatusOK)); [ discriminate | ].
    destruct (json_Unmarshal_Rates body) as [decoded [ err | ]] eqn:Hdec;
      [ discriminate | ].
    intros [= <- _]. now exists body.
  - destruct (negb (status =? StatusOK)); discriminate.
Qed.

Lemma main_writes : emits (writes_only converted_record) main.
Proof.
  unfold main.
  emits_step; [ emits_step | ].
  emits_step; [ apply quiet_showHistory | ].
  emits_step; [ apply quiet_loadConfig | ].
  destruct (stripFlags _) as [[args jsonOutput0] csvOutput0].
  destruct (main_format _ _ _) as [jsonOutput csvOutput].
  emits_step.
  { emits_step; [ apply quiet_printHeader | emits_step ]. }
  emits_step; [ apply quiet_main_params | ].
  lazymatch goal with
  | params : (string * string * float)%type |- _ =>
      destruct params as [[fromCurrency toCurrencyRaw] amount]
  end.
  cbv zeta.
  emits_step.
  { emits_step; emits_step. }
  apply (emits_bind_post _
           (fun r => forall rates, r = Ok rates -> decoded_rates rates)).
  { intros w0 r w1 Hrun rates ->.
    exact (getExchangeRates_decoded _ _ _ _ Hrun). }
  { apply quiet_getExchangeRates. }
  intros [ rates | err ] Hdecoded.
  - specialize (Hdecoded rates eq_refl).
    eapply emits_weaken; [ | apply main_loop_writes, incl_refl ].
    intros [ | | | | | | | name data ok ]; try exact (fun _ => I).
    intros (Hname & h & rec & Henc & Hgood). split; [ exact Hname | ].
    exists h, rec. split; [ exact Henc | ].
    pose proof Hgood as Hkeep.
    destruct Hgood as (Hfrom & Hamount & _).
    eexists _, _. split; [ exact Hdecoded | ].
    rewrite Hfrom, Hamount. exact Hkeep.
  - emits_step; [ | emits_step ].
    emits_step; [ apply quiet_outputError | emits_step ].
Qed.

End Writes.

(** C9: a target whose conversion returns an error gets one message and
    leaves the world otherwise as it was, the history file included; and in
    every run of the loop and of [main], each write is a write of the
    history file whose last record is that of a conversion that returned no
    error: the rate was found in the rate table (in [main], the one decoded
    from the response) and the result is the amount multiplied by it. *)
Theorem history_only_after_success {P : Platform} :
  (forall (jsonOutput csvOutput : bool) (from : string) (amount : float64)
          (rates : ExchangeRateResponse) (updateTime : time.Time)
          (t : string) (w : World),
     strings.TrimSpace t <> EmptyString ->
     snd (convertCurrency amount from (strings.TrimSpace t) rates) <> None ->
     exists e : Event,
       main_convert jsonOutput csvOutput from amount rates updateTime t w
         = Returned tt (with_trace w (trace w ++ [e]))
       /\ no_write e
       /\ fs (with_trace w (trace w ++ [e])) = fs w)
  /\ (forall (jsonOutput csvOutput : bool) (from : string) (amount : float64)
             (rates : ExchangeRateResponse) (updateTime : time.Time)
             (targets : list string),
        emits (writes_only (successful_record rates from amount targets))
          (main_loop jsonOutput csvOutput from amount rates updateTime
             targets))
  /\ emits (writes_only converted_record) main.
Proof.
  split; [ | split ].
  - intros jsonOutput csvOutput from amount rates updateTime t w Hne Herr.
    destruct (main_convert_missing jsonOutput csvOutput from amount rates
                updateTime t w Hne Herr) as [_ Hrun].
    eexists. split; [ exact Hrun | ]. split; [ | reflexivity ].
    unfold conversion_error_event, error_event.
    destruct (jsonOutput || csvOutput); [ destruct jsonOutput | ]; exact I.
  - intros. apply main_loop_writes, incl_refl.
  - exact main_writes.
Qed.

(** ** Exits *)

Lemma returns_ret {A : Type} (a : A) : returns (ret a).
Proof. intros w. now eexists _, _. Qed.

Lemma returns_bind {A B : Type} (c : M A) (k : A -> M B) :
  returns c -> (forall a, returns (k a)) -> returns (bind c k).
Proof.
  intros Hc Hk w. destruct (Hc w) as (a & w1 & Hrun).
  rewrite (bind_Returned _ _ _ _ _ Hrun). apply Hk.
Qed.

Lemma returns_emit (e : Event) : returns (emit e).
Proof. intros w. now eexists _, _. Qed.

Lemma returns_os_ReadFile (name : string) : returns (os_ReadFile name).
Proof. intros w. rewrite os_ReadFile_run. now eexists _, _. Qed.

Lemma returns_os_WriteFile (name data : string) :
  returns (os_WriteFile name data).
Proof.
  intros w. rewrite os_WriteFile_run.
  destruct (can_write w name); now eexists _, _.
Qed.

Lemma returns_time_Now : returns time_Now.
Proof. intros w. now eexists _, _. Qed.

Lemma returns_fmt_Scanln : returns fmt_Scanln.
Proof. intros w. unfold fmt_Scanln. destruct (stdin w); now eexists _, _. Qed.

Lemma returns_http_Get (url : string) : returns (http_Get url).
Proof. intros w. now eexists _, _. Qed.

Lemma returns_get_Args : returns get_Args.
Proof. intros w. now eexists _, _. Qed.

Ltac returns_step :=
  lazymatch goal with
  | |- returns (bind _ _) => apply returns_bind; [ | intros ]
  | |- returns (ret _) => apply returns_ret
  | |- returns (emit _) => apply returns_emit
  | |- returns get_Args => apply returns_get_Args
  | |- returns (os_ReadFile _) => apply returns_os_ReadFile
  | |- returns (os_WriteFile _ _) => apply returns_os_WriteFile
  | |- returns time_Now => apply returns_time_Now
  | |- returns fmt_Scanln => apply returns_fmt_Scanln
  | |- returns (http_Get _) => apply returns_http_Get
  | |- returns (if ?b then _ else _) => destruct b
  | |- returns (match ?x with _ => _ end) => destruct x
  end.

Section Exits.
Context {P : Platform}.

Lemma announced_returns {A : Type} (allowed : ExitCause -> Prop) (c : M A) :
  returns c -> exits_announced allowed c.
Proof.
  intros Hc w. destruct (Hc w) as (a & w' & Hrun). rewrite Hrun. exact I.
Qed.

Lemma announced_bind {A B : Type} (allowed : ExitCause -> Prop) (c : M A)
    (k : A -> M B) :
  exits_announced allowed c -> (forall a, exits_announced allowed (k a)) ->
  exits_announced allowed (bind c k).
Proof.
  intros Hc Hk w. unfold bind. specialize (Hc w).
  destruct (c w) as [ a w1 | code w1 ]; [ apply Hk | exact Hc ].
Qed.

Lemma announced_weaken {A : Type} (allowed allowed' : ExitCause -> Prop)
    (c : M A) :
  (forall cause, allowed cause -> allowed' cause) ->
  exits_announced allowed c -> exits_announced allowed' c.
Proof.
  intros Himp Hc w. specialize (Hc w).
  destruct (c w) as [ a w1 | code w1 ]; [ exact I | ].
  destruct Hc as (Hcode & e & cause & Hlast & Hann & Hallowed).
  split; [ exact Hcode | ]. exists e, cause. auto.
Qed.

(** The pattern of every exit in the program: print the message, then
    [os.Exit(1)]. *)
Lemma announced_exit {A : Type} (allowed : ExitCause -> Prop) (c : M unit)
    (evs : list Event) (e : Event) (cause : ExitCause) :
  (forall w, c w = outputs (evs ++ [e]) w) ->
  announces e cause ->
  allowed cause ->
  exits_announced allowed (c >> os_Exit (A := A) 1).
Proof.
  intros Hc Hann Hallowed w. unfold bind. rewrite Hc. unfold outputs, os_Exit.
  cbn [exit_announced trace with_trace]. split; [ reflexivity | ].
  exists e, cause. split; [ | split; [ exact Hann | exact Hallowed ] ].
  now rewrite app_assoc, last_snoc.
Qed.

Lemma returns_printHeader : returns printHeader.
Proof. unfold printHeader. repeat returns_step. Qed.

Lemma returns_outputError (message : string) (asJSON : bool) :
  returns (outputError message asJSON).
Proof. unfold outputError. repeat returns_step. Qed.

Lemma returns_getInput (prompt : string) : returns (getInput prompt).
Proof. unfold getInput. repeat returns_step. Qed.

Lemma returns_getExchangeRates (baseCurrency : string) :
  returns (getExchangeRates baseCurrency).
Proof. unfold getExchangeRates. repeat returns_step. Qed.

Lemma returns_printResult (amount : float64) (from : string)
    (result : float64) (to : string) (rates : ExchangeRateResponse) :
  returns (printResult amount from result to rates).
Proof. unfold printResult, time_Since. repeat returns_step. Qed.

Lemma returns_outputCSV (from to : string) (amount result rate : float64)
    (updateTime : time.Time) :
  returns (outputCSV from to amount result rate updateTime).
Proof. unfold outputCSV. repeat returns_step. Qed.

Lemma returns_saveToHistory (from to : string) (amount result rate : float64)
    (updateTime : time.Time) :
  returns (saveToHistory from to amount result rate updateTime).
Proof.
  intros w. rewrite saveToHistory_run. cbn zeta.
  destruct (json_MarshalIndent_History _); now eexists _, _.
Qed.

Lemma returns_loadConfig : returns loadConfig.
Proof.
  intros w. destruct (loadConfig_returns w) as [cfg Hrun].
  now exists cfg, w.
Qed.

Lemma returns_showHistory_loop (n : nat) (h : list ConversionRecord) :
  returns (showHistory_loop n h).
Proof.
  induction n as [ | i IH ]; cbn [showHistory_loop]; [ returns_step | ].
  returns_step; [ | returns_step ].
  returns_step; [ unfold showRecord; repeat returns_step | exact IH ].
Qed.

Lemma returns_showHistory : returns showHistory.
Proof.
  unfold showHistory. returns_step; [ returns_step | ].
  returns_step; [ | returns_step ].
  returns_step. returns_step; [ returns_step | ].
  returns_step; [ returns_step | ].
  do 6 (returns_step; [ returns_step | ]).
  returns_step; [ apply returns_showHistory_loop | ].
  repeat returns_step.
Qed.

(** An exit whose message is the single event printed before it. *)
Ltac exit_by cause :=
  eapply (announced_exit _ _ [] _ cause);
  [ intros ?; first [ apply outputError_outputs | reflexivity ]
  | constructor
  | first [ reflexivity | exact I | now left | now right ] ].

(** A step that cannot exit. *)
Ltac returning :=
  apply announced_returns;
  first
    [ apply returns_ret | apply returns_emit | apply returns_get_Args
    | apply returns_fmt_Scanln | apply returns_time_Now
    | apply returns_printHeader | apply returns_outputError
    | apply returns_getInput | apply returns_getExchangeRates
    | apply returns_printResult | apply returns_outputCSV
    | apply returns_saveToHistory | apply returns_loadConfig
    | apply returns_showHistory ].

Lemma announced_getAmount (prompt : string) :
  exits_announced input_cause (getAmount prompt).
Proof.
  unfold getAmount.
  apply announced_bind; [ returning | intros _ ].
  apply announced_bind; [ returning | ].
  intros input. destruct (strconv_ParseFloat input) as [ amount | err ].
  - returning.
  - exit_by BadAmount.
Qed.

Lemma announced_outputJSON (from to : string) (amount result rate : float64)
    (updateTime : time.Time) :
  exits_announced (eq JSONEncodeFailure)
    (outputJSON from to amount result rate updateTime).
Proof.
  unfold outputJSON.
  apply announced_bind; [ returning | ].
  intros now. cbv zeta.
  destruct (json_MarshalIndent_Output _) as [ data | err ].
  - returning.
  - exit_by JSONEncodeFailure.
Qed.

Lemma announced_main_params (cfg : Config) (prog : string)
    (args : list string) (jsonOutput csvOutput : bool) :
  exits_announced input_cause
    (main_params cfg prog args jsonOutput csvOutput).
Proof.
  unfold main_params.
  destruct (length args =? 3)%nat.
  { cbv zeta.
    destruct (strconv_ParseFloat _) as [ amount | err ];
      [ returning | ].
    destruct (jsonOutput || csvOutput); exit_by BadAmount. }
  destruct (length args =? 0)%nat.
  { apply announced_bind; [ returning | ].
    intros fromCurrency. cbv zeta.
    apply announced_bind; [ returning | ].
    intros toCurrencyRaw. cbv zeta.
    apply announced_bind; [ apply announced_getAmount | ].
    intros amount. returning. }
  destruct (jsonOutput || csvOutput).
  - exit_by WrongArgumentCount.
  - apply (announced_exit _ _
             [Colored Red
                "❌ Использование: %s [--json|--csv] <from> <to1[,to2,...]> <amount>"
                [AStr prog]]
             (Colored Red "   или: %s --history" [AStr prog])
             WrongArgumentCount); [ | constructor | now right ].
    intros w. unfold bind, emit, outputs. cbn [trace with_trace].
    now rewrite <- app_assoc.
Qed.

Lemma announced_main_convert (jsonOutput csvOutput : bool) (from : string)
    (amount : float64) (rates : ExchangeRateResponse)
    (updateTime : time.Time) (t : string) :
  exits_announced (eq JSONEncodeFailure)
    (main_convert jsonOutput csvOutput from amount rates updateTime t).
Proof.
  unfold main_convert. cbv zeta.
  destruct (String.eqb _ _); [ returning | ].
  destruct (convertCurrency _ _ _ _) as [result [ err | ]].
  - destruct (jsonOutput || csvOutput);
      [ returning | returning ].
  - cbv zeta.
    apply announced_bind; [ returning | intros _ ].
    destruct jsonOutput; [ apply announced_outputJSON | ].
    destruct csvOutput;
      [ returning | returning ].
Qed.

(** The loop exits only when the JSON presenter cannot encode a result. *)
Lemma announced_main_loop (jsonOutput csvOutput : bool) (from : string)
    (amount : float64) (rates : ExchangeRateResponse)
    (updateTime : time.Time) (targets : list string) :
  exits_announced (eq JSONEncodeFailure)
    (main_loop jsonOutput csvOutput from amount rates updateTime targets).
Proof.
  induction targets as [ | t rest IH ]; cbn [main_loop].
  - returning.
  - apply announced_bind; [ apply announced_main_convert | intros _; exact IH ].
Qed.

Lemma announced_main : exits_announced any_cause main.
Proof.
  unfold main.
  apply announced_bind; [ returning | ].
  intros Args.
  destruct (_ && _); [ returning | ].
  apply announced_bind; [ returning | ].
  intros cfg.
  destruct (stripFlags _) as [[args jsonOutput0] csvOutput0].
  destruct (main_format _ _ _) as [jsonOutput csvOutput].
  apply announced_bind.
  { destruct (_ && _); [ returning | returning ]. }
  intros _.
  apply announced_bind.
  { eapply announced_weaken; [ | apply announced_main_params ].
    intros cause _. exact I. }
  intros [[fromCurrency toCurrencyRaw] amount]. cbv zeta.
  apply announced_bind.
  { destruct (_ && _); [ returning | returning ]. }
  intros _.
  apply announced_bind; [ returning | ].
  intros [ rates | err ].
  - eapply announced_weaken; [ | apply announced_main_loop ].
    intros cause _. exact I.
  - destruct (jsonOutput || csvOutput); exit_by RateFetchFailure.
Qed.

End Exits.

(** ** Missing targets *)

Section Skipping.
Context {P : Platform}.

Lemma main_loop_missing (jsonOutput csvOutput : bool) (from : string)
    (amount : float64) (rates : ExchangeRateResponse)
    (updateTime : time.Time) (t : string) (rest : list string) (w : World) :
  strings.TrimSpace t <> EmptyString ->
  Rates rates !! strings.TrimSpace t = None ->
  main_loop jsonOutput csvOutput from amount rates updateTime (t :: rest) w
    = main_loop jsonOutput csvOutput from amount rates updateTime rest
        (with_trace w
           (trace w
            ++ [conversion_error_event jsonOutput csvOutput
                  (strings.TrimSpace t)])).
Proof.
  intros Hne Hnone. cbn [main_loop]. unfold bind at 1.
  destruct (main_convert_missing jsonOutput csvOutput from amount rates
              updateTime t w Hne) as [_ Hrun].
  { unfold convertCurrency. now rewrite Hnone. }
  now rewrite Hrun.
Qed.

Lemma main_loop_blank (jsonOutput csvOutput : bool) (from : string)
    (amount : float64) (rates : ExchangeRateResponse)
    (updateTime : time.Time) (t : string) (rest : list string) (w : World) :
  strings.TrimSpace t = EmptyString ->
  main_loop jsonOutput csvOutput from amount rates updateTime (t :: rest) w
    = main_loop jsonOutput csvOutput from amount rates updateTime rest w.
Proof.
  intros Hblank. cbn [main_loop]. unfold bind at 1, main_convert.
  now rewrite Hblank.
Qed.

Lemma main_loop_all_skipped (jsonOutput csvOutput : bool) (from : string)
    (amount : float64) (rates : ExchangeRateResponse)
    (updateTime : time.Time) (targets : list string) :
  Forall (skipped rates) targets ->
  forall w : World,
    exit_code
      (main_loop jsonOutput csvOutput from amount rates updateTime targets w)
    = 0
    /\ fs (final_world
             (main_loop jsonOutput csvOutput from amount rates updateTime
                targets w))
       = fs w.
Proof.
  induction 1 as [ | t rest Hskip _ IH ]; intros w; [ now split | ].
  destruct (String.eqb_spec (strings.TrimSpace t) EmptyString)
    as [ Hblank | Hne ].
  - rewrite main_loop_blank by exact Hblank. apply IH.
  - destruct Hskip as [ Hblank | Hnone ]; [ contradiction | ].
    rewrite main_loop_missing by assumption.
    exact (IH (with_trace w _)).
Qed.

End Skipping.

(** C4: a target that the rate table does not have gets its error message
    and the loop goes on with the remaining targets from a world that
    differs by that message only; a run of the loop in which every target is
    skipped ends with status 0; the loop exits only with status 1 after
    announcing a failed JSON encoding; and whenever [main] exits, the status
    is 1 and the last message announces a bad amount, a wrong argument
    count, a failed rate fetch or a failed JSON encoding. *)
Theorem missing_target_skipped {P : Platform} :
  (forall (jsonOutput csvOutput : bool) (from : string) (amount : float64)
          (rates : ExchangeRateResponse) (updateTime : time.Time)
          (t : string) (rest : list string) (w : World),
     strings.TrimSpace t <> EmptyString ->
     Rates rates !! strings.TrimSpace t = None ->
     main_loop jsonOutput csvOutput from amount rates updateTime (t :: rest) w
       = main_loop jsonOutput csvOutput from amount rates updateTime rest
           (with_trace w
              (trace w
               ++ [conversion_error_event jsonOutput csvOutput
                     (strings.TrimSpace t)])))
  /\ (forall (jsonOutput csvOutput : bool) (from : string) (amount : float64)
             (rates : ExchangeRateResponse) (updateTime : time.Time)
             (targets : list string) (w : World),
        Forall (skipped rates) targets ->
        exit_code
          (main_loop jsonOutput csvOutput from amount rates updateTime
             targets w)
        = 0)
  /\ (forall (jsonOutput csvOutput : bool) (from : string) (amount : float64)
             (rates : ExchangeRateResponse) (updateTime : time.Time)
             (targets : list string) (w : World),
        exit_announced (eq JSONEncodeFailure)
          (main_loop jsonOutput csvOutput from amount rates updateTime
             targets w))
  /\ (forall w : World, exit_announced any_cause (main w)).
Proof.
  split; [ | split; [ | split ] ].
  - intros. now apply main_loop_missing.
  - intros jsonOutput csvOutput from amount rates updateTime targets w Hall.
    now apply main_loop_all_skipped.
  - intros. apply announced_main_loop.
  - exact announced_main.
Qed.

(** [converter --json USD XXX,RUB 100]: the error for XXX, then the
    conversion to RUB, and status 0. *)
Lemma missing_target_skipped_witness :
  main_loop (P := Demo.platform) true false "USD" 100%float Demo.rates
    Demo.updateTime ["XXX"; "RUB"] (Demo.world [] ∅)
  = main_loop (P := Demo.platform) true false "USD" 100%float Demo.rates
      Demo.updateTime ["RUB"]
      (with_trace (Demo.world [] ∅)
         [Println
            (json_MarshalIndent_Failure (Platform := Demo.platform)
               "ошибка конвертации: валюта XXX не найдена")]).
Proof.
  apply (proj1 (missing_target_skipped (P := Demo.platform))
           true false "USD" 100%float Demo.rates Demo.updateTime
           "XXX" ["RUB"] (Demo.world [] ∅)).
  - vm_compute. discriminate.
  - vm_compute. reflexivity.
Defined.

Lemma history_only_after_success_witness :
  exists e : Event,
    main_convert (P := Demo.platform) false false "USD" 100%float Demo.rates
      Demo.updateTime " xxx " (Demo.world [] ∅)
    = Returned tt
        (with_trace (Demo.world [] ∅) (trace (Demo.world [] ∅) ++ [e]))
    /\ no_write e
    /\ fs (with_trace (Demo.world [] ∅) (trace (Demo.world [] ∅) ++ [e]))
       = fs (Demo.world [] ∅).
Proof.
  apply (proj1 (history_only_after_success (P := Demo.platform))
           false false "USD" 100%float Demo.rates Demo.updateTime
           " xxx " (Demo.world [] ∅)).
  - vm_compute. discriminate.
  - vm_compute. discriminate.
Defined.

(** ** Two runs

    [converter USD RUB,EUR 100] with rates RUB 90 and EUR 0.9 converts twice
    and leaves both records in the history; [converter --json USD XXX 10]
    prints the error for XXX and ends with status 0. *)
Example main_two_targets :
  exit_code
    (main (P := Demo.platform)
       (Demo.world ["USD"; "RUB,EUR"; "100"]
          {[ historyFile := Demo.file "[]" ]})) = 0
  /\ json_Unmarshal_History (Platform := Demo.platform)
       (match
          read_file
            (final_world
               (main (P := Demo.platform)
                  (Demo.world ["USD"; "RUB,EUR"; "100"]
                     {[ historyFile := Demo.file "[]" ]})))
            historyFile
        with
        | Ok data => data
        | Err _ => EmptyString
        end)
     = ([Demo.rec_RUB; Demo.rec_EUR], None).
Proof. split; vm_compute; reflexivity. Qed.

Example main_missing_target :
  exit_code
    (main (P := Demo.platform) (Demo.world ["--json"; "USD"; "XXX"; "10"] ∅))
  = 0
  /\ trace
       (final_world
          (main (P := Demo.platform)
             (Demo.world ["--json"; "USD"; "XXX"; "10"] ∅)))
     = [ HttpGet (apiURL +:+ "USD");
         Println
           (json_MarshalIndent_Failure (Platform := Demo.platform)
              "ошибка конвертации: валюта XXX не найдена") ].
Proof. split; vm_compute; reflexivity. Qed.

(** * Further properties of the code *)

(** ** The locals of [formatTimeAgo] *)

(** X1: for every duration from zero to 1024 hours, the two locals of
    [formatTimeAgo], computed through binary64 ([int(d.Hours())] and
    [int(d.Minutes()) % 60]), are the integer quotients of the duration: its
    whole hours, and its whole minutes within the hour. *)
Theorem formatTimeAgo_locals_exact (d : time.Duration) :
  0 <= d < 1024 * time.Hour ->
  whole_hours d = d / time.Hour
  /\ whole_minutes d = (d / time.Minute) mod 60.
Proof.
  intros [Hd0 Hd1].
  assert (0 <= d <= maxInt64) as Hd.
  { unfold maxInt64. change time.Hour with 3600000000000 in Hd1. lia. }
  split; [ now apply Hours_exact | ].
  apply Minutes_exact; [ exact Hd | ].
  change time.Hour with 3600000000000 in Hd1.
  change time.Minute with 60000000000. lia.
Qed.

Lemma formatTimeAgo_locals_exact_witness :
  whole_hours (24 * time.Hour - 1) = 23
  /\ whole_minutes (24 * time.Hour - 1) = 59.
Proof.
  destruct (formatTimeAgo_locals_exact (24 * time.Hour - 1)) as [-> ->].
  - vm_compute. split; [ discriminate | reflexivity ].
  - split; vm_compute; reflexivity.
Defined.

(** X2: for every non-negative duration of the [int64] range, the hours
    that [formatTimeAgo] computes through binary64 are the whole hours of
    the duration or one more: they are never too few, and never off by more
    than one. *)
Theorem formatTimeAgo_hours_bracket (d : time.Duration) :
  0 <= d <= maxInt64 ->
  d / time.Hour <= whole_hours d <= d / time.Hour + 1.
Proof. exact (Hours_brackets d). Qed.

Lemma formatTimeAgo_hours_bracket_witness :
  (4104 * time.Hour - 1) / time.Hour
    <= whole_hours (4104 * time.Hour - 1)
    <= (4104 * time.Hour - 1) / time.Hour + 1.
Proof.
  apply (formatTimeAgo_hours_bracket (4104 * time.Hour - 1)).
  vm_compute. split; discriminate.
Defined.

(** X3: the string of [formatTimeAgo] for every non-negative duration [d]
    of the [int64] range, by the whole hours [h = d / Hour] and the whole
    minutes within the hour [m]: with more than 24 whole hours a days string
    whose count is at least one, taken from the hours the function computes
    ([h] itself below 1024 hours); with 1 to 24 whole hours the hours string
    for [h]; below one hour the minutes string for [m], and the just-now
    string when [m] is zero. *)
Theorem formatTimeAgo_by_duration (d : time.Duration) :
  0 <= d <= maxInt64 ->
  let h := d / time.Hour in
  let m := (d / time.Minute) mod 60 in
  (24 < h ->
     (formatTimeAgo d =
        if Z.quot (whole_hours d) 24 =? 1 then "1 день назад"
        else fmt_d (Z.quot (whole_hours d) 24) +:+ " дня/дней назад")
     /\ 1 <= Z.quot (whole_hours d) 24
     /\ (h < 1024 -> whole_hours d = h))
  /\ (h = 1 -> formatTimeAgo d = "1 час назад")
  /\ (2 <= h <= 4 -> formatTimeAgo d = fmt_d h +:+ " часа назад")
  /\ (5 <= h <= 24 -> formatTimeAgo d = fmt_d h +:+ " часов назад")
  /\ (h = 0 -> m = 1 -> formatTimeAgo d = "1 минуту назад")
  /\ (h = 0 -> 2 <= m <= 4 -> formatTimeAgo d = fmt_d m +:+ " минуты назад")
  /\ (h = 0 -> 5 <= m <= 59 -> formatTimeAgo d = fmt_d m +:+ " минут назад")
  /\ (h = 0 -> m = 0 -> formatTimeAgo d = "только что").
Proof.
  intros Hd h m.
  assert (0 <= h) as Hh0 by (apply Z.div_pos; [ lia | reflexivity ]).
  assert (d < time.Hour * Z.succ h) as Hnext
    by (apply Z.mul_succ_div_gt; reflexivity).
  change time.Hour with 3600000000000 in Hnext.
  pose proof (Hours_brackets d Hd) as Hb. fold h in Hb.
  destruct (formatTimeAgo_by_locals d)
    as (Hdays & H1 & H24 & H524 & Hm1 & Hm24 & Hm5 & Hnow).
  cbv zeta in Hdays, H1, H24, H524, Hm1, Hm24, Hm5, Hnow.
  assert (h < 1024 -> whole_hours d = h) as Hexact.
  { intros Hsmall. apply Hours_exact; [ exact Hd | ].
    change time.Hour with 3600000000000. lia. }
  assert (h <= 24 -> whole_minutes d = m) as Hmin.
  { intros Hsmall. apply Minutes_exact; [ exact Hd | ].
    change time.Minute with 60000000000. lia. }
  repeat split.
  - apply Hdays. lia.
  - apply Z.quot_le_lower_bound; lia.
  - exact Hexact.
  - intros Hh. apply H1. rewrite Hexact; lia.
  - intros Hh. rewrite <- Hexact by lia. apply H24. rewrite Hexact; lia.
  - intros Hh. rewrite <- Hexact by lia. apply H524. rewrite Hexact; lia.
  - intros Hh Hm. apply Hm1; [ rewrite Hexact | rewrite Hmin ]; lia.
  - intros Hh Hm. rewrite <- Hmin by lia.
    apply Hm24; [ rewrite Hexact | rewrite Hmin ]; lia.
  - intros Hh Hm. rewrite <- Hmin by lia.
    apply Hm5; [ rewrite Hexact | rewrite Hmin ]; lia.
  - intros Hh Hm. apply Hnow; [ rewrite Hexact | rewrite Hmin ]; lia.
Qed.

Lemma formatTimeAgo_by_duration_witness :
  formatTimeAgo (3 * time.Hour + 59 * time.Minute) = "3 часа назад".
Proof.
  destruct (formatTimeAgo_by_duration (3 * time.Hour + 59 * time.Minute))
    as (_ & _ & H24 & _).
  - vm_compute. split; discriminate.
  - rewrite H24; [ reflexivity | vm_compute; split; discriminate ].
Defined.

(** ** Frames: what a run leaves as it was *)

Section Primitives.
Context (R : World -> World -> Prop) `{!Frame R}.

Lemma steps_ret {A : Type} (a : A) : steps R (ret a).
Proof. intros w. apply frame_refl. Qed.

Lemma steps_os_Exit {A : Type} (code : Z) : steps R (os_Exit (A := A) code).
Proof. intros w. apply frame_refl. Qed.

Lemma steps_bind {A B : Type} (c : M A) (k : A -> M B) :
  steps R c -> (forall a, steps R (k a)) -> steps R (bind c k).
Proof.
  intros Hc Hk w. unfold bind. specialize (Hc w).
  destruct (c w) as [ a w1 | code w1 ]; cbn [final_world] in *.
  - exact (frame_trans _ _ _ Hc (Hk a w1)).
  - exact Hc.
Qed.

Lemma steps_emit (e : Event) : is_print e -> steps R (emit e).
Proof. intros He w. now apply frame_print. Qed.

Lemma steps_get_Args : steps R get_Args.
Proof. intros w. apply frame_refl. Qed.

Lemma steps_os_ReadFile (name : string) : steps R (os_ReadFile name).
Proof. intros w. rewrite os_ReadFile_run. apply frame_refl. Qed.

Lemma steps_time_Now `{!Ticks R} : steps R time_Now.
Proof. intros w. apply frame_tick. Qed.

Lemma steps_fmt_Scanln `{!Reads R} : steps R fmt_Scanln.
Proof.
  intros w. unfold fmt_Scanln.
  destruct (stdin w); [ apply frame_refl | apply frame_stdin ].
Qed.

Lemma steps_http_Get `{!Requests R} (url : string) : steps R (http_Get url).
Proof. intros w. apply frame_request. Qed.

Lemma steps_write_history `{!Writes R} (data : string) :
  steps R (os_WriteFile historyFile data).
Proof.
  intros w. rewrite os_WriteFile_run.
  destruct (frame_write w data) as [Hdone Hrefused].
  destruct (can_write w historyFile); assumption.
Qed.

End Primitives.

(** One step through a computation built from the primitives. *)
Ltac steps_step :=
  cbv zeta;
  lazymatch goal with
  | |- steps ?R (bind _ _) => apply (steps_bind R); [ | intros ]
  | |- steps ?R (ret _) => apply (steps_ret R)
  | |- steps ?R (os_Exit _) => apply (steps_os_Exit R)
  | |- steps ?R (emit _) => apply (steps_emit R); exact I
  | |- steps ?R get_Args => apply (steps_get_Args R)
  | |- steps ?R (os_ReadFile _) => apply (steps_os_ReadFile R)
  | |- steps ?R time_Now => apply (steps_time_Now R)
  | |- steps ?R fmt_Scanln => apply (steps_fmt_Scanln R)
  | |- steps ?R (http_Get _) => apply (steps_http_Get R)
  | |- steps ?R (os_WriteFile historyFile _) =>
      apply (steps_write_history R)
  | |- steps _ (if ?b then _ else _) => destruct b
  | |- steps _ (match ?x with _ => _ end) => destruct x
  end.

Section Functions.
Context {P : Platform} (R : World -> World -> Prop) `{!Frame R}.

Lemma steps_printHeader : steps R printHeader.
Proof. unfold printHeader. repeat steps_step. Qed.

Lemma steps_outputError (message : string) (asJSON : bool) :
  steps R (outputError message asJSON).
Proof. unfold outputError. repeat steps_step. Qed.

Lemma steps_getInput `{!Reads R} (prompt : string) :
  steps R (getInput prompt).
Proof. unfold getInput. repeat steps_step. Qed.

Lemma steps_getAmount `{!Reads R} (prompt : string) :
  steps R (getAmount prompt).
Proof. unfold getAmount. repeat steps_step. Qed.

Lemma steps_getExchangeRates `{!Requests R} (baseCurrency : string) :
  steps R (getExchangeRates baseCurrency).
Proof. unfold getExchangeRates. repeat steps_step. Qed.

Lemma steps_printResult `{!Ticks R} (amount : float64) (from : string)
    (result : float64) (to : string) (rates : ExchangeRateResponse) :
  steps R (printResult amount from result to rates).
Proof. unfold printResult, time_Since. repeat steps_step. Qed.

Lemma steps_outputJSON `{!Ticks R} (from to : string)
    (amount result rate : float64) (updateTime : time.Time) :
  steps R (outputJSON from to amount result rate updateTime).
Proof.
  unfold outputJSON.
  repeat first [ apply steps_outputError | steps_step ].
Qed.

Lemma steps_outputCSV `{!Ticks R} (from to : string)
    (amount result rate : float64) (updateTime : time.Time) :
  steps R (outputCSV from to amount result rate updateTime).
Proof. unfold outputCSV. repeat steps_step. Qed.

Lemma steps_loadConfig : steps R loadConfig.
Proof. unfold loadConfig. repeat steps_step. Qed.

Lemma steps_showRecord (rec : ConversionRecord) : steps R (showRecord rec).
Proof. unfold showRecord. repeat steps_step. Qed.

Lemma steps_showHistory_loop (n : nat) (h : list ConversionRecord) :
  steps R (showHistory_loop n h).
Proof.
  induction n as [ | i IH ]; cbn [showHistory_loop]; [ steps_step | ].
  destruct (h !! i) as [ rec | ]; [ | steps_step ].
  steps_step; [ apply steps_showRecord | exact IH ].
Qed.

Lemma steps_showHistory : steps R showHistory.
Proof.
  unfold showHistory.
  repeat first [ apply steps_showHistory_loop | steps_step ].
Qed.

Lemma steps_main_params `{!Reads R} (cfg : Config) (prog : string)
    (args : list string) (jsonOutput csvOutput : bool) :
  steps R (main_params cfg prog args jsonOutput csvOutput).
Proof.
  unfold main_params.
  repeat first
    [ apply steps_outputError | apply steps_getInput | apply steps_getAmount
    | steps_step ].
Qed.

(** With arguments on the command line nothing asks for input. *)
Lemma steps_main_params_arguments (cfg : Config) (prog : string)
    (args : list string) (jsonOutput csvOutput : bool) :
  args <> [] ->
  steps R (main_params cfg prog args jsonOutput csvOutput).
Proof.
  intros Hargs. unfold main_params.
  destruct (length args =? 3)%nat.
  - repeat first [ apply steps_outputError | steps_step ].
  - destruct (Nat.eqb_spec (length args) 0) as [Hlen | _].
    + destruct args; [ contradiction | discriminate ].
    + repeat first [ apply steps_outputError | steps_step ].
Qed.

Lemma steps_saveToHistory `{!Ticks R} `{!Writes R} (from to : string)
    (amount result rate : float64) (updateTime : time.Time) :
  steps R (saveToHistory from to amount result rate updateTime).
Proof. unfold saveToHistory. repeat steps_step. Qed.

Lemma steps_main_convert `{!Ticks R} `{!Writes R}
    (jsonOutput csvOutput : bool) (from : string)
    (amount : float64) (rates : ExchangeRateResponse)
    (updateTime : time.Time) (t : string) :
  steps R (main_convert jsonOutput csvOutput from amount rates updateTime t).
Proof.
  unfold main_convert.
  repeat first
    [ apply steps_outputError | apply steps_saveToHistory
    | apply steps_outputJSON | apply steps_outputCSV
    | apply steps_printResult | steps_step ].
Qed.

Lemma steps_main_loop `{!Ticks R} `{!Writes R}
    (jsonOutput csvOutput : bool) (from : string)
    (amount : float64) (rates : ExchangeRateResponse)
    (updateTime : time.Time) (targets : list string) :
  steps R (main_loop jsonOutput csvOutput from amount rates updateTime targets).
Proof.
  induction targets as [ | t rest IH ]; cbn [main_loop]; [ steps_step | ].
  steps_step; [ apply steps_main_convert | exact IH ].
Qed.

End Functions.

(** The same through the functions of the program. *)
Ltac steps_call :=
  lazymatch goal with
  | |- steps ?R _ =>
      first
        [ apply (steps_printHeader R) | apply (steps_outputError R)
        | apply (steps_getInput R) | apply (steps_getAmount R)
        | apply (steps_getExchangeRates R) | apply (steps_printResult R)
        | apply (steps_outputJSON R) | apply (steps_outputCSV R)
        | apply (steps_loadConfig R) | apply (steps_showHistory R)
        | apply (steps_main_params R) | apply (steps_saveToHistory R)
        | apply (steps_main_convert R) | apply (steps_main_loop R) ]
  end.

Ltac steps_auto := repeat first [ steps_call | steps_step ].

Section Mains.
Context {P : Platform} (R : World -> World -> Prop) `{!Frame R}.

Lemma steps_main `{!Ticks R} `{!Reads R} `{!Requests R} `{!Writes R} :
  steps R main.
Proof.
  unfold main.
  steps_step; [ steps_step | ].
  steps_step; [ apply (steps_showHistory R) | ].
  steps_step; [ apply (steps_loadConfig R) | ].
  destruct (stripFlags _) as [[args jsonOutput0] csvOutput0].
  destruct (main_format _ _ _) as [jsonOutput csvOutput].
  steps_step; [ steps_auto | ].
  steps_step; [ apply (steps_main_params R) | ].
  lazymatch goal with
  | params : (string * string * float)%type |- _ =>
      destruct params as [[fromCurrency toCurrencyRaw] amount]
  end.
  steps_auto.
Qed.

Lemma steps_main_arguments `{!Ticks R} `{!Requests R} `{!Writes R}
    (w : World) :
  positionals w <> [] -> R w (final_world (main w)).
Proof.
  intros Hargs. destruct (history_command w) eqn:Hhist.
  - unfold main. rewrite (bind_Returned _ _ _ _ _ (get_Args_returns w)).
    unfold history_command in Hhist. rewrite Hhist.
    apply (steps_showHistory R).
  - destruct (loadConfig_returns w) as [cfg Hcfg].
    rewrite (main_unfold w cfg Hhist Hcfg). cbv zeta.
    destruct (main_format _ _ _) as [jsonOutput csvOutput].
    lazymatch goal with
    | |- R w (final_world (?c w)) =>
        assert (steps R c) as Hsteps; [ | exact (Hsteps w) ]
    end.
    steps_step; [ steps_auto | ].
    steps_step; [ now apply (steps_main_params_arguments R) | ].
    lazymatch goal with
    | params : (string * string * float)%type |- _ =>
        destruct params as [[fromCurrency toCurrencyRaw] amount]
    end.
    steps_auto.
Qed.

Lemma steps_First_main `{!Ticks R} `{!Reads R} `{!Requests R} :
  steps R First.main.
Proof.
  unfold First.main.
  steps_step; [ apply (steps_printHeader R) | ].
  steps_step; [ steps_step | ].
  steps_step; [ steps_auto | ].
  lazymatch goal with
  | params : (string * string * float)%type |- _ =>
      destruct params as [[fromCurrency toCurrency] amount]
  end.
  steps_step; [ steps_step | ].
  steps_step; [ apply (steps_getExchangeRates R) | ].
  lazymatch goal with r : result ExchangeRateResponse |- _ => destruct r end.
  - destruct (convertCurrency _ _ _ _) as [res [ err | ]]; steps_auto.
  - steps_auto.
Qed.

End Mains.

(** *** The relations that are kept *)

Lemma with_trace_id (w : World) : with_trace w (trace w) = w.
Proof. now destruct w. Qed.

#[export] Instance same_files_frame : Frame same_files.
Proof. split; unfold same_files; intros; cbn; congruence. Qed.

#[export] Instance same_files_ticks : Ticks same_files.
Proof. intros w n. reflexivity. Qed.

#[export] Instance same_files_reads : Reads same_files.
Proof. intros w l. reflexivity. Qed.

#[export] Instance same_files_requests : Requests same_files.
Proof. intros w url. reflexivity. Qed.

#[export] Instance other_files_frame : Frame other_files.
Proof.
  split.
  - intros w n _. reflexivity.
  - intros w1 w2 w3 H12 H23 n Hn. rewrite (H23 n Hn). exact (H12 n Hn).
  - intros w e _ n _. reflexivity.
Qed.

#[export] Instance other_files_ticks : Ticks other_files.
Proof. intros w k n _. reflexivity. Qed.

#[export] Instance other_files_reads : Reads other_files.
Proof. intros w l n _. reflexivity. Qed.

#[export] Instance other_files_requests : Requests other_files.
Proof. intros w url n _. reflexivity. Qed.

#[export] Instance other_files_writes : Writes other_files.
Proof.
  intros w data. split; intros n Hn; [ | reflexivity ].
  unfold written. cbn [fs with_trace with_fs].
  now rewrite lookup_insert_ne by congruence.
Qed.

#[export] Instance same_input_frame : Frame same_input.
Proof. split; unfold same_input; intros; cbn; congruence. Qed.

#[export] Instance same_input_ticks : Ticks same_input.
Proof. intros w n. reflexivity. Qed.

#[export] Instance same_input_requests : Requests same_input.
Proof. intros w url. reflexivity. Qed.

#[export] Instance same_input_writes : Writes same_input.
Proof. intros w data. split; reflexivity. Qed.

#[export] Instance printed_frame : Frame printed.
Proof.
  split.
  - intros w. exists []. now rewrite app_nil_r, with_trace_id.
  - intros w1 w2 w3 (evs1 & -> & H1) (evs2 & -> & H2). exists (evs1 ++ evs2).
    split; [ | now apply Forall_app ].
    cbn [trace with_trace]. now rewrite app_assoc.
  - intros w e He. exists [e]. split; [ reflexivity | now constructor ].
Qed.

Lemma requests_app (tr1 tr2 : list Event) :
  requests (tr1 ++ tr2) = (requests tr1 + requests tr2)%nat.
Proof. unfold requests. now rewrite List.filter_app, length_app. Qed.

#[export] Instance same_requests_frame : Frame same_requests.
Proof.
  split; unfold same_requests.
  - reflexivity.
  - congruence.
  - intros w e He. cbn [trace with_trace].
    rewrite requests_app. destruct e; try contradiction; cbn; lia.
Qed.

#[export] Instance same_requests_ticks : Ticks same_requests.
Proof. intros w n. reflexivity. Qed.

#[export] Instance same_requests_reads : Reads same_requests.
Proof. intros w l. reflexivity. Qed.

#[export] Instance same_requests_writes : Writes same_requests.
Proof.
  intros w data.
  split; unfold same_requests, written, refused; cbn [trace with_trace];
    rewrite requests_app; cbn; lia.
Qed.

(** ** Files, input and requests of a run *)

Section Runs.
Context {P : Platform}.

(** X4: whatever the arguments, the files, the input and the network, a run
    of [main] leaves every file other than [history.json] as it was: the
    configuration is only read, and nothing else is created or replaced. *)
Theorem main_touches_only_history (w : World) (name : string) :
  name <> historyFile ->
  fs (final_world (main w)) !! name = fs w !! name.
Proof.
  intros Hname.
  exact (steps_main other_files w name Hname).
Qed.

(** X5: the first version of [main] ([src/Go/main.go]) never changes the
    file system, however it ends. *)
Theorem First_main_keeps_files (w : World) :
  fs (final_world (First.main w)) = fs w.
Proof.
  exact (steps_First_main same_files w).
Qed.

(** X6: [--history] as the first argument always ends with status 0, and
    all it does is print: no file is written, no request is sent, nothing
    is read from the input and the clock is not consulted, whether the
    history file is there, unreadable or corrupt. *)
Theorem history_command_read_only (w : World) :
  history_command w = true ->
  exit_code (main w) = 0 /\ printed w (final_world (main w)).
Proof.
  intros Hhist. unfold main.
  rewrite (bind_Returned _ _ _ _ _ (get_Args_returns w)).
  unfold history_command in Hhist. rewrite Hhist. split.
  - destruct (returns_showHistory w) as (u & w' & ->). reflexivity.
  - apply (steps_showHistory printed).
Qed.

(** X7: with a positional argument on the command line, [main] never reads
    the standard input, however the run ends: prompts belong to the
    interactive mode alone. *)
Theorem main_arguments_no_input (w : World) :
  positionals w <> [] ->
  stdin (final_world (main w)) = stdin w.
Proof.
  exact (steps_main_arguments same_input w).
Qed.

End Runs.

Lemma main_touches_only_history_witness :
  fs (final_world
        (main (P := Demo.platform)
           (Demo.world ["USD"; "RUB,EUR"; "100"]
              {[ configFile := Demo.file Demo.config_good ]})))
    !! configFile
  = Some (Demo.file Demo.config_good).
Proof.
  rewrite (main_touches_only_history (P := Demo.platform)) by discriminate.
  reflexivity.
Defined.

Lemma history_command_read_only_witness :
  exit_code
    (main (P := Demo.platform)
       (Demo.world ["--history"; "USD"]
          {[ historyFile := Demo.file Demo.not_json ]})) = 0
  /\ printed
       (Demo.world ["--history"; "USD"]
          {[ historyFile := Demo.file Demo.not_json ]})
       (final_world
          (main (P := Demo.platform)
             (Demo.world ["--history"; "USD"]
                {[ historyFile := Demo.file Demo.not_json ]}))).
Proof.
  apply (history_command_read_only (P := Demo.platform)). reflexivity.
Defined.

Lemma main_arguments_no_input_witness :
  stdin
    (final_world
       (main (P := Demo.platform)
          (with_stdin (Demo.world ["USD"; "RUB"; "100"] ∅) ["EUR"])))
  = ["EUR"].
Proof.
  rewrite (main_arguments_no_input (P := Demo.platform));
    [ reflexivity | discriminate ].
Defined.

(** ** Requests *)

Section Requests.
Context {P : Platform}.

Lemma sends_silent {A : Type} (c : M A) :
  steps same_requests c -> sends 0 c.
Proof. intros H w. rewrite (H w). lia. Qed.

Lemma sends_le {A : Type} (n m : nat) (c : M A) :
  (n <= m)%nat -> sends n c -> sends m c.
Proof. intros Hle H w. specialize (H w). lia. Qed.

Lemma sends_bind {A B : Type} (n m : nat) (c : M A) (k : A -> M B) :
  sends n c -> (forall a, sends m (k a)) -> sends (n + m) (bind c k).
Proof.
  intros Hc Hk w. unfold bind. specialize (Hc w).
  destruct (c w) as [ a w1 | code w1 ]; cbn [final_world] in *.
  - specialize (Hk a w1). lia.
  - lia.
Qed.

(** [getExchangeRates] returns, having sent one request for the rates of
    the base currency. *)
Lemma getExchangeRates_request (baseCurrency : string) (w : World) :
  exists r : result ExchangeRateResponse,
    getExchangeRates baseCurrency w
    = Returned r
        (with_trace w (trace w ++ [HttpGet (apiURL +:+ baseCurrency)])).
Proof.
  unfold getExchangeRates, bind, http_Get.
  destruct (network w _) as [ err | status [ body | err ] ];
    [ now eexists | | ].
  - destruct (negb (status =? StatusOK)); [ now eexists | ].
    destruct (json_Unmarshal_Rates body) as [rates [ err | ]]; now eexists.
  - destruct (negb (status =? StatusOK)); now eexists.
Qed.

Lemma sends_getExchangeRates (baseCurrency : string) :
  sends 1 (getExchangeRates baseCurrency).
Proof.
  intros w. destruct (getExchangeRates_request baseCurrency w) as [r ->].
  cbn [final_world trace with_trace]. rewrite requests_app. cbn. lia.
Qed.

Ltac silent := apply sends_silent; steps_auto.

Lemma sends_main : sends 1 main.
Proof.
  unfold main.
  apply (sends_bind 0 1); [ silent | intros Args ].
  destruct (_ && _).
  { apply (sends_le 0); [ lia | silent ]. }
  apply (sends_bind 0 1); [ silent | intros cfg ].
  destruct (stripFlags _) as [[args jsonOutput0] csvOutput0].
  destruct (main_format _ _ _) as [jsonOutput csvOutput].
  apply (sends_bind 0 1); [ silent | intros _ ].
  apply (sends_bind 0 1);
    [ silent | intros [[fromCurrency toCurrencyRaw] amount] ].
  cbv zeta.
  apply (sends_bind 0 1); [ silent | intros _ ].
  apply (sends_bind 1 0);
    [ apply sends_getExchangeRates | intros [ rates | err ] ]; silent.
Qed.

Lemma sends_First_main : sends 1 First.main.
Proof.
  unfold First.main.
  apply (sends_bind 0 1); [ silent | intros _ ].
  apply (sends_bind 0 1); [ silent | intros Args ].
  apply (sends_bind 0 1);
    [ silent | intros [[fromCurrency toCurrency] amount] ].
  apply (sends_bind 0 1); [ silent | intros _ ].
  apply (sends_bind 1 0);
    [ apply sends_getExchangeRates | intros [ rates | err ] ];
    [ | silent ].
  destruct (convertCurrency _ _ _ _) as [res [ err | ]]; silent.
Qed.

(** X8: a run sends at most one HTTP request, whatever the number of
    targets and however it ends; so does a run of the first version. *)
Theorem one_request_per_run (w : World) :
  (requests (trace (final_world (main w))) <= requests (trace w) + 1)%nat
  /\ (requests (trace (final_world (First.main w)))
      <= requests (trace w) + 1)%nat.
Proof. split; [ apply sends_main | apply sends_First_main ]. Qed.

(** What [getExchangeRates] returns is decided by the response alone. *)
Lemma getExchangeRates_run_iff (baseCurrency : string) (w : World) :
  exists r : result ExchangeRateResponse,
    getExchangeRates baseCurrency w
    = Returned r
        (with_trace w (trace w ++ [HttpGet (apiURL +:+ baseCurrency)]))
    /\ forall rates : ExchangeRateResponse,
         r = Ok rates
         <-> exists body : string,
               network w (apiURL +:+ baseCurrency) = Response 200 (Ok body)
               /\ json_Unmarshal_Rates body = (rates, None).
Proof.
  unfold getExchangeRates, bind, http_Get.
  destruct (network w _) as [ err | status [ body | err ] ].
  - eexists. split; [ reflexivity | ]. intros rates.
    split; [ discriminate | intros (body & [=] & _) ].
  - destruct (Z.eqb_spec status StatusOK) as [-> | Hstatus]; cbn [negb].
    + destruct (json_Unmarshal_Rates body) as [decoded [ err | ]] eqn:Hdec;
        (eexists; split; [ reflexivity | ]); intros rates.
      * split; [ discriminate | ].
        intros (body' & [= <-] & Hdec'). congruence.
      * split.
        -- intros [= <-]. now exists body.
        -- intros (body' & [= <-] & Hdec'). congruence.
    + eexists. split; [ reflexivity | ]. intros rates.
      split; [ discriminate | ].
      intros (body' & [= -> _] & _). now contradiction Hstatus.
  - destruct (negb (status =? StatusOK));
      (eexists; split; [ reflexivity | ]); intros rates;
      (split; [ discriminate | intros (body & [=] & _) ]).
Qed.

(** X9: what [getExchangeRates] returns is decided by the response alone:
    it is a rate table exactly when the status is 200, the body could be
    read and the decoder reported no error, and then it is the table
    decoded from the body; in every case the call returns after one request
    to the API address followed by the base currency. *)
Theorem getExchangeRates_ok_iff (baseCurrency : string) (w : World) :
  exists r : result ExchangeRateResponse,
    getExchangeRates baseCurrency w
    = Returned r
        (with_trace w (trace w ++ [HttpGet (apiURL +:+ baseCurrency)]))
    /\ forall rates : ExchangeRateResponse,
         r = Ok rates
         <-> exists body : string,
               network w (apiURL +:+ baseCurrency) = Response 200 (Ok body)
               /\ json_Unmarshal_Rates body = (rates, None).
Proof. exact (getExchangeRates_run_iff baseCurrency w). Qed.

(** X10: the errors of [getExchangeRates], by cause: a transport error, a
    status other than 200 (whatever the body holds), a body that could not
    be read, and a body that the decoder rejects; each with the message of
    the source around the cause. *)
Theorem getExchangeRates_errors (baseCurrency : string) (w : World) :
  exists (r : result ExchangeRateResponse) (w' : World),
    getExchangeRates baseCurrency w = Returned r w'
    /\ (forall msg : string,
          network w (apiURL +:+ baseCurrency) = TransportError msg ->
          r = Err ("ошибка при запросе к API: " +:+ msg))
    /\ (forall (status : Z) (body : result string),
          network w (apiURL +:+ baseCurrency) = Response status body ->
          status <> 200 ->
          r = Err ("API вернул код ошибки: " +:+ fmt_d status))
    /\ (forall msg : string,
          network w (apiURL +:+ baseCurrency) = Response 200 (Err msg) ->
          r = Err ("ошибка чтения ответа: " +:+ msg))
    /\ (forall (body msg : string) (rates : ExchangeRateResponse),
          network w (apiURL +:+ baseCurrency) = Response 200 (Ok body) ->
          json_Unmarshal_Rates body = (rates, Some msg) ->
          r = Err ("ошибка парсинга JSON: " +:+ msg)).
Proof.
  destruct (getExchangeRates_request baseCurrency w) as [r Hrun].
  exists r, (with_trace w (trace w ++ [HttpGet (apiURL +:+ baseCurrency)])).
  split; [ exact Hrun | ].
  unfold getExchangeRates, bind, http_Get in Hrun.
  repeat split.
  - intros msg Hnet. rewrite Hnet in Hrun. now injection Hrun as <-.
  - intros status body Hnet Hstatus. rewrite Hnet in Hrun.
    destruct (Z.eqb_spec status StatusOK) as [-> | _];
      [ now contradiction Hstatus | ].
    cbn [negb] in Hrun. now injection Hrun as <-.
  - intros msg Hnet. rewrite Hnet in Hrun. now injection Hrun as <-.
  - intros body msg rates Hnet Hdec. rewrite Hnet in Hrun. cbn in Hrun.
    rewrite Hdec in Hrun. now injection Hrun as <-.
Qed.

End Requests.

(** ** Arguments that are turned down, and the machine-readable modes *)

Lemma bind_Exited {A B : Type} (c : M A) (k : A -> M B) (w w' : World)
    (code : Z) :
  c w = Exited code w' -> bind c k w = Exited code w'.
Proof. intros H. unfold bind. now rewrite H. Qed.

Lemma with_trace_twice (w : World) (tr1 tr2 : list Event) :
  with_trace (with_trace w tr1) tr2 = with_trace w tr2.
Proof. reflexivity. Qed.

Lemma outputs_printed (evs : list Event) (w : World) :
  Forall is_print evs -> printed w (with_trace w (trace w ++ evs)).
Proof. intros Hevs. now exists evs. Qed.

Section Rejected.
Context {P : Platform}.

Lemma main_params_rejects (cfg : Config) (prog : string)
    (args : list string) (jsonOutput csvOutput : bool) (w : World) :
  rejected args ->
  exists w' : World,
    main_params cfg prog args jsonOutput csvOutput w = Exited 1 w'
    /\ printed w w'.
Proof.
  intros [[H0 H3] | (from & to & amount & err & -> & Hparse)];
    unfold main_params.
  - destruct (Nat.eqb_spec (length args) 3) as [ | _ ]; [ contradiction | ].
    destruct (Nat.eqb_spec (length args) 0) as [ | _ ]; [ contradiction | ].
    destruct (jsonOutput || csvOutput).
    + unfold bind. rewrite outputError_outputs. unfold outputs, os_Exit.
      eexists. split; [ reflexivity | ].
      apply outputs_printed. repeat constructor.
      unfold error_event. now destruct jsonOutput.
    + unfold bind, emit, os_Exit. eexists. split; [ reflexivity | ].
      rewrite with_trace_twice. cbn [trace with_trace].
      rewrite <- app_assoc.
      apply outputs_printed. now repeat constructor.
  - cbn [length Nat.eqb index nth]. rewrite Hparse.
    destruct (jsonOutput || csvOutput).
    + unfold bind. rewrite outputError_outputs. unfold outputs, os_Exit.
      eexists. split; [ reflexivity | ].
      apply outputs_printed. repeat constructor.
      unfold error_event. now destruct jsonOutput.
    + unfold bind, emit, os_Exit. eexists. split; [ reflexivity | ].
      apply outputs_printed. now repeat constructor.
Qed.

(** X11: when the positional arguments are turned down (their number is
    neither none nor three, or the amount is no number), [main] ends with
    status 1 and has done nothing but print: no request was sent, no file
    was written, no input was read and the clock was not consulted. *)
Theorem rejected_arguments_offline (w : World) :
  history_command w = false ->
  rejected (positionals w) ->
  exit_code (main w) = 1 /\ printed w (final_world (main w)).
Proof.
  intros Hhist Hrej.
  destruct (loadConfig_returns w) as [cfg Hcfg].
  rewrite (main_unfold w cfg Hhist Hcfg). cbv zeta.
  destruct (main_format _ _ _) as [jsonOutput csvOutput].
  assert (exists w1 : World,
            (if negb jsonOutput && negb csvOutput then printHeader
             else ret tt) w = Returned tt w1
            /\ printed w w1) as (w1 & Hhead & Hprinted1).
  { destruct (negb jsonOutput && negb csvOutput).
    - rewrite printHeader_outputs. eexists. split; [ reflexivity | ].
      apply outputs_printed. now repeat constructor.
    - eexists. split; [ reflexivity | apply frame_refl ]. }
  destruct (main_params_rejects cfg (index (os_Args w) 0) (positionals w)
              jsonOutput csvOutput w1 Hrej) as (w2 & Hparams & Hprinted2).
  rewrite (bind_Returned _ _ _ _ _ Hhead).
  rewrite (bind_Exited _ _ _ _ _ Hparams).
  split; [ reflexivity | ].
  exact (frame_trans _ _ _ Hprinted1 Hprinted2).
Qed.

End Rejected.

Lemma rejected_arguments_offline_witness :
  exit_code
    (main (P := Demo.platform) (Demo.world ["--csv"; "USD"; "RUB"; "ten"] ∅))
  = 1
  /\ printed (Demo.world ["--csv"; "USD"; "RUB"; "ten"] ∅)
       (final_world
          (main (P := Demo.platform)
             (Demo.world ["--csv"; "USD"; "RUB"; "ten"] ∅))).
Proof.
  apply (rejected_arguments_offline (P := Demo.platform));
    [ reflexivity | ].
  right. exists "USD", "RUB", "ten", "invalid syntax". split; reflexivity.
Defined.

(** One step through a computation that may write the history file. *)
Ltac trace_step :=
  cbv zeta;
  first
    [ emits_step
    | lazymatch goal with
      | |- emits _ (os_WriteFile _ _) =>
          apply emits_os_WriteFile; intros; exact I
      end ].

Section Machine.
Context {P : Platform}.

Lemma plain_outputError (message : string) (asJSON : bool) :
  emits machine_readable (outputError message asJSON).
Proof. unfold outputError. repeat trace_step. Qed.

Lemma plain_saveToHistory (from to : string) (amount result rate : float64)
    (updateTime : time.Time) :
  emits machine_readable
    (saveToHistory from to amount result rate updateTime).
Proof. unfold saveToHistory. repeat trace_step. Qed.

Lemma plain_outputJSON (from to : string) (amount result rate : float64)
    (updateTime : time.Time) :
  emits machine_readable
    (outputJSON from to amount result rate updateTime).
Proof. unfold outputJSON, outputError. repeat trace_step. Qed.

Lemma plain_outputCSV (from to : string) (amount result rate : float64)
    (updateTime : time.Time) :
  emits machine_readable (outputCSV from to amount result rate updateTime).
Proof. unfold outputCSV. repeat trace_step. Qed.

Lemma plain_getExchangeRates (baseCurrency : string) :
  emits machine_readable (getExchangeRates baseCurrency).
Proof. unfold getExchangeRates. repeat trace_step. Qed.

Lemma plain_main_convert (jsonOutput csvOutput : bool) (from : string)
    (amount : float64) (rates : ExchangeRateResponse)
    (updateTime : time.Time) (t : string) :
  jsonOutput || csvOutput = true ->
  emits machine_readable
    (main_convert jsonOutput csvOutput from amount rates updateTime t).
Proof.
  intros Hmode. unfold main_convert. cbv zeta.
  destruct (String.eqb _ _); [ trace_step | ].
  destruct (convertCurrency _ _ _ _) as [res [ err | ]].
  - rewrite Hmode. apply plain_outputError.
  - trace_step; [ apply plain_saveToHistory | ].
    destruct jsonOutput; [ apply plain_outputJSON | ].
    destruct csvOutput; [ apply plain_outputCSV | discriminate ].
Qed.

Lemma plain_main_loop (jsonOutput csvOutput : bool) (from : string)
    (amount : float64) (rates : ExchangeRateResponse)
    (updateTime : time.Time) (targets : list string) :
  jsonOutput || csvOutput = true ->
  emits machine_readable
    (main_loop jsonOutput csvOutput from amount rates updateTime targets).
Proof.
  intros Hmode.
  induction targets as [ | t rest IH ]; cbn [main_loop]; [ trace_step | ].
  trace_step; [ now apply plain_main_convert | exact IH ].
Qed.

Lemma plain_main_params (cfg : Config) (prog : string) (args : list string)
    (jsonOutput csvOutput : bool) :
  args <> [] -> jsonOutput || csvOutput = true ->
  emits machine_readable (main_params cfg prog args jsonOutput csvOutput).
Proof.
  intros Hargs Hmode. unfold main_params. rewrite Hmode.
  destruct (length args =? 3)%nat.
  - destruct (strconv_ParseFloat _); [ trace_step | ].
    trace_step; [ apply plain_outputError | trace_step ].
  - destruct (Nat.eqb_spec (length args) 0) as [Hlen | _].
    + destruct args; [ contradiction | discriminate ].
    + trace_step; [ apply plain_outputError | trace_step ].
Qed.

Lemma main_format_flags (cfg : Config) (jsonOutput csvOutput : bool) :
  jsonOutput || csvOutput = true ->
  main_format cfg jsonOutput csvOutput = (jsonOutput, csvOutput).
Proof. unfold main_format. now destruct jsonOutput, csvOutput. Qed.

(** A run in a machine-readable mode, with arguments on the command
    line. *)
Lemma main_plain_mode (w : World) (cfg : Config)
    (jsonOutput csvOutput : bool) :
  history_command w = false ->
  positionals w <> [] ->
  loadConfig w = Returned cfg w ->
  main_format cfg (existsb is_json_flag (arguments w))
    (existsb is_csv_flag (arguments w)) = (jsonOutput, csvOutput) ->
  jsonOutput || csvOutput = true ->
  exists evs : list Event,
    trace (final_world (main w)) = trace w ++ evs
    /\ Forall machine_readable evs.
Proof.
  intros Hhist Hargs Hcfg Hformat Hmode.
  rewrite (main_unfold w cfg Hhist Hcfg). cbv zeta.
  change (drop 1 (os_Args w)) with (arguments w). rewrite Hformat.
  assert (negb jsonOutput && negb csvOutput = false) as ->
    by (now destruct jsonOutput, csvOutput).
  rewrite Hmode.
  lazymatch goal with
  | |- exists evs, trace (final_world (?c w)) = _ /\ _ =>
      assert (emits machine_readable c) as Hemits; [ | exact (Hemits w) ]
  end.
  trace_step; [ trace_step | ].
  trace_step; [ now apply plain_main_params | ].
  lazymatch goal with
  | params : (string * string * float)%type |- _ =>
      destruct params as [[fromCurrency toCurrencyRaw] amount]
  end.
  trace_step; [ trace_step | ].
  trace_step; [ apply plain_getExchangeRates | ].
  lazymatch goal with r : result ExchangeRateResponse |- _ => destruct r end.
  - now apply plain_main_loop.
  - trace_step; [ apply plain_outputError | trace_step ].
Qed.

(** X12: in a run that is not the history command (the first argument is
    not [--history]), with [--json] or [--csv] among the arguments and at
    least one positional argument, whole plain lines only are printed
    ([fmt.Println] and [fmt.Printf]): no colour, no header and no prompt
    reach the output, whether the run converts, reports an error or exits;
    besides the lines there are only the request for the rates and the
    history writes. *)
Theorem machine_modes_plain (w : World) :
  history_command w = false ->
  positionals w <> [] ->
  existsb is_json_flag (arguments w) || existsb is_csv_flag (arguments w)
    = true ->
  exists evs : list Event,
    trace (final_world (main w)) = trace w ++ evs
    /\ Forall machine_readable evs.
Proof.
  intros Hhist Hargs Hflags.
  destruct (loadConfig_returns w) as [cfg Hcfg].
  exact (main_plain_mode w cfg _ _ Hhist Hargs Hcfg
           (main_format_flags cfg _ _ Hflags) Hflags).
Qed.

(** X22: without a flag the output format of the configuration decides,
    whatever its case: when [output_format] in [config.json] reads [json]
    or [csv] once lower-cased, a run that is not the history command (the
    first argument is not [--history]) and has a positional argument prints
    whole plain lines only, as with the flag. *)
Theorem config_format_applies (w : World) (data : string) :
  history_command w = false ->
  positionals w <> [] ->
  existsb is_json_flag (arguments w) = false ->
  existsb is_csv_flag (arguments w) = false ->
  read_file w configFile = Ok data ->
  ToLower (OutputFormat (fst (json_Unmarshal_Config data defaultConfig)))
    = "json"
  \/ ToLower (OutputFormat (fst (json_Unmarshal_Config data defaultConfig)))
     = "csv" ->
  exists evs : list Event,
    trace (final_world (main w)) = trace w ++ evs
    /\ Forall machine_readable evs.
Proof.
  intros Hhist Hargs Hjson Hcsv Hread Hformat.
  pose proof (loadConfig_run w) as Hcfg. rewrite Hread in Hcfg.
  cbv zeta in Hcfg.
  destruct Hformat as [Hf | Hf].
  - apply (main_plain_mode w _ true false Hhist Hargs Hcfg);
      [ | reflexivity ].
    rewrite Hjson, Hcsv. unfold main_format. cbn [OutputFormat negb andb].
    now rewrite Hf.
  - apply (main_plain_mode w _ false true Hhist Hargs Hcfg);
      [ | reflexivity ].
    rewrite Hjson, Hcsv. unfold main_format. cbn [OutputFormat negb andb].
    now rewrite Hf.
Qed.

(** X13: blank targets do not count: the loop over the targets behaves as
    the loop over the targets that are not blank after trimming, so that
    [RUB,,EUR] and [RUB, ,EUR] convert like [RUB,EUR]. *)
Theorem blank_targets_ignored (jsonOutput csvOutput : bool) (from : string)
    (amount : float64) (rates : ExchangeRateResponse)
    (updateTime : time.Time) (targets : list string) (w : World) :
  main_loop jsonOutput csvOutput from amount rates updateTime targets w
  = main_loop jsonOutput csvOutput from amount rates updateTime
      (List.filter nonblank targets) w.
Proof.
  revert w. induction targets as [ | t rest IH ]; intros w; [ reflexivity | ].
  cbn [List.filter]. unfold nonblank at 1.
  destruct (String.eqb_spec (strings.TrimSpace t) EmptyString) as [Hb | Hb];
    cbn [negb].
  - rewrite main_loop_blank by exact Hb. apply IH.
  - cbn [main_loop]. unfold bind.
    destruct (main_convert _ _ _ _ _ _ _ w) as [ u w1 | code w1 ];
      [ apply IH | reflexivity ].
Qed.

End Machine.

Lemma machine_modes_plain_witness :
  exists evs : list Event,
    trace
      (final_world
         (main (P := Demo.platform)
            (Demo.world ["USD"; "--csv"; "RUB,XXX"; "100"] ∅)))
    = trace (Demo.world ["USD"; "--csv"; "RUB,XXX"; "100"] ∅) ++ evs
    /\ Forall machine_readable evs.
Proof.
  apply (machine_modes_plain (P := Demo.platform));
    [ reflexivity | discriminate | reflexivity ].
Defined.

Lemma config_format_applies_witness :
  exists evs : list Event,
    trace
      (final_world
         (main (P := Demo.platform)
            (Demo.world ["USD"; "RUB"; "100"]
               {[ configFile := Demo.file Demo.config_good ]})))
    = trace
        (Demo.world ["USD"; "RUB"; "100"]
           {[ configFile := Demo.file Demo.config_good ]})
      ++ evs
    /\ Forall machine_readable evs.
Proof.
  apply (config_format_applies (P := Demo.platform) _ Demo.config_good);
    first [ reflexivity | discriminate | left; reflexivity ].
Defined.


(** ** The result block and the age of the rates *)

Lemma Sub_negative (now updateTime : time.Time) :
  now < updateTime -> time.Sub now updateTime < 0.
Proof. unfold time.Sub, minInt64, maxInt64. lia. Qed.

Lemma printResult_run (amount : float64) (from : string) (result : float64)
    (to : string) (rates : ExchangeRateResponse) (w : World) :
  printResult amount from result to rates w
  = Returned tt
      (with_trace (with_ticks w (S (ticks w)))
         (trace w
          ++ result_events amount from result to rates
               (formatTimeAgo
                  (time.Sub (clock w (ticks w))
                     (time.Unix (TimeLastUpdated rates) 0))))).
Proof.
  unfold printResult, result_events, time_Since, bind, emit, time_Now, ret.
  destruct w as [prog args files dw input clk tk net tr].
  destruct (Rates rates !! to) as [ rate | ];
    cbn [trace with_trace with_ticks ticks clock program arguments fs
         dir_writable stdin network];
    rewrite <- ?app_assoc; reflexivity.
Qed.

(** [time.Unix] on whole seconds: the instant is that many seconds from
    the epoch as long as the internal seconds fit an [int64]. *)
Lemma Unix_seconds (sec : Z) :
  minInt64 - time.unixToInternal <= sec <= maxInt64 - time.unixToInternal ->
  time.Unix sec 0 = sec * time.Second.
Proof.
  intros Hsec. unfold time.Unix. cbn [Z.ltb Z.leb Z.compare orb].
  unfold int64.
  change time.unixToInternal with 62135596800 in *.
  unfold minInt64, maxInt64 in Hsec.
  rewrite Z.mod_small by lia. lia.
Qed.

(** Past that point the internal seconds wrap around: the largest
    timestamp is an instant far in the past, and its age is the largest
    [Duration]. *)
Example Unix_wraps :
  time.Unix maxInt64 0 = (minInt64 - 1) * time.Second
  /\ time.Sub (Demo.clock_at 0) (time.Unix maxInt64 0) = maxInt64
  /\ formatTimeAgo (time.Sub (Demo.clock_at 0) (time.Unix maxInt64 0))
     = "106751 дня/дней назад".
Proof. repeat split; vm_compute; reflexivity. Qed.

(** X14: when the instant that [time.Unix] makes of the timestamp of the
    rates is after the clock reading (a clock that is behind, or a
    timestamp from the future), [printResult] prints them as updated just
    now: the line never shows a negative age.  The call returns, reads the
    clock once and changes nothing else. *)
Theorem printResult_future_update (amount : float64) (from : string)
    (result : float64) (to : string) (rates : ExchangeRateResponse)
    (w : World) :
  clock w (ticks w) < time.Unix (TimeLastUpdated rates) 0 ->
  printResult amount from result to rates w
  = Returned tt
      (with_trace (with_ticks w (S (ticks w)))
         (trace w
          ++ result_events amount from result to rates "только что")).
Proof.
  intros Hfuture. rewrite printResult_run.
  apply Sub_negative in Hfuture.
  rewrite (formatTimeAgo_just_now _);
    [ reflexivity | apply Hours_nonpos; lia | apply Minutes_nonpos; lia ].
Qed.

Lemma printResult_future_update_witness :
  trace
    (final_world
       (printResult 100 "USD" 9000 "RUB"
          {| Base := "USD"; Date := "2033-01-15";
             Rates := <["RUB" := 90%float]> ∅;
             TimeLastUpdated := 2000000000 |}
          (Demo.world [] ∅)))
  = result_events 100 "USD" 9000 "RUB"
      {| Base := "USD"; Date := "2033-01-15";
         Rates := <["RUB" := 90%float]> ∅;
         TimeLastUpdated := 2000000000 |}
      "только что".
Proof.
  rewrite printResult_future_update; reflexivity.
Defined.

(** ** The first version *)

Section FirstVersion.
Context {P : Platform}.

(** X15: in the first version ([src/Go/main.go]) a target that the rate
    table does not have ends the run: with three arguments, an amount that
    parses and rates that were fetched, [main] exits with status 1, the
    conversion error being the last thing printed, and the result block is
    never reached. *)
Theorem First_main_missing_target (w : World) (from to x body : string)
    (amount : float64) (rates : ExchangeRateResponse) :
  arguments w = [from; to; x] ->
  strconv_ParseFloat x = Ok amount ->
  network w (apiURL +:+ ToUpper from) = Response 200 (Ok body) ->
  json_Unmarshal_Rates body = (rates, None) ->
  Rates rates !! ToUpper to = None ->
  First.main w
  = Exited 1
      (with_trace w
         (trace w ++ header_events
          ++ [ Colored Cyan "🔄 Загрузка актуальных курсов валют..." [];
               HttpGet (apiURL +:+ ToUpper from);
               Colored Red "❌ Ошибка конвертации: %v"
                 [AStr ("валюта " +:+ ToUpper to +:+ " не найдена")] ])).
Proof.
  intros Hargs Hparse Hnet Hdec Hmiss. unfold First.main.
  unfold bind at 1. rewrite printHeader_outputs. unfold outputs.
  unfold bind at 1, get_Args, os_Args. cbn [arguments program with_trace].
  rewrite Hargs. cbn [length Nat.eqb index nth].
  rewrite Hparse. unfold bind at 1, ret.
  unfold bind at 1, emit. unfold bind at 1.
  unfold getExchangeRates, bind at 1, http_Get.
  cbn [network with_trace trace]. rewrite Hnet.
  change (negb (200 =? StatusOK)) with false. cbv iota.
  rewrite Hdec. unfold ret, convertCurrency. cbv beta iota.
  rewrite Hmiss.
  unfold bind, emit, os_Exit. cbn [trace with_trace].
  rewrite <- !app_assoc. reflexivity.
Qed.

Lemma ends_returns {A : Type} (c : M A) :
  returns c -> forall w, ends_0_or_1 (c w).
Proof. intros Hc w. now destruct (Hc w) as (a & w' & ->). Qed.

Lemma ends_bind {A B : Type} (c : M A) (k : A -> M B) :
  (forall w, ends_0_or_1 (c w)) ->
  (forall a w, ends_0_or_1 (k a w)) ->
  forall w, ends_0_or_1 (bind c k w).
Proof.
  intros Hc Hk w. unfold bind. specialize (Hc w).
  destruct (c w) as [ a w' | code w' ]; [ apply Hk | exact Hc ].
Qed.

Lemma ends_failure {A : Type} (e : Event) :
  forall w, ends_0_or_1 ((emit e >> os_Exit (A := A) 1) w).
Proof. intros w. reflexivity. Qed.

Lemma ends_getAmount (prompt : string) :
  forall w, ends_0_or_1 (getAmount prompt w).
Proof.
  unfold getAmount.
  apply ends_bind; [ apply ends_returns, returns_emit | intros _ ].
  apply ends_bind; [ apply ends_returns, returns_fmt_Scanln | intros input ].
  destruct (strconv_ParseFloat input);
    [ apply ends_returns, returns_ret | apply ends_failure ].
Qed.

(** X16: every exit of the first version has status 1; otherwise [main]
    returns, which is status 0. *)
Theorem First_main_status (w : World) :
  exit_code (First.main w) = 0 \/ exit_code (First.main w) = 1.
Proof.
  assert (ends_0_or_1 (First.main w)) as Hends.
  { revert w. unfold First.main.
    apply ends_bind; [ apply ends_returns, returns_printHeader | intros _ ].
    apply ends_bind; [ apply ends_returns, returns_get_Args | intros Args ].
    apply ends_bind.
    { destruct (length Args =? 4)%nat.
      - destruct (strconv_ParseFloat _);
          [ apply ends_returns, returns_ret | apply ends_failure ].
      - apply ends_bind; [ apply ends_returns, returns_getInput | intros ? ].
        apply ends_bind; [ apply ends_returns, returns_getInput | intros ? ].
        apply ends_bind; [ apply ends_getAmount | intros ? ].
        apply ends_returns, returns_ret. }
    intros [[fromCurrency toCurrency] amount].
    apply ends_bind; [ apply ends_returns, returns_emit | intros _ ].
    apply ends_bind;
      [ apply ends_returns, returns_getExchangeRates | intros [ rates | err ] ].
    - destruct (convertCurrency _ _ _ _) as [res [ err | ]];
        [ apply ends_failure | apply ends_returns, returns_printResult ].
    - apply ends_failure. }
  destruct (First.main w) as [ u w' | code w' ]; cbn in *; auto.
Qed.

End FirstVersion.

Lemma First_main_missing_target_witness :
  exit_code
    (First.main (P := Demo.platform) (Demo.world ["usd"; "xxx"; "10"] ∅))
  = 1.
Proof.
  rewrite (First_main_missing_target (P := Demo.platform)
             (Demo.world ["usd"; "xxx"; "10"] ∅) "usd" "xxx" "10"
             Demo.rates_body 10%float Demo.rates);
    reflexivity.
Defined.

(** ** Prompts and codes *)

Lemma upper_byte_idempotent (b : ascii) :
  strings.upper_byte (strings.upper_byte b) = strings.upper_byte b.
Proof. destruct b as [[] [] [] [] [] [] [] []]; reflexivity. Qed.

Lemma upper_byte_ascii (b : ascii) :
  strings.is_ascii b = true ->
  strings.is_ascii (strings.upper_byte b) = true.
Proof. destruct b as [[] [] [] [] [] [] [] []]; vm_compute; congruence. Qed.

Lemma map_bytes_upper_ascii (s : string) :
  strings.all_bytes strings.is_ascii s = true ->
  strings.all_bytes strings.is_ascii (strings.map_bytes strings.upper_byte s)
  = true.
Proof.
  induction s as [ | b s IH ]; [ reflexivity | ].
  cbn [strings.all_bytes strings.map_bytes]. intros H.
  apply andb_prop in H as [Hb Hs].
  now rewrite (upper_byte_ascii b Hb), (IH Hs).
Qed.

Lemma map_bytes_upper_idempotent (s : string) :
  strings.map_bytes strings.upper_byte
    (strings.map_bytes strings.upper_byte s)
  = strings.map_bytes strings.upper_byte s.
Proof.
  induction s as [ | b s IH ]; [ reflexivity | ].
  cbn [strings.map_bytes]. now rewrite upper_byte_idempotent, IH.
Qed.

Section Codes.
Context {P : Platform}.

Lemma ToUpper_idempotent (s : string) :
  strings.all_bytes strings.is_ascii s = true ->
  ToUpper (ToUpper s) = ToUpper s.
Proof.
  intros Hs. unfold ToUpper, strings.ToUpper. rewrite Hs.
  now rewrite (map_bytes_upper_ascii s Hs), map_bytes_upper_idempotent.
Qed.

(** X17: for currency codes written in ASCII the command line does not
    tell upper case from lower case: [usd rub 100] gives [main] the same
    parameters, or the same refusal of the amount, as [USD RUB 100]. *)
Theorem ascii_codes_case_insensitive (cfg : Config) (prog from to x : string)
    (jsonOutput csvOutput : bool) :
  strings.all_bytes strings.is_ascii from = true ->
  strings.all_bytes strings.is_ascii to = true ->
  main_params cfg prog [from; to; x] jsonOutput csvOutput
  = main_params cfg prog [ToUpper from; ToUpper to; x] jsonOutput csvOutput.
Proof.
  intros Hfrom Hto. unfold main_params. cbn [length Nat.eqb index nth].
  now rewrite (ToUpper_idempotent from Hfrom), (ToUpper_idempotent to Hto).
Qed.

(** X18: in the interactive mode a blank answer takes the default of the
    configuration: with two blank lines and an amount on the standard
    input, [main] goes on with the configured source and target, having
    printed the three prompts (the first two naming the defaults) and read
    the three lines. *)
Theorem interactive_defaults (cfg : Config) (prog : string)
    (jsonOutput csvOutput : bool) (w : World) (a b x : string)
    (rest : list string) (amount : float64) :
  stdin w = a :: b :: x :: rest ->
  strings.TrimSpace a = EmptyString ->
  strings.TrimSpace b = EmptyString ->
  strconv_ParseFloat x = Ok amount ->
  main_params cfg prog [] jsonOutput csvOutput w
  = Returned (DefaultFrom cfg, DefaultTo cfg, amount)
      (with_stdin
         (with_trace w
            (trace w
             ++ [ Print ("Введите исходную валюту (по умолчанию "
                         +:+ DefaultFrom cfg +:+ "): ");
                  Print ("Введите целевую валюту (по умолчанию "
                         +:+ DefaultTo cfg +:+ "): ");
                  Print "Введите сумму для конвертации: " ]))
         rest).
Proof.
  intros Hstdin Ha Hb Hx. unfold main_params. cbn [length Nat.eqb].
  unfold getInput, getAmount, bind, emit, fmt_Scanln, ret.
  cbn [stdin with_trace with_stdin trace]. rewrite Hstdin, Ha.
  change (ToUpper EmptyString) with EmptyString.
  cbn [String.eqb stdin with_trace with_stdin trace]. rewrite Hb.
  change (ToUpper EmptyString) with EmptyString.
  cbn [String.eqb stdin with_trace with_stdin trace]. rewrite Hx.
  destruct w as [prg args files dw input clk tk net tr].
  cbn [trace with_trace with_stdin program arguments fs dir_writable stdin
       clock ticks network].
  now rewrite <- !app_assoc.
Qed.

End Codes.

Lemma ascii_codes_case_insensitive_witness :
  main_params (P := Demo.platform) defaultConfig "converter"
    ["usd"; "rub,eur"; "100"] false false
  = main_params (P := Demo.platform) defaultConfig "converter"
      ["USD"; "RUB,EUR"; "100"] false false.
Proof.
  apply (ascii_codes_case_insensitive (P := Demo.platform)); reflexivity.
Defined.

Lemma interactive_defaults_witness :
  exists w' : World,
    main_params (P := Demo.platform) defaultConfig "converter" [] false false
      (with_stdin (Demo.world [] ∅) [EmptyString; " "; "100"; "unread"])
    = Returned ("USD", "RUB", 100%float) w'
    /\ stdin w' = ["unread"].
Proof.
  eexists. split.
  - apply (interactive_defaults (P := Demo.platform) defaultConfig
             "converter" false false
             (with_stdin (Demo.world [] ∅)
                [EmptyString; " "; "100"; "unread"])
             EmptyString " " "100" ["unread"] 100%float);
      reflexivity.
  - reflexivity.
Defined.

(** ** The sign of a conversion *)

Lemma SFmul_pos_or_zero (x y : spec_float) :
  sf_pos_or_zero x = true -> sf_pos_or_zero y = true ->
  sf_pos_or_zero (SFmul prec emax x y) = true.
Proof.
  destruct x as [ [ | ] | [ | ] | | [ | ] mx ex ];
    destruct y as [ [ | ] | [ | ] | | [ | ] my ey ];
    cbn [sf_pos_or_zero SFmul xorb negb]; try congruence; intros _ _.
  apply binary_round_aux_pos.
Qed.

(** X19: a conversion does not turn the sign: when neither the amount nor
    the rate of the target is negative, the result of [convertCurrency] is
    not negative either (it is a zero, a positive number, or not a number
    when an infinite amount meets a zero rate). *)
Theorem convertCurrency_keeps_sign (amount rate : float64) (from to : string)
    (rates : ExchangeRateResponse) :
  Rates rates !! to = Some rate ->
  sf_pos_or_zero (Prim2SF amount) = true ->
  sf_pos_or_zero (Prim2SF rate) = true ->
  sf_pos_or_zero (Prim2SF (fst (convertCurrency amount from to rates)))
  = true.
Proof.
  intros Hrate Hamount Hpos. unfold convertCurrency. rewrite Hrate.
  cbn [fst]. rewrite mul_spec. now apply SFmul_pos_or_zero.
Qed.

Lemma convertCurrency_keeps_sign_witness :
  sf_pos_or_zero
    (Prim2SF (fst (convertCurrency 100 "USD" "RUB" Demo.rates))) = true.
Proof.
  apply (convertCurrency_keeps_sign 100 90 "USD" "RUB" Demo.rates);
    reflexivity.
Defined.

(** ** Runs from end to end *)

#[export] Instance same_outside_frame : Frame same_outside.
Proof.
  split; unfold same_outside.
  - now split.
  - intros w1 w2 w3 [H1 H2] [H3 H4]. split; congruence.
  - now split.
Qed.

#[export] Instance same_outside_ticks : Ticks same_outside.
Proof. intros w n. now split. Qed.

#[export] Instance same_outside_reads : Reads same_outside.
Proof. intros w l. now split. Qed.

#[export] Instance same_outside_requests : Requests same_outside.
Proof. intros w url. now split. Qed.

Lemma bind_ret_tt (c : M unit) (w : World) :
  bind c (fun _ => ret tt) w = c w.
Proof. unfold bind, ret. now destruct (c w) as [ [] w' | code w' ]. Qed.

Section EndToEnd.
Context {P : Platform}.

Lemma ends_main_params (cfg : Config) (prog : string) (args : list string)
    (jsonOutput csvOutput : bool) :
  forall w, ends_0_or_1 (main_params cfg prog args jsonOutput csvOutput w).
Proof.
  unfold main_params.
  destruct (length args =? 3)%nat; [ | destruct (length args =? 0)%nat ].
  - destruct (strconv_ParseFloat _);
      [ apply ends_returns, returns_ret | ].
    apply ends_bind; [ | intros; exact I || reflexivity ].
    destruct (jsonOutput || csvOutput);
      [ apply ends_returns, returns_outputError
      | apply ends_returns, returns_emit ].
  - apply ends_bind; [ apply ends_returns, returns_getInput | intros ? ].
    apply ends_bind; [ apply ends_returns, returns_getInput | intros ? ].
    apply ends_bind; [ apply ends_getAmount | intros ? ].
    apply ends_returns, returns_ret.
  - apply ends_bind; [ | intros; reflexivity ].
    destruct (jsonOutput || csvOutput);
      [ apply ends_returns, returns_outputError | ].
    apply ends_returns, returns_bind;
      [ apply returns_emit | intros; apply returns_emit ].
Qed.

(** The part of [main] that follows the parameters, when no rate table can
    be had. *)
Lemma fetch_fails (jsonOutput csvOutput : bool) (fromCurrency : string)
    (k : ExchangeRateResponse -> M unit) (w : World) :
  no_rates w ->
  exists w' : World,
    ((if negb jsonOutput && negb csvOutput then
        emit (Colored Cyan "🔄 Загрузка актуальных курсов валют..." [])
      else ret tt) >>
     let* r := getExchangeRates fromCurrency in
     match r with
     | Err err =>
         (if jsonOutput || csvOutput then
            outputError ("ошибка при получении курсов: " +:+ err) jsonOutput
          else
            emit (Colored Red "❌ Ошибка при получении курсов: %v" [AStr err])) >>
         os_Exit 1
     | Ok rates => k rates
     end) w = Exited 1 w'
    /\ fs w' = fs w.
Proof.
  intros Hnone.
  set (first :=
         if negb jsonOutput && negb csvOutput then
           emit (Colored Cyan "🔄 Загрузка актуальных курсов валют..." [])
         else ret tt).
  assert (exists w1, first w = Returned tt w1 /\ same_outside w w1)
    as (w1 & Hfirst & Hfs1 & Hnet1).
  { subst first. destruct (negb jsonOutput && negb csvOutput);
      eexists; (split; [ reflexivity | now split ]). }
  rewrite (bind_Returned _ _ _ _ _ Hfirst).
  destruct (getExchangeRates_run_iff fromCurrency w1) as (r & Hrun & Hok).
  rewrite (bind_Returned _ _ _ _ _ Hrun).
  destruct r as [ rates | err ].
  - destruct (proj1 (Hok rates) eq_refl) as (body & Hbody & Hdec).
    rewrite Hnet1 in Hbody. destruct (Hnone _ _ rates Hbody Hdec).
  - destruct (jsonOutput || csvOutput).
    + unfold bind. rewrite outputError_outputs. unfold outputs, os_Exit.
      eexists. split; [ reflexivity | exact Hfs1 ].
    + unfold bind, emit, os_Exit. eexists.
      split; [ reflexivity | exact Hfs1 ].
Qed.

(** X20: when no rate table can be had (the request fails, the status is
    not 200, the body cannot be read or does not decode), a run that is not
    the history command ends with status 1 and leaves the file system as it
    was: nothing is appended to the history. *)
Theorem failed_fetch_writes_nothing (w : World) :
  history_command w = false ->
  no_rates w ->
  exit_code (main w) = 1 /\ fs (final_world (main w)) = fs w.
Proof.
  intros Hhist Hnone.
  destruct (loadConfig_returns w) as [cfg Hcfg].
  rewrite (main_unfold w cfg Hhist Hcfg). cbv zeta.
  destruct (main_format _ _ _) as [jsonOutput csvOutput].
  set (head := if negb jsonOutput && negb csvOutput then printHeader
               else ret tt).
  assert (exists w1, head w = Returned tt w1 /\ same_outside w w1)
    as (w1 & Hhead & Hout1).
  { subst head. destruct (negb jsonOutput && negb csvOutput).
    - destruct (returns_printHeader w) as ([] & w1 & Hrun).
      exists w1. split; [ exact Hrun | ].
      pose proof (steps_printHeader same_outside w) as Hstep.
      now rewrite Hrun in Hstep.
    - eexists. split; [ reflexivity | apply frame_refl ]. }
  rewrite (bind_Returned _ _ _ _ _ Hhead).
  pose proof (ends_main_params cfg (index (os_Args w) 0) (positionals w)
                jsonOutput csvOutput w1) as Hends.
  pose proof (steps_main_params same_outside cfg (index (os_Args w) 0)
                (positionals w) jsonOutput csvOutput w1) as Hout2.
  destruct (main_params _ _ _ _ _ w1)
    as [ [[fromCurrency toCurrencyRaw] amount] w2 | code w2 ] eqn:Hparams.
  - rewrite (bind_Returned _ _ _ _ _ Hparams).
    cbn [final_world] in Hout2.
    destruct (frame_trans _ _ _ Hout1 Hout2) as [Hfs2 Hnet2].
    assert (no_rates w2) as Hnone2.
    { intros url body rates Hbody. rewrite Hnet2 in Hbody.
      exact (Hnone _ _ _ Hbody). }
    destruct (fetch_fails jsonOutput csvOutput fromCurrency
                (fun rates =>
                   main_loop jsonOutput csvOutput fromCurrency amount rates
                     (time.Unix (TimeLastUpdated rates) 0)
                     (strings.Split toCurrencyRaw ","%char))
                w2 Hnone2) as (w3 & Hrun & Hfs3).
    rewrite Hrun. split; [ reflexivity | ]. cbn [final_world]. congruence.
  - rewrite (bind_Exited _ _ _ _ _ Hparams).
    cbn [ends_0_or_1] in Hends. subst code.
    split; [ reflexivity | ]. cbn [final_world] in *.
    destruct (frame_trans _ _ _ Hout1 Hout2) as [Hfs2 _]. exact Hfs2.
Qed.

(** X21: one target in the text mode, from end to end: with three
    positional arguments, no configuration file, an amount that parses,
    rates that were fetched and a target that the table has, a run prints
    the header and the loading line, sends the one request for the
    upper-cased source, and then saves and prints the conversion of the
    amount at the rate of the upper-cased target, the result being their
    product. *)
Theorem single_target_run (w : World) (from to x body msg : string)
    (amount rate : float64) (rates : ExchangeRateResponse) :
  arguments w = [from; to; x] ->
  from <> "--history" ->
  positional from = true -> positional to = true -> positional x = true ->
  read_file w configFile = Err msg ->
  strconv_ParseFloat x = Ok amount ->
  network w (apiURL +:+ ToUpper from) = Response 200 (Ok body) ->
  json_Unmarshal_Rates body = (rates, None) ->
  strings.Split (ToUpper to) ","%char = [ToUpper to] ->
  strings.TrimSpace (ToUpper to) = ToUpper to ->
  ToUpper to <> EmptyString ->
  Rates rates !! ToUpper to = Some rate ->
  main w
  = (saveToHistory (ToUpper from) (ToUpper to) amount (amount * rate)%float
       rate (time.Unix (TimeLastUpdated rates) 0) >>
     printResult amount (ToUpper from) (amount * rate)%float (ToUpper to)
       rates)
      (with_trace w
         (trace w ++ header_events
          ++ [ Colored Cyan "🔄 Загрузка актуальных курсов валют..." [];
               HttpGet (apiURL +:+ ToUpper from) ])).
Proof.
  intros Hargs Hfrom Hp1 Hp2 Hp3 Hcfg Hparse Hnet Hdec Hsplit Htrim Hne Hrate.
  assert (history_command w = false) as Hhist.
  { unfold history_command, os_Args. rewrite Hargs.
    cbn [length Nat.ltb Nat.leb index nth andb].
    now apply String.eqb_neq. }
  assert (loadConfig w = Returned defaultConfig w) as Hload
    by (rewrite loadConfig_run, Hcfg; reflexivity).
  rewrite (main_unfold w defaultConfig Hhist Hload). cbv zeta.
  unfold positionals, os_Args. cbn [drop]. rewrite Hargs, !drop_0.
  cbn [List.filter existsb]. rewrite Hp1, Hp2, Hp3.
  unfold positional in Hp1, Hp2, Hp3.
  apply andb_prop in Hp1 as [Hj1 Hc1]. apply andb_prop in Hp2 as [Hj2 Hc2].
  apply andb_prop in Hp3 as [Hj3 Hc3].
  apply negb_true_iff in Hj1, Hj2, Hj3, Hc1, Hc2, Hc3.
  rewrite Hj1, Hj2, Hj3, Hc1, Hc2, Hc3.
  cbn [orb].
  change (main_format defaultConfig false false) with (false, false).
  cbv iota beta. cbn [negb andb orb].
  unfold bind at 1. rewrite printHeader_outputs. unfold outputs.
  unfold bind at 1, main_params. cbn [length Nat.eqb index nth].
  rewrite Hparse. unfold ret at 1.
  unfold bind at 1, emit.
  rewrite Hsplit.
  unfold bind at 1, getExchangeRates, bind at 1, http_Get.
  cbn [network with_trace trace]. rewrite Hnet.
  change (negb (200 =? StatusOK)) with false. cbv iota.
  rewrite Hdec. unfold ret at 1. cbv beta iota.
  cbn [main_loop]. rewrite bind_ret_tt.
  unfold main_convert. cbv zeta. rewrite Htrim.
  assert (String.eqb (ToUpper to) EmptyString = false) as ->
    by (now apply String.eqb_neq).
  unfold convertCurrency. rewrite Hrate. cbn [default from_option].
  rewrite !with_trace_twice, <- !app_assoc. reflexivity.
Qed.

End EndToEnd.

Lemma failed_fetch_writes_nothing_witness :
  exit_code
    (main (P := Demo.platform)
       (Demo.offline ["USD"; "RUB"; "100"]
          {[ historyFile := Demo.file "[]" ]})) = 1
  /\ fs (final_world
           (main (P := Demo.platform)
              (Demo.offline ["USD"; "RUB"; "100"]
                 {[ historyFile := Demo.file "[]" ]})))
     = {[ historyFile := Demo.file "[]" ]}.
Proof.
  apply (failed_fetch_writes_nothing (P := Demo.platform));
    [ reflexivity | ].
  intros url body rates Hnet. discriminate Hnet.
Defined.

Lemma single_target_run_witness :
  main (P := Demo.platform) (Demo.world ["usd"; "rub"; "100"] ∅)
  = (saveToHistory (P := Demo.platform) "USD" "RUB" 100 (100 * 90)%float 90
       (time.Unix 1700000000 0) >>
     printResult 100 "USD" (100 * 90)%float "RUB" Demo.rates)
      (with_trace (Demo.world ["usd"; "rub"; "100"] ∅)
         (header_events
          ++ [ Colored Cyan "🔄 Загрузка актуальных курсов валют..." [];
               HttpGet (apiURL +:+ "USD") ])).
Proof.
  apply (single_target_run (P := Demo.platform)
           (Demo.world ["usd"; "rub"; "100"] ∅) "usd" "rub" "100"
           Demo.rates_body "no such file or directory" 100%float 90%float
           Demo.rates);
    first [ reflexivity | discriminate ].
Defined.

(** ** Prompts in the machine-readable modes *)

#[export] Instance grows_frame : Frame grows.
Proof.
  split.
  - intros w. exists []. now rewrite app_nil_r.
  - intros w1 w2 w3 [evs1 H1] [evs2 H2]. exists (evs1 ++ evs2).
    now rewrite H2, H1, app_assoc.
  - intros w e _. now exists [e].
Qed.

#[export] Instance grows_ticks : Ticks grows.
Proof. intros w n. exists []. cbn. now rewrite app_nil_r. Qed.

#[export] Instance grows_reads : Reads grows.
Proof. intros w l. exists []. cbn. now rewrite app_nil_r. Qed.

#[export] Instance grows_requests : Requests grows.
Proof. intros w url. now eexists. Qed.

#[export] Instance grows_writes : Writes grows.
Proof. intros w data. split; now eexists. Qed.

Lemma bind_assoc {A B C : Type} (c : M A) (k : A -> M B) (h : B -> M C)
    (w : World) :
  bind (bind c k) h w = bind c (fun a => bind (k a) h) w.
Proof. unfold bind. now destruct (c w). Qed.

Section Prompts.
Context {P : Platform}.

Lemma getInput_prompt (prompt : string) (w : World) :
  exists (s : string) (w1 : World),
    getInput prompt w = Returned s w1
    /\ trace w1 = trace w ++ [Print prompt].
Proof.
  unfold getInput, bind, emit, fmt_Scanln, ret.
  cbn [stdin with_trace]. destruct (stdin w); now eexists _, _.
Qed.

(** X23: the prompts do not heed the output mode: with [--json] or [--csv]
    and no positional argument, the first thing a run prints is the prompt
    for the source currency, written with [fmt.Print] ahead of any line of
    JSON or CSV. *)
Theorem machine_modes_still_prompt (w : World) (cfg : Config) :
  history_command w = false ->
  positionals w = [] ->
  existsb is_json_flag (arguments w) || existsb is_csv_flag (arguments w)
    = true ->
  loadConfig w = Returned cfg w ->
  exists evs : list Event,
    trace (final_world (main w))
    = trace w
      ++ Print ("Введите исходную валюту (по умолчанию "
                +:+ DefaultFrom cfg +:+ "): ")
         :: evs.
Proof.
  intros Hhist Hargs Hflags Hcfg.
  rewrite (main_unfold w cfg Hhist Hcfg). cbv zeta.
  change (drop 1 (os_Args w)) with (arguments w).
  rewrite (main_format_flags cfg _ _ Hflags), Hargs.
  set (jsonOutput := existsb is_json_flag (arguments w)) in *.
  set (csvOutput := existsb is_csv_flag (arguments w)) in *.
  assert (negb jsonOutput && negb csvOutput = false) as ->
    by (now destruct jsonOutput, csvOutput).
  rewrite (bind_Returned _ _ w w tt eq_refl).
  unfold main_params. cbn [length Nat.eqb]. rewrite bind_assoc.
  destruct (getInput_prompt
              ("Введите исходную валюту (по умолчанию "
               +:+ DefaultFrom cfg +:+ "): ") w)
    as (s & w1 & Hrun & Htrace).
  rewrite (bind_Returned _ _ _ _ _ Hrun).
  lazymatch goal with
  | |- exists evs, trace (final_world (?c w1)) = _ =>
      assert (steps grows c) as Hsteps
  end.
  { steps_step; [ steps_auto | ].
    lazymatch goal with
    | params : (string * string * float)%type |- _ =>
        destruct params as [[fromCurrency toCurrencyRaw] amount]
    end.
    steps_auto. }
  destruct (Hsteps w1) as [evs Hevs]. exists evs.
  now rewrite Hevs, Htrace, <- app_assoc.
Qed.

End Prompts.

Lemma machine_modes_still_prompt_witness :
  exists evs : list Event,
    trace (final_world (main (P := Demo.platform) (Demo.world ["--json"] ∅)))
    = trace (Demo.world ["--json"] ∅)
      ++ Print ("Введите исходную валюту (по умолчанию "
                +:+ DefaultFrom defaultConfig +:+ "): ")
         :: evs.
Proof.
  apply (machine_modes_still_prompt (P := Demo.platform)
           (Demo.world ["--json"] ∅) defaultConfig);
    reflexivity.
Defined.
